(** * weremac: the host-side driver of the G3-PLC modem

    A shallow embedding of the orchestration code of [hybrid/main.c] and of the
    single-shot sender of [g3-plc/send-mode.c].  The C program is a sequence
    of calls into the platform (getopt, GPIO, UART, pthreads, the protocol
    engine); it is embedded as a state-and-exit monad over a [machine] that
    holds the variables of [main], the statics of the mode, the signal masks
    of the threads and the trace of the calls made so far. *)

From Stdlib Require Import ZArith List String Ascii Bool Lia.
Import ListNotations.
Local Open Scope Z_scope.

(** ** C values *)

Definition EXIT_SUCCESS : Z := 0.
Definition EXIT_FAILURE : Z := 1.

(** The [int] value of a character constant. *)
Definition chr (a : ascii) : Z := Z.of_N (N_of_ascii a).

(** Conversions to [uint16_t] and to [int] (32 bits, two's complement). *)
Definition wrap_uint16 (v : Z) : Z := v mod 2 ^ 16.
Definition wrap_int32 (v : Z) : Z := (v + 2 ^ 31) mod 2 ^ 32 - 2 ^ 31.

Definition strlen (s : string) : Z := Z.of_nat (String.length s).

(** The three threads of control of the process. *)
Inductive thread := MainThread | OutputThread | InputThread.

Definition thread_eqb (a b : thread) : bool :=
  match a, b with
  | MainThread, MainThread | OutputThread, OutputThread
  | InputThread, InputThread => true
  | _, _ => false
  end.

(** ** The data model *)

(** Modelled from the spec: [struct context] is declared in a header that is
    not part of the sources.  Its three fields are those of the initializer
    of main.c (lines 202-206); the destination is a 16-bit short address and
    the other two are [int]. *)
Record context := {
  verbose    : Z;
  dst_mac    : Z;
  gpio_reset : Z
}.

Definition set_verbose (v : Z) (c : context) : context :=
  {| verbose := v; dst_mac := dst_mac c; gpio_reset := gpio_reset c |}.
Definition set_dst_mac (v : Z) (c : context) : context :=
  {| verbose := verbose c; dst_mac := v; gpio_reset := gpio_reset c |}.
Definition set_gpio_reset (v : Z) (c : context) : context :=
  {| verbose := verbose c; dst_mac := dst_mac c; gpio_reset := v |}.

(** The functions whose addresses main.c and send-mode.c store in the driver
    configuration. *)
Inductive funptr :=
| fn_uart_send | fn_uart_read | fn_set_uart_speed
| fn_start_timer | fn_stop_timer | fn_wait_timer
| fn_htons | fn_ntohs | fn_htonl | fn_ntohl
| fn_usleep_UL | fn_hybrid_recv_frame
| fn_cb_recv.

Record hybrid_callbacks := {
  raw     : option funptr;
  cb_recv : option funptr
}.

(** The address stored in the [data] field. *)
Inductive user_data := addr_of_ctx.

(** The driver configuration, with the fields that main.c initialises
    (lines 207-232) and [mac_address], which it assigns at line 351.  A
    function pointer is [None] when it is NULL. *)
Record hybrid_config := {
  callbacks      : hybrid_callbacks;
  uart_send      : option funptr;
  uart_read      : option funptr;
  set_uart_speed : option funptr;
  start_timer    : option funptr;
  stop_timer     : option funptr;
  wait_timer     : option funptr;
  htons          : option funptr;
  ntohs          : option funptr;
  htonl          : option funptr;
  ntohl          : option funptr;
  usleep         : option funptr;
  recv_frame     : option funptr;
  bandplan       : Z;
  pan_id         : Z;
  ext_address    : Z;
  mac_address    : Z;
  retrans        : Z;
  timeout        : Z;
  flags          : Z;
  data           : option user_data
}.

Definition set_callbacks (v : hybrid_callbacks) (h : hybrid_config) :=
  {| callbacks := v; uart_send := uart_send h; uart_read := uart_read h;
     set_uart_speed := set_uart_speed h; start_timer := start_timer h;
     stop_timer := stop_timer h; wait_timer := wait_timer h;
     htons := htons h; ntohs := ntohs h; htonl := htonl h; ntohl := ntohl h;
     usleep := usleep h; recv_frame := recv_frame h; bandplan := bandplan h;
     pan_id := pan_id h; ext_address := ext_address h;
     mac_address := mac_address h; retrans := retrans h;
     timeout := timeout h; flags := flags h; data := data h |}.
Definition set_mac_address (v : Z) (h : hybrid_config) :=
  {| callbacks := callbacks h; uart_send := uart_send h; uart_read := uart_read h;
     set_uart_speed := set_uart_speed h; start_timer := start_timer h;
     stop_timer := stop_timer h; wait_timer := wait_timer h;
     htons := htons h; ntohs := ntohs h; htonl := htonl h; ntohl := ntohl h;
     usleep := usleep h; recv_frame := recv_frame h; bandplan := bandplan h;
     pan_id := pan_id h; ext_address := ext_address h;
     mac_address := v; retrans := retrans h;
     timeout := timeout h; flags := flags h; data := data h |}.
Definition set_retrans (v : Z) (h : hybrid_config) :=
  {| callbacks := callbacks h; uart_send := uart_send h; uart_read := uart_read h;
     set_uart_speed := set_uart_speed h; start_timer := start_timer h;
     stop_timer := stop_timer h; wait_timer := wait_timer h;
     htons := htons h; ntohs := ntohs h; htonl := htonl h; ntohl := ntohl h;
     usleep := usleep h; recv_frame := recv_frame h; bandplan := bandplan h;
     pan_id := pan_id h; ext_address := ext_address h;
     mac_address := mac_address h; retrans := v;
     timeout := timeout h; flags := flags h; data := data h |}.
Definition set_timeout (v : Z) (h : hybrid_config) :=
  {| callbacks := callbacks h; uart_send := uart_send h; uart_read := uart_read h;
     set_uart_speed := set_uart_speed h; start_timer := start_timer h;
     stop_timer := stop_timer h; wait_timer := wait_timer h;
     htons := htons h; ntohs := ntohs h; htonl := htonl h; ntohl := ntohl h;
     usleep := usleep h; recv_frame := recv_frame h; bandplan := bandplan h;
     pan_id := pan_id h; ext_address := ext_address h;
     mac_address := mac_address h; retrans := retrans h;
     timeout := v; flags := flags h; data := data h |}.
Definition set_flags (v : Z) (h : hybrid_config) :=
  {| callbacks := callbacks h; uart_send := uart_send h; uart_read := uart_read h;
     set_uart_speed := set_uart_speed h; start_timer := start_timer h;
     stop_timer := stop_timer h; wait_timer := wait_timer h;
     htons := htons h; ntohs := ntohs h; htonl := htonl h; ntohl := ntohl h;
     usleep := usleep h; recv_frame := recv_frame h; bandplan := bandplan h;
     pan_id := pan_id h; ext_address := ext_address h;
     mac_address := mac_address h; retrans := retrans h;
     timeout := timeout h; flags := v; data := data h |}.

(** An entry of a help table ([struct opt_help]) and of a long-option table
    ([struct option], whose [flag] field is NULL everywhere in the sources). *)
Record opt_help := {
  name_short : Z;
  name_long  : string;
  help       : string
}.

Record long_option := {
  lo_name    : string;
  lo_has_arg : Z;
  lo_val     : Z
}.

Definition no_argument : Z := 0.
Definition required_argument : Z := 1.

(** What the protocol engine did during one call of its send operation: the
    status it returned, the number of transmissions it made (the [tx] result
    of g3plc.h) and the number of times it waited for an acknowledgment. *)
Record send_report := {
  tx_status    : Z;
  tx_attempts  : Z;
  tx_ack_waits : Z
}.

(** ** Calls observed from outside *)

Inductive event :=
| EvModeParseOption (c r : Z)
| EvSwitch (c : Z)
| EvVersion
| EvCommit
| EvHelp (messages : list opt_help)
| EvHelpExtra (mode_name : string) (messages : list opt_help)
| EvDisplaySummary (conf : hybrid_config) (ctx : context) (dev speed : string)
| EvSerialInit (device : string) (speed : Z)
| EvPrintf (s : string)
| EvGpioInit
| EvGpioSetMode (pin : Z)
| EvModeInit
| EvSigmask (self : thread) (r : Z)
| EvHybridInit (conf : hybrid_config) (r : Z)
| EvPthreadCreate (child : thread) (r : Z) (inherits_blocked : bool)
| EvUartReadLoop
| EvModeStart
| EvSend (dst : Z) (payload : string) (size : Z) (rep : send_report)
| EvPutchar (c : Z)
| EvPrintTime (t_begin t_end : Z)
| EvPrintTxStatus (ret : Z)
| EvModeDestroy
| EvPthreadJoin (t : thread)
| EvErr (msg : string)
| EvExit (status : Z).

(** ** The platform and the world

    The constants and library functions that the sources use and do not
    define are taken as parameters: [platform] holds those that are fixed
    for a build, [world] the answers of the operating system and of the
    protocol engine during one run.  An answer may depend on everything that
    happened before the call. *)
Record platform := {
  G3PLC_INVALID      : Z;
  G3PLC_NOACK        : Z;
  G3PLC_BP_CENELEC_A : Z;
  B9600              : Z;
  COMMIT             : bool;
  xatou              : string -> Z * Z;
  strtol             : string -> Z -> Z;
  baud               : string -> Z;
  rpi_gpio_check     : Z -> Z
}.

Record world := {
  w_pthread_sigmask : list event -> Z;
  w_pthread_create  : thread -> list event -> Z;
  w_hybrid_init     : hybrid_config -> Z;
  w_send            : option hybrid_config -> Z -> string -> Z -> send_report;
  w_clock           : list event -> Z
}.

(** ** The machine and its monad *)

Section Orchestration.

Variable P : platform.
Variable W : world.

(** The type of the statics of the mode that is linked into the build. *)
Context {M : Type}.

(** [m_ctx], [m_hybrid], [m_speed_str], [m_speed] and [m_exit_status] are the
    local variables of [main]; [m_mode] holds the statics of the mode;
    [m_engine] is the configuration whose address the protocol engine was
    given; [m_blocked t] tells whether SIGALRM is in the signal mask of
    thread [t], and [m_live] lists the threads that exist. *)
Record machine := {
  m_ctx         : context;
  m_hybrid      : hybrid_config;
  m_mode        : M;
  m_speed_str   : string;
  m_speed       : Z;
  m_exit_status : Z;
  m_engine      : option hybrid_config;
  m_blocked     : thread -> bool;
  m_live        : list thread;
  m_trace       : list event
}.

Definition with_ctx (f : context -> context) (m : machine) : machine :=
  {| m_ctx := f (m_ctx m); m_hybrid := m_hybrid m; m_mode := m_mode m;
     m_speed_str := m_speed_str m; m_speed := m_speed m;
     m_exit_status := m_exit_status m; m_engine := m_engine m;
     m_blocked := m_blocked m; m_live := m_live m; m_trace := m_trace m |}.
Definition with_hybrid (f : hybrid_config -> hybrid_config) (m : machine) : machine :=
  {| m_ctx := m_ctx m; m_hybrid := f (m_hybrid m); m_mode := m_mode m;
     m_speed_str := m_speed_str m; m_speed := m_speed m;
     m_exit_status := m_exit_status m; m_engine := m_engine m;
     m_blocked := m_blocked m; m_live := m_live m; m_trace := m_trace m |}.
Definition with_mode (s : M) (m : machine) : machine :=
  {| m_ctx := m_ctx m; m_hybrid := m_hybrid m; m_mode := s;
     m_speed_str := m_speed_str m; m_speed := m_speed m;
     m_exit_status := m_exit_status m; m_engine := m_engine m;
     m_blocked := m_blocked m; m_live := m_live m; m_trace := m_trace m |}.
Definition with_speed (str : string) (v : Z) (m : machine) : machine :=
  {| m_ctx := m_ctx m; m_hybrid := m_hybrid m; m_mode := m_mode m;
     m_speed_str := str; m_speed := v;
     m_exit_status := m_exit_status m; m_engine := m_engine m;
     m_blocked := m_blocked m; m_live := m_live m; m_trace := m_trace m |}.
Definition with_exit_status (v : Z) (m : machine) : machine :=
  {| m_ctx := m_ctx m; m_hybrid := m_hybrid m; m_mode := m_mode m;
     m_speed_str := m_speed_str m; m_speed := m_speed m;
     m_exit_status := v; m_engine := m_engine m;
     m_blocked := m_blocked m; m_live := m_live m; m_trace := m_trace m |}.
Definition with_engine (v : option hybrid_config) (m : machine) : machine :=
  {| m_ctx := m_ctx m; m_hybrid := m_hybrid m; m_mode := m_mode m;
     m_speed_str := m_speed_str m; m_speed := m_speed m;
     m_exit_status := m_exit_status m; m_engine := v;
     m_blocked := m_blocked m; m_live := m_live m; m_trace := m_trace m |}.
Definition with_threads (b : thread -> bool) (l : list thread) (m : machine) : machine :=
  {| m_ctx := m_ctx m; m_hybrid := m_hybrid m; m_mode := m_mode m;
     m_speed_str := m_speed_str m; m_speed := m_speed m;
     m_exit_status := m_exit_status m; m_engine := m_engine m;
     m_blocked := b; m_live := l; m_trace := m_trace m |}.
Definition record (e : event) (m : machine) : machine :=
  {| m_ctx := m_ctx m; m_hybrid := m_hybrid m; m_mode := m_mode m;
     m_speed_str := m_speed_str m; m_speed := m_speed m;
     m_exit_status := m_exit_status m; m_engine := m_engine m;
     m_blocked := m_blocked m; m_live := m_live m;
     m_trace := m_trace m ++ [e] |}.

(** A computation either goes on with a value or has ended the process. *)
Inductive result (A : Type) :=
| Running (a : A) (m : machine)
| Exited (status : Z) (m : machine).
Arguments Running {A} a m.
Arguments Exited {A} status m.

Definition proc (A : Type) : Type := machine -> result A.

Definition ret {A} (a : A) : proc A := fun m => Running a m.

Definition bind {A B} (c : proc A) (k : A -> proc B) : proc B :=
  fun m => match c m with
           | Running a m' => k a m'
           | Exited s m' => Exited s m'
           end.

Notation "x <- c1 ;; c2" := (bind c1 (fun x => c2))
  (at level 61, c1 at next level, right associativity).
Notation "c1 ;; c2" := (bind c1 (fun _ => c2))
  (at level 61, right associativity).

Definition read {A} (f : machine -> A) : proc A := fun m => Running (f m) m.
Definition modify (f : machine -> machine) : proc unit := fun m => Running tt (f m).
Definition emit (e : event) : proc unit := modify (record e).

(** [exit], and [err]/[errx], which print a diagnostic and exit. *)
Definition exit {A} (status : Z) : proc A :=
  fun m => Exited status (record (EvExit status) m).
Definition errx {A} (status : Z) (msg : string) : proc A :=
  emit (EvErr msg) ;; exit status.

(** The final machine and the exit status of a computation, if it exited. *)
Definition machine_of {A} (r : result A) : machine :=
  match r with Running _ m | Exited _ m => m end.
Definition status_of {A} (r : result A) : option Z :=
  match r with Running _ _ => None | Exited s _ => Some s end.
Definition trace_of {A} (r : result A) : list event := m_trace (machine_of r).

(** ** The mode descriptor ([struct iface_mode]) *)
Record iface_mode := {
  name           : string;
  description    : string;
  optstring      : string;
  long_opts      : list long_option;
  extra_messages : option (list opt_help);
  parse_option   : context -> Z -> string -> M -> Z * M;
  init           : context -> hybrid_config -> hybrid_config;
  start          : context -> proc unit;
  destroy        : context -> proc unit
}.

Variable iface_mode_ : iface_mode.

(** ** main.c *)

(** [IF_VERBOSE(ctx, x)] runs [x] when the verbose field is not zero. *)
Definition IF_VERBOSE (ctx : context) (x : proc unit) : proc unit :=
  if verbose ctx =? 0 then ret tt else x.

Definition configure_gpio (ctx : context) : proc unit :=
  if gpio_reset ctx <? 0 then ret tt
  else emit EvGpioInit ;; emit (EvGpioSetMode (gpio_reset ctx)).

Definition initialize_driver (ctx : context) (device : string) (speed : Z) : proc unit :=
  emit (EvSerialInit device speed) ;;
  IF_VERBOSE ctx (emit (EvPrintf "Serial initialized!")) ;;
  configure_gpio ctx.

(** [pthread_sigmask(SIG_BLOCK, {SIGALRM}, NULL)] called by thread [self]:
    when it succeeds SIGALRM is in the mask of [self]. *)
Definition pthread_sigmask_block (self : thread) : proc Z :=
  fun m =>
    let r := w_pthread_sigmask W (m_trace m) in
    let m' := if r =? 0
              then with_threads (fun t => thread_eqb t self || m_blocked m t)
                                (m_live m) m
              else m in
    Running r (record (EvSigmask self r) m').

Definition thread_block_signals (self : thread) : proc unit :=
  r <- pthread_sigmask_block self ;;
  if r =? 0 then ret tt else errx EXIT_FAILURE "cannot block signals".

(** [pthread_create] called by [self]: the new thread starts with the signal
    mask of its creator. *)
Definition pthread_create (self child : thread) : proc Z :=
  fun m =>
    let r := w_pthread_create W child (m_trace m) in
    let m' := if r =? 0
              then with_threads
                     (fun t => if thread_eqb t child then m_blocked m self
                               else m_blocked m t)
                     (m_live m ++ [child]) m
              else m in
    Running r (record (EvPthreadCreate child r (m_blocked m self)) m').

Record io_thread_data := {
  io_mode   : iface_mode;
  io_ctx    : context;
  io_config : hybrid_config
}.

Definition output_thread_func (p : io_thread_data) : proc unit :=
  emit EvModeStart ;;
  start (io_mode p) (io_ctx p).

(** [uart_read_loop] does not return: the event marks the point where the
    reader enters it. *)
Definition uart_read_loop : proc unit := emit EvUartReadLoop.

Definition input_thread_func (p : io_thread_data) : proc unit :=
  thread_block_signals InputThread ;;
  uart_read_loop.

(** [pthread_join(output_thread, NULL)].  The main thread runs until it
    blocks here.  The calls of the two tasks are recorded at this point, in
    the order in which the send of the writer needs them: the reader up to
    its read loop, which serves the writer, then the writer up to its
    return, which ends the wait. *)
Definition pthread_join_output (p : io_thread_data) : proc unit :=
  input_thread_func p ;;
  output_thread_func p ;;
  emit (EvPthreadJoin OutputThread).

Definition start_io_threads (ctx : context) (hybrid : hybrid_config) : proc unit :=
  let data := {| io_mode := iface_mode_; io_ctx := ctx; io_config := hybrid |} in
  thread_block_signals MainThread ;;
  err1 <- pthread_create MainThread OutputThread ;;
  err2 <- pthread_create MainThread InputThread ;;
  if Z.lor err1 err2 =? 0
  then pthread_join_output data
  else errx EXIT_FAILURE "cannot create threads".

Definition display_summary (conf : hybrid_config) (ctx : context)
    (dev speed : string) : proc unit :=
  emit (EvDisplaySummary conf ctx dev speed).

Definition common_messages : list opt_help :=
  [ {| name_short := chr "h"; name_long := "help"; help := "Show this help message" |};
    {| name_short := chr "V"; name_long := "version"; help := "Show version information" |};
    {| name_short := chr "v"; name_long := "verbose"; help := "Enable verbose mode" |} ]
  ++ (if COMMIT P
      then [ {| name_short := 0; name_long := "commit"; help := "Display commit information" |} ]
      else [])
  ++
  [ {| name_short := chr "i"; name_long := "invalid";
       help := "Do not filter invalid packets (packet header, CRC)" |};
    {| name_short := chr "a"; name_long := "no-ack";
       help := "Do not answer nor expect ACKs" |};
    {| name_short := chr "t"; name_long := "timeout";
       help := "ACK timeout in microseconds (default 4s)" |};
    {| name_short := chr "r"; name_long := "retransmissions";
       help := "Maximum number of retransmissions (default 3)" |};
    {| name_short := chr "B"; name_long := "baud";
       help := "Specify the baud rate (default 9600)" |};
    {| name_short := chr "d"; name_long := "destination";
       help := "Destination MAC (hex. short address, default to broadcast)" |};
    {| name_short := 0; name_long := "reset"; help := "RESET RPi GPIO" |} ].

Definition print_help (mode_name : string) (extra : option (list opt_help)) : proc unit :=
  emit (EvHelp common_messages) ;;
  match extra with
  | Some msgs => emit (EvHelpExtra mode_name msgs)
  | None => ret tt
  end.

(** The values of [enum opt] (main.c, lines 237-242). *)
Definition OPT_COMMIT : Z := 0x100.
Definition OPT_IRQ    : Z := 0x101.
Definition OPT_CTS    : Z := 0x102.
Definition OPT_RESET  : Z := 0x103.

Definition common_opts : list long_option :=
  [ {| lo_name := "help"; lo_has_arg := no_argument; lo_val := chr "h" |};
    {| lo_name := "version"; lo_has_arg := no_argument; lo_val := chr "V" |};
    {| lo_name := "verbose"; lo_has_arg := no_argument; lo_val := chr "v" |} ]
  ++ (if COMMIT P
      then [ {| lo_name := "commit"; lo_has_arg := no_argument; lo_val := OPT_COMMIT |} ]
      else [])
  ++
  [ {| lo_name := "invalid"; lo_has_arg := no_argument; lo_val := chr "i" |};
    {| lo_name := "no-ack"; lo_has_arg := no_argument; lo_val := chr "a" |};
    {| lo_name := "timeout"; lo_has_arg := required_argument; lo_val := chr "t" |};
    {| lo_name := "retransmissions"; lo_has_arg := required_argument; lo_val := chr "r" |};
    {| lo_name := "baud"; lo_has_arg := required_argument; lo_val := chr "B" |};
    {| lo_name := "destination"; lo_has_arg := required_argument; lo_val := chr "d" |};
    {| lo_name := "irq"; lo_has_arg := required_argument; lo_val := OPT_IRQ |};
    {| lo_name := "cts"; lo_has_arg := required_argument; lo_val := OPT_CTS |};
    {| lo_name := "reset"; lo_has_arg := required_argument; lo_val := OPT_RESET |} ].

(** How one turn of the option loop ends: with the next turn, or with the
    jump to the label EXIT. *)
Inductive control := Next | GotoEXIT.

(** The call [iface_mode.parse_option(&ctx, c)]; [optarg] is the global that
    getopt sets. *)
Definition mode_parse_option (c : Z) (optarg : string) : proc Z :=
  fun m =>
    let (r, s) := parse_option iface_mode_ (m_ctx m) c optarg (m_mode m) in
    Running r (record (EvModeParseOption c r) (with_mode s m)).

(** The [switch] on the common options (main.c, lines 288-340). *)
Definition common_option (c : Z) (optarg : string) : proc control :=
  emit (EvSwitch c) ;;
  if c =? OPT_RESET then
    let (v, err) := xatou P optarg in
    modify (with_ctx (set_gpio_reset (wrap_int32 v))) ;;
    if negb (err =? 0) then errx EXIT_FAILURE "cannot parse RESET GPIO"
    else
      ctx <- read m_ctx ;;
      if rpi_gpio_check P (gpio_reset ctx) =? 0
      then errx EXIT_FAILURE "invalid RESET GPIO number"
      else ret Next
  else if c =? chr "v" then
    modify (with_ctx (set_verbose 1)) ;; ret Next
  else if c =? chr "i" then
    modify (with_hybrid (fun h => set_flags (Z.lor (flags h) (G3PLC_INVALID P)) h)) ;;
    ret Next
  else if c =? chr "a" then
    modify (with_hybrid (fun h => set_flags (Z.lor (flags h) (G3PLC_NOACK P)) h)) ;;
    ret Next
  else if c =? chr "d" then
    modify (with_ctx (set_dst_mac (wrap_uint16 (strtol P optarg 16)))) ;; ret Next
  else if c =? chr "t" then
    let (v, err) := xatou P optarg in
    modify (with_hybrid (set_timeout v)) ;;
    if negb (err =? 0) then errx EXIT_FAILURE "cannot parse timeout value"
    else ret Next
  else if c =? chr "r" then
    let (v, err) := xatou P optarg in
    modify (with_hybrid (set_retrans v)) ;;
    if negb (err =? 0) then errx EXIT_FAILURE "cannot parse retransmissions value"
    else if v <? 1 then errx EXIT_FAILURE "invalid number of retransmissions"
    else ret Next
  else if c =? chr "B" then
    modify (with_speed optarg (baud P optarg)) ;; ret Next
  else if c =? chr "V" then
    emit EvVersion ;;
    modify (with_exit_status EXIT_SUCCESS) ;;
    ret GotoEXIT
  else if COMMIT P && (c =? OPT_COMMIT) then
    emit EvCommit ;;
    modify (with_exit_status EXIT_SUCCESS) ;;
    ret GotoEXIT
  else
    (if c =? chr "h" then modify (with_exit_status EXIT_SUCCESS) else ret tt) ;;
    print_help (name iface_mode_) (extra_messages iface_mode_) ;;
    ret GotoEXIT.

(** The body of the loop for one value [c] that getopt returned: the mode is
    asked first, and [continue] goes to the next turn. *)
Definition option_turn (c : Z) (optarg : string) : proc control :=
  r <- mode_parse_option c optarg ;;
  if negb (r =? 0) then ret Next
  else common_option c optarg.

(** The loop over the values that [getopt_long] returns, each with the
    [optarg] it comes with; the end of the list stands for the value -1. *)
Fixpoint getopt_loop (opts : list (Z * string)) : proc control :=
  match opts with
  | [] => ret Next
  | (c, optarg) :: rest =>
      if c =? -1 then ret Next
      else
        ctl <- option_turn c optarg ;;
        match ctl with
        | Next => getopt_loop rest
        | GotoEXIT => ret GotoEXIT
        end
  end.

(** The call [hybrid_init(&hybrid)]: the engine keeps the address of the
    configuration. *)
Definition hybrid_init : proc Z :=
  fun m =>
    let r := w_hybrid_init W (m_hybrid m) in
    Running r (record (EvHybridInit (m_hybrid m) r)
                 (with_engine (Some (m_hybrid m)) m)).

(** The code at the label EXIT. *)
Definition label_EXIT : proc unit :=
  s <- read m_exit_status ;; exit s.

(** [main], from the option loop on; [args] are the arguments that getopt
    leaves ([argv + optind]). *)
Definition main (opts : list (Z * string)) (args : list string) : proc unit :=
  ctl <- getopt_loop opts ;;
  match ctl with
  | GotoEXIT => label_EXIT
  | Next =>
      match args with
      | [source; device] =>
          modify (with_hybrid (set_mac_address (wrap_uint16 (strtol P source 16)))) ;;
          modify (with_exit_status EXIT_SUCCESS) ;;
          ctx <- read m_ctx ;;
          hybrid <- read m_hybrid ;;
          speed_str <- read m_speed_str ;;
          IF_VERBOSE ctx (display_summary hybrid ctx device speed_str) ;;
          speed <- read m_speed ;;
          initialize_driver ctx device speed ;;
          emit EvModeInit ;;
          modify (with_hybrid (init iface_mode_ ctx)) ;;
          thread_block_signals MainThread ;;
          err <- hybrid_init ;;
          (if err <? 0 then errx EXIT_FAILURE "cannot initialize G3-PLC" else ret tt) ;;
          hybrid <- read m_hybrid ;;
          start_io_threads ctx hybrid ;;
          emit EvModeDestroy ;;
          destroy iface_mode_ ctx ;;
          label_EXIT
      | _ =>
          print_help (name iface_mode_) (extra_messages iface_mode_) ;;
          label_EXIT
      end
  end.

(** The variables of [main] as their initializers leave them (lines
    201-234), in a process that has one thread and an empty signal mask. *)
Definition initial_ctx : context :=
  {| verbose := 0; dst_mac := 0xffff; gpio_reset := -1 |}.

Definition initial_hybrid : hybrid_config :=
  {| callbacks      := {| raw := None; cb_recv := None |};
     uart_send      := Some fn_uart_send;
     uart_read      := Some fn_uart_read;
     set_uart_speed := Some fn_set_uart_speed;
     start_timer    := Some fn_start_timer;
     stop_timer     := Some fn_stop_timer;
     wait_timer     := Some fn_wait_timer;
     htons          := Some fn_htons;
     ntohs          := Some fn_ntohs;
     htonl          := Some fn_htonl;
     ntohl          := Some fn_ntohl;
     usleep         := Some fn_usleep_UL;
     recv_frame     := Some fn_hybrid_recv_frame;
     bandplan       := G3PLC_BP_CENELEC_A P;
     pan_id         := 0xAAAA;
     ext_address    := 0;
     mac_address    := 0;
     retrans        := 5;
     timeout        := 1000000;
     flags          := 0;
     data           := Some addr_of_ctx |}.

Definition initial_machine (statics : M) : machine :=
  {| m_ctx := initial_ctx; m_hybrid := initial_hybrid; m_mode := statics;
     m_speed_str := "9600"; m_speed := B9600 P;
     m_exit_status := EXIT_FAILURE; m_engine := None;
     m_blocked := fun _ => false; m_live := [MainThread]; m_trace := [] |}.

End Orchestration.

Arguments Running {M A} a m.
Arguments Exited {M A} status m.

Declare Scope proc_scope.
Delimit Scope proc_scope with proc.
Notation "x <- c1 ;; c2" := (bind c1 (fun x => c2))
  (at level 61, c1 at next level, right associativity) : proc_scope.
Notation "c1 ;; c2" := (bind c1 (fun _ => c2))
  (at level 61, right associativity) : proc_scope.

(** ** send-mode.c *)

Module SendMode.

(** The statics of the file: [display_time] and [message]. *)
Record statics := {
  display_time : Z;
  message      : string
}.

Definition initial_statics : statics :=
  {| display_time := 0; message := "Hello World!" |}.

Section Mode.

Variable W : world.

Local Open Scope proc_scope.

Definition init (ctx : context) (g3plc : hybrid_config) : hybrid_config :=
  set_callbacks {| raw := raw (callbacks g3plc); cb_recv := Some fn_cb_recv |} g3plc.

(** The call of the send operation of the protocol engine, which answers
    from the configuration that [hybrid_init] gave it. *)
Definition g3plc_send (dst : Z) (payload : string) (size : Z) : @proc statics Z :=
  fun m =>
    let rep := w_send W (m_engine m) dst payload size in
    Running (tx_status rep) (record (EvSend dst payload size rep) m).

Definition clock_gettime : @proc statics Z :=
  fun m => Running (w_clock W (m_trace m)) m.

Definition start (ctx : context) : @proc statics unit :=
  t_begin <- clock_gettime ;;
  msg <- read (fun m => message (m_mode m)) ;;
  r <- g3plc_send (dst_mac ctx) msg (strlen msg) ;;
  t_end <- clock_gettime ;;
  emit (EvPutchar 10) ;;
  dt <- read (fun m => display_time (m_mode m)) ;;
  (if dt =? 0 then ret tt else emit (EvPrintTime t_begin t_end)) ;;
  emit (EvPrintTxStatus r).

Definition destroy (ctx : context) : @proc statics unit := ret tt.

Definition parse_option (ctx : context) (c : Z) (optarg : string) (s : statics)
  : Z * statics :=
  if c =? chr "T" then (1, {| display_time := 1; message := message s |})
  else if c =? chr "m" then (1, {| display_time := display_time s; message := optarg |})
  else (0, s).

Definition send_opts : list long_option :=
  [ {| lo_name := "time"; lo_has_arg := no_argument; lo_val := chr "T" |};
    {| lo_name := "message"; lo_has_arg := required_argument; lo_val := chr "m" |} ].

Definition dquote : string := String (ascii_of_nat 34) EmptyString.

Definition send_messages : list opt_help :=
  [ {| name_short := chr "T"; name_long := "time";
       help := "Display the time necessary to send the message (including retransmissions)" |};
    {| name_short := chr "m"; name_long := "message";
       help := String.append "Message to be send (default: "
                 (String.append dquote
                    (String.append "Hello World!" (String.append dquote ")"))) |} ].

Definition iface_mode : @iface_mode statics :=
  Build_iface_mode
    "send"                 (* name *)
    "Send a single frame"  (* description *)
    "Tm:"                  (* optstring *)
    send_opts              (* long_opts *)
    (Some send_messages)   (* extra_messages *)
    parse_option init start destroy.

End Mode.

End SendMode.

(** The program that is built from main.c and send-mode.c, run from the
    start of [main] on the values that getopt returns. *)
Definition boot (P : platform) : @machine SendMode.statics :=
  initial_machine P SendMode.initial_statics.

Definition run (P : platform) (W : world) (opts : list (Z * string))
    (args : list string) : @result SendMode.statics unit :=
  main P W (SendMode.iface_mode W) opts args (boot P).

(** ** The send operation of the protocol engine *)

Module Engine.

(** The two status values of the send operation that the specification
    names: success, and the exhaustion of the retransmission budget. *)
Record status_codes := {
  send_success         : Z;
  send_retry_exhausted : Z
}.

(** The retry loop: [budget] transmissions are left and [done] were made;
    [ack n] tells whether the [n]-th transmission is acknowledged.  The
    result is whether an acknowledgment came, and the transmissions made,
    each of which was followed by one wait. *)
Fixpoint send_retry (ack : nat -> bool) (budget done : nat) : bool * nat :=
  match budget with
  | O => (false, done)
  | S b => if ack (S done) then (true, S done)
           else send_retry ack b (S done)
  end.

(** Modelled from the spec: the send operation of the protocol engine, which
    is not part of the sources.  With the no-ACK flag set it returns success
    after exactly one transmission and does not wait; otherwise it transmits
    and waits until an acknowledgment is received or the retransmission
    budget of the configuration is exhausted, and reports the number of
    attempts. *)
Definition send (P : platform) (codes : status_codes) (ack : nat -> bool)
    (conf : hybrid_config) (dst : Z) (payload : string) (size : Z) : send_report :=
  if negb (Z.land (flags conf) (G3PLC_NOACK P) =? 0)
  then {| tx_status := send_success codes; tx_attempts := 1; tx_ack_waits := 0 |}
  else
    let (acked, n) := send_retry ack (Z.to_nat (retrans conf)) O in
    {| tx_status := if acked then send_success codes else send_retry_exhausted codes;
       tx_attempts := Z.of_nat n;
       tx_ack_waits := Z.of_nat n |}.

(** A world whose protocol engine sends as above once it is initialised.
    A send before the initialisation, which [main] never makes, is reported
    as no transmission. *)
Definition with_send (P : platform) (codes : status_codes) (ack : nat -> bool)
    (W : world) : world :=
  {| w_pthread_sigmask := w_pthread_sigmask W;
     w_pthread_create  := w_pthread_create W;
     w_hybrid_init     := w_hybrid_init W;
     w_send := fun conf dst payload size =>
       match conf with
       | Some c => send P codes ack c dst payload size
       | None => {| tx_status := send_retry_exhausted codes;
                    tx_attempts := 0; tx_ack_waits := 0 |}
       end;
     w_clock := w_clock W |}.

End Engine.

(** ** A platform and a world to run the program on *)

Module Sample.

Definition digit_of (base : Z) (a : ascii) : option Z :=
  let n := chr a in
  let d := if (48 <=? n) && (n <=? 57) then n - 48
           else if (97 <=? n) && (n <=? 102) then n - 87
           else if (65 <=? n) && (n <=? 70) then n - 55
           else base in
  if d <? base then Some d else None.

(** The value of the longest prefix of digits, and whether it is all of a
    string that is not empty. *)
Fixpoint digits (base : Z) (s : string) (acc : Z) (seen : bool) : Z * bool :=
  match s with
  | EmptyString => (acc, seen)
  | String a rest =>
      match digit_of base a with
      | Some d => digits base rest (acc * base + d) true
      | None => (acc, false)
      end
  end.

Definition xatou (s : string) : Z * Z :=
  let (v, ok) := digits 10 s 0 false in
  if ok && (v <? 2 ^ 32) then (v, 0) else (0, 1).

Definition strtol (s : string) (base : Z) : Z := fst (digits base s 0 false).

Definition rpi_gpio_check (pin : Z) : Z :=
  if (0 <=? pin) && (pin <? 54) then 1 else 0.

Definition platform : platform :=
  Build_platform
    0x1             (* G3PLC_INVALID *)
    0x2             (* G3PLC_NOACK *)
    0               (* G3PLC_BP_CENELEC_A *)
    13              (* B9600 *)
    false           (* COMMIT *)
    xatou strtol
    (fun _ => 13)   (* baud *)
    rpi_gpio_check.

Definition codes : Engine.status_codes :=
  {| Engine.send_success := 0; Engine.send_retry_exhausted := -1 |}.

(** Every call of the operating system succeeds; the engine initialises and
    its link acknowledges the transmissions that [ack] selects. *)
Definition world (ack : nat -> bool) : world :=
  Engine.with_send platform codes ack
    {| w_pthread_sigmask := fun _ => 0;
       w_pthread_create := fun _ _ => 0;
       w_hybrid_init := fun _ => 0;
       w_send := fun _ _ _ _ =>
         {| tx_status := 0; tx_attempts := 0; tx_ack_waits := 0 |};
       w_clock := fun tr => Z.of_nat (List.length tr) |}.

(** The command line [-a -r 3 -d 1234 0001 /dev/ttyAMA0] as getopt
    returns it. *)
Definition opts_a_r3_d1234 : list (Z * string) :=
  [ (chr "a", ""%string); (chr "r", "3"%string); (chr "d", "1234"%string) ].
Definition args_ok : list string := [ "0001"%string; "/dev/ttyAMA0"%string ].

End Sample.

(** ** Properties of traces *)

(** The events of the option loop and of the exits. *)
Definition option_event (e : event) : bool :=
  match e with
  | EvModeParseOption _ _ | EvSwitch _ | EvVersion | EvCommit
  | EvHelp _ | EvHelpExtra _ _ | EvErr _ | EvExit _ => true
  | _ => false
  end.

Definition is_mode_init (e : event) : bool :=
  match e with EvModeInit => true | _ => false end.
Definition is_hybrid_init (e : event) : bool :=
  match e with EvHybridInit _ _ => true | _ => false end.
Definition is_mode_start (e : event) : bool :=
  match e with EvModeStart => true | _ => false end.
Definition is_mode_destroy (e : event) : bool :=
  match e with EvModeDestroy => true | _ => false end.
Definition is_send (e : event) : bool :=
  match e with EvSend _ _ _ _ => true | _ => false end.
Definition is_create (e : event) : bool :=
  match e with EvPthreadCreate _ _ _ => true | _ => false end.
Definition is_join_of (t : thread) (e : event) : bool :=
  match e with EvPthreadJoin j => thread_eqb j t | _ => false end.
Definition is_main_block (e : event) : bool :=
  match e with EvSigmask MainThread r => r =? 0 | _ => false end.
(** The number of events of a trace that satisfy [p]. *)
Fixpoint count (p : event -> bool) (tr : list event) : nat :=
  match tr with
  | [] => O
  | e :: tl => ((if p e then 1 else 0) + count p tl)%nat
  end.

(** [preceded p q seen tr]: every event of [tr] that satisfies [q] comes
    after one that satisfies [p], or [seen] holds. *)
Fixpoint preceded (p q : event -> bool) (seen : bool) (tr : list event) : bool :=
  match tr with
  | [] => true
  | e :: tl => (negb (q e) || seen) && preceded p q (seen || p e) tl
  end.

(** A computation added the events [tl] to the trace of [m] and left the
    threads and the engine as they were. *)
Definition extends {M A} (m : @machine M) (r : @result M A) (tl : list event) : Prop :=
  trace_of r = m_trace m ++ tl /\
  m_blocked (machine_of r) = m_blocked m /\
  m_live (machine_of r) = m_live m /\
  m_engine (machine_of r) = m_engine m.

(** A computation leaves the context as it found it. *)
Definition preserves_ctx {M A} (c : @proc M A) : Prop :=
  forall m, m_ctx (machine_of (c m)) = m_ctx m.

(** No option of the list has the value [c]. *)
Definition absent (c : Z) (opts : list (Z * string)) : bool :=
  forallb (fun o => negb (fst o =? c)) opts.

(** The argument of the reset option is refused: it does not parse, or it
    is not the number of a GPIO. *)
Definition invalid_reset (P : platform) (optarg : string) : bool :=
  let (v, err) := xatou P optarg in
  negb (err =? 0) || (rpi_gpio_check P (wrap_int32 v) =? 0).

Definition callback_installed (e : event) : bool :=
  match e with
  | EvHybridInit conf _ =>
      match cb_recv (callbacks conf) with Some fn_cb_recv => true | _ => false end
  | _ => true
  end.

Definition inherits_block (e : event) : bool :=
  match e with EvPthreadCreate _ _ b => b | _ => true end.

Definition is_report (s : Z) (e : event) : bool :=
  match e with EvPrintTxStatus r => r =? s | _ => false end.

(** Every send of the trace is followed by the report of its status. *)
Fixpoint reports_status (tr : list event) : bool :=
  match tr with
  | [] => true
  | e :: tl =>
      match e with
      | EvSend _ _ _ rep => existsb (is_report (tx_status rep)) tl
      | _ => true
      end && reports_status tl
  end.

Definition exited_with (s : Z) (st : option Z) : bool :=
  match st with Some x => x =? s | None => false end.

(** The order and the number of the calls of a run that ended with the
    status [st] and left the trace [tr]. *)
Definition discipline (st : option Z) (tr : list event) : bool :=
  (exited_with EXIT_SUCCESS st || exited_with EXIT_FAILURE st)
  && (count is_hybrid_init tr <=? 1)%nat
  && preceded is_mode_init is_hybrid_init false tr
  && forallb callback_installed tr
  && preceded is_main_block is_create false tr
  && forallb inherits_block tr
  && (negb (existsb is_send tr) || exited_with EXIT_SUCCESS st)
  && reports_status tr
  && (count is_send tr <=? 1)%nat
  && Bool.eqb (existsb is_send tr) (existsb is_mode_start tr)
  && Bool.eqb (existsb is_mode_destroy tr) (existsb (is_join_of OutputThread) tr)
  && (count is_mode_destroy tr <=? 1)%nat
  && preceded (is_join_of OutputThread) is_mode_destroy false tr
  && preceded is_mode_start (is_join_of OutputThread) false tr
  && negb (existsb (is_join_of InputThread) tr).

(** The send that the writer makes in a run that ends in the machine [m]. *)
Definition the_send (W : world) (m : @machine SendMode.statics) : event :=
  let dst := dst_mac (m_ctx m) in
  let msg := SendMode.message (m_mode m) in
  EvSend dst msg (strlen msg) (w_send W (Some (m_hybrid m)) dst msg (strlen msg)).

Definition send_is (e0 e : event) : Prop := is_send e = true -> e = e0.

(** The configuration [h] is the one that [e] hands to the driver, if [e] is
    the initialisation of the driver. *)
Definition init_is (h : hybrid_config) (e : event) : Prop :=
  match e with EvHybridInit conf _ => conf = h | _ => True end.

(** What every run of the program satisfies, whatever the command line and
    the answers of the world: [l] is the outcome of its option loop and [r]
    the outcome of the run. *)
Record run_facts (W : world)
    (l : @result SendMode.statics control)
    (r : @result SendMode.statics unit) : Prop := {
  rf_discipline : discipline (status_of r) (trace_of r) = true;
  rf_masked :
    negb (existsb is_create (trace_of r))
    || forallb (m_blocked (machine_of r)) (m_live (machine_of r)) = true;
  rf_ctx : m_ctx (machine_of r) = m_ctx (machine_of l);
  rf_mode : m_mode (machine_of r) = m_mode (machine_of l);
  rf_retrans : retrans (m_hybrid (machine_of r)) = retrans (m_hybrid (machine_of l));
  rf_timeout : timeout (m_hybrid (machine_of r)) = timeout (m_hybrid (machine_of l));
  rf_flags : flags (m_hybrid (machine_of r)) = flags (m_hybrid (machine_of l));
  rf_sends : Forall (send_is (the_send W (machine_of r))) (trace_of r);
  rf_inits : Forall (init_is (m_hybrid (machine_of r))) (trace_of r)
}.

(** A mode that takes the letter [v] for itself: it counts the occurrences
    in its static and reports the option as its own. *)
Definition shadow_mode : @iface_mode Z :=
  Build_iface_mode
    "shadow" "Counts the v options" "v" [] None
    (fun _ c _ n => if c =? chr "v" then (1, n + 1) else (0, n))
    (fun _ h => h)
    (fun _ => ret tt)
    (fun _ => ret tt).

(** An event that satisfies [q] is not an event of the option loop: [q] is
    one of the classes of events of the later phases. *)
Definition later_class (q : event -> bool) : Prop :=
  forall e, option_event e = true -> q e = false.

(** A computation leaves one of the two exit statuses in [exit_status], and
    ends the process only with a failure. *)
Definition status_kept {M A} (m : @machine M) (r : @result M A) : Prop :=
  (m_exit_status m = EXIT_SUCCESS \/ m_exit_status m = EXIT_FAILURE ->
   m_exit_status (machine_of r) = EXIT_SUCCESS \/
   m_exit_status (machine_of r) = EXIT_FAILURE) /\
  (status_of r = None \/ status_of r = Some EXIT_FAILURE).

(** What a computation leaves of the four settings when it is run for the
    option [c]. *)
Definition keeps_settings {M A} (c : Z) (m : @machine M) (r : @result M A) : Prop :=
  (c <> chr "r" -> retrans (m_hybrid (machine_of r)) = retrans (m_hybrid m)) /\
  (c <> chr "t" -> timeout (m_hybrid (machine_of r)) = timeout (m_hybrid m)) /\
  (c <> chr "a" -> c <> chr "i" ->
   flags (m_hybrid (machine_of r)) = flags (m_hybrid m)) /\
  (c <> chr "d" -> dst_mac (m_ctx (machine_of r)) = dst_mac (m_ctx m)).

(** ** The state that the option loop leaves *)

(** The fields of the configuration that only the initializer of [main]
    writes: the functions of the platform, the band plan, the PAN id, the
    extended address and the user data. *)
Definition platform_table (h : hybrid_config) :=
  (uart_send h, uart_read h, set_uart_speed h, start_timer h, stop_timer h,
   wait_timer h, htons h, ntohs h, htonl h, ntohl h, usleep h, recv_frame h,
   bandplan h, pan_id h, ext_address h, data h).

(** What holds of the variables of [main] as long as the option loop goes
    on. *)
Definition settled (P : platform) {M} (m : @machine M) : Prop :=
  1 <= retrans (m_hybrid m) /\
  (gpio_reset (m_ctx m) = -1 \/ rpi_gpio_check P (gpio_reset (m_ctx m)) <> 0) /\
  0 <= dst_mac (m_ctx m) < 2 ^ 16 /\
  (verbose (m_ctx m) = 0 \/ verbose (m_ctx m) = 1) /\
  Z.land (flags (m_hybrid m)) (Z.lor (G3PLC_INVALID P) (G3PLC_NOACK P))
    = flags (m_hybrid m) /\
  platform_table (m_hybrid m) = platform_table (initial_hybrid P) /\
  callbacks (m_hybrid m) = callbacks (initial_hybrid P) /\
  mac_address (m_hybrid m) = 0.

(** The events of the turns of the option loop that go on or jump to EXIT. *)
Definition turn_event (e : event) : bool :=
  match e with
  | EvModeParseOption _ _ | EvSwitch _ | EvVersion | EvCommit
  | EvHelp _ | EvHelpExtra _ _ => true
  | _ => false
  end.

(** The trace of a computation of the option loop that started in [m]: the
    events of its turns, and a diagnostic with the exit when it ended the
    process. *)
Definition loop_shape {M A} (m : @machine M) (r : @result M A) : Prop :=
  match r with
  | Running _ m' =>
      exists tl, m_trace m' = m_trace m ++ tl /\ forallb turn_event tl = true
  | Exited s m' =>
      s = EXIT_FAILURE /\
      exists tl msg,
        m_trace m' = m_trace m ++ tl ++ [EvErr msg; EvExit EXIT_FAILURE] /\
        forallb turn_event tl = true
  end.

(** ** The order of the initialisations and the end of a run *)

Definition is_exit (e : event) : bool :=
  match e with EvExit _ => true | _ => false end.
Definition is_serial_init (e : event) : bool :=
  match e with EvSerialInit _ _ => true | _ => false end.
Definition is_gpio_init (e : event) : bool :=
  match e with EvGpioInit => true | _ => false end.
Definition is_gpio_set_mode (e : event) : bool :=
  match e with EvGpioSetMode _ => true | _ => false end.
Definition is_read_loop (e : event) : bool :=
  match e with EvUartReadLoop => true | _ => false end.
Definition is_reader_block (e : event) : bool :=
  match e with EvSigmask InputThread r => r =? 0 | _ => false end.
Definition is_created (t : thread) (e : event) : bool :=
  match e with EvPthreadCreate c r _ => thread_eqb c t && (r =? 0) | _ => false end.
Definition is_failed_init (e : event) : bool :=
  match e with EvHybridInit _ r => r <? 0 | _ => false end.
Definition is_diagnostic (msg : string) (e : event) : bool :=
  match e with EvErr s => String.eqb s msg | _ => false end.
Definition is_summary (e : event) : bool :=
  match e with EvDisplaySummary _ _ _ _ => true | _ => false end.
Definition is_printf (e : event) : bool :=
  match e with EvPrintf _ => true | _ => false end.
Definition is_print_time (e : event) : bool :=
  match e with EvPrintTime _ _ => true | _ => false end.

(** The trace ends with its only exit, whose status is [st]. *)
Fixpoint exit_last (st : option Z) (tr : list event) : bool :=
  match tr with
  | [] => false
  | e :: tl =>
      match tl with
      | [] => match e with EvExit s => exited_with s st | _ => false end
      | _ :: _ => negb (is_exit e) && exit_last st tl
      end
  end.

(** Every diagnostic of the trace is followed by the exit with a failure,
    and by nothing else. *)
Fixpoint fatal_ends (tr : list event) : bool :=
  match tr with
  | [] => true
  | e :: tl =>
      match e with
      | EvErr _ =>
          match tl with
          | [EvExit s] => s =? EXIT_FAILURE
          | _ => false
          end
      | _ => true
      end && fatal_ends tl
  end.

(** The order of the initialisations of a run that ended with the status
    [st] and left the trace [tr]. *)
Definition sequence (st : option Z) (tr : list event) : bool :=
  exit_last st tr
  && fatal_ends tr
  && (count is_serial_init tr <=? 1)%nat
  && preceded is_serial_init is_mode_init false tr
  && preceded is_serial_init is_gpio_init false tr
  && preceded is_gpio_init is_gpio_set_mode false tr
  && Bool.eqb (existsb is_gpio_init tr) (existsb is_gpio_set_mode tr)
  && preceded is_reader_block is_read_loop false tr
  && preceded (is_created InputThread) is_reader_block false tr
  && preceded (is_created OutputThread) is_mode_start false tr
  && (negb (existsb is_failed_init tr)
      || (negb (existsb is_create tr) && exited_with EXIT_FAILURE st
          && existsb (is_diagnostic "cannot initialize G3-PLC") tr))
  && Bool.eqb (existsb is_summary tr) (existsb is_printf tr).

(** The serial line is opened on the second argument with the speed [sp]. *)
Definition serial_is (args : list string) (sp : Z) (e : event) : Prop :=
  match e with
  | EvSerialInit device speed => nth_error args 1 = Some device /\ speed = sp
  | _ => True
  end.

(** The pin that is set up is [pin], which is not negative. *)
Definition gpio_is (pin : Z) (e : event) : Prop :=
  match e with
  | EvGpioSetMode p => p = pin /\ 0 <= pin
  | _ => True
  end.

(** The address of the configuration that the driver gets is read from the
    first argument. *)
Definition init_mac_is (P : platform) (args : list string) (e : event) : Prop :=
  match e with
  | EvHybridInit conf _ =>
      exists source, nth_error args 0 = Some source /\
                     mac_address conf = wrap_uint16 (strtol P source 16)
  | _ => True
  end.

(** More of what every run satisfies; [l] is the outcome of its option loop
    and [r] the outcome of the run on the arguments [args]. *)
Record run_more (P : platform) (args : list string)
    (l : @result SendMode.statics control)
    (r : @result SendMode.statics unit) : Prop := {
  rm_sequence : sequence (status_of r) (trace_of r) = true;
  rm_serial : Forall (serial_is args (m_speed (machine_of l))) (trace_of r);
  rm_gpio : Forall (gpio_is (gpio_reset (m_ctx (machine_of l)))) (trace_of r);
  rm_mac : Forall (init_mac_is P args) (trace_of r);
  rm_table :
    platform_table (m_hybrid (machine_of r))
    = platform_table (m_hybrid (machine_of l));
  rm_verbose :
    negb (existsb is_serial_init (trace_of r))
    || Bool.eqb (existsb is_summary (trace_of r))
                (negb (verbose (m_ctx (machine_of l)) =? 0)) = true;
  rm_time :
    negb (existsb is_send (trace_of r))
    || Bool.eqb (existsb is_print_time (trace_of r))
                (negb (SendMode.display_time (m_mode (machine_of l)) =? 0)) = true
}.

(** What a computation leaves of the settings that the configuration does
    not hold, when it is run for the option [c]. *)
Definition keeps_more (c : Z) (m : @machine SendMode.statics) {A}
    (r : @result SendMode.statics A) : Prop :=
  (c <> OPT_RESET ->
   gpio_reset (m_ctx (machine_of r)) = gpio_reset (m_ctx m)) /\
  (c <> chr "v" -> verbose (m_ctx (machine_of r)) = verbose (m_ctx m)) /\
  (c <> chr "B" ->
   m_speed (machine_of r) = m_speed m /\
   m_speed_str (machine_of r) = m_speed_str m) /\
  (c <> chr "T" ->
   SendMode.display_time (m_mode (machine_of r))
   = SendMode.display_time (m_mode m)) /\
  (c <> chr "m" ->
   SendMode.message (m_mode (machine_of r)) = SendMode.message (m_mode m)).

(** The option [c] occurs in the list. *)
Definition present (c : Z) (opts : list (Z * string)) : bool :=
  existsb (fun o => fst o =? c) opts.

(** ** The signal mask, the driver and the output of the writer *)

Definition is_ok_init (e : event) : bool :=
  match e with EvHybridInit _ r => negb (r <? 0) | _ => false end.
Definition is_failed_mask (t : thread) (e : event) : bool :=
  match e with EvSigmask s r => thread_eqb s t && negb (r =? 0) | _ => false end.
Definition is_putchar (e : event) : bool :=
  match e with EvPutchar _ => true | _ => false end.
Definition is_print_tx_status (e : event) : bool :=
  match e with EvPrintTxStatus _ => true | _ => false end.

(** The order of the calls around the signal mask, the initialisation of the
    driver and the output of the writer, in a run that ended with the status
    [st] and left the trace [tr]. *)
Definition order (st : option Z) (tr : list event) : bool :=
  preceded is_ok_init is_create false tr
  && preceded is_main_block is_hybrid_init false tr
  && (negb (existsb (is_failed_mask MainThread) tr)
      || negb (existsb is_create tr))
  && (negb (existsb (is_failed_mask InputThread) tr)
      || negb (existsb is_read_loop tr))
  && (negb (existsb (is_failed_mask MainThread) tr
            || existsb (is_failed_mask InputThread) tr)
      || (exited_with EXIT_FAILURE st
          && existsb (is_diagnostic "cannot block signals") tr))
  && negb (existsb (is_failed_mask OutputThread) tr)
  && preceded is_summary is_printf false tr
  && preceded is_serial_init is_printf false tr
  && preceded is_mode_start is_send false tr
  && preceded is_send is_putchar false tr
  && preceded is_putchar is_print_time false tr
  && preceded is_putchar is_print_tx_status false tr
  && (count is_print_time tr <=? 1)%nat
  && (count is_summary tr <=? 1)%nat.

(** What the summary shows: the context and the speed as the options left
    them, the device, and the configuration with the address of the first
    argument, as it is before the mode is initialised. *)
Definition summary_is (P : platform) (args : list string)
    (l : @machine SendMode.statics) (e : event) : Prop :=
  match e with
  | EvDisplaySummary conf ctx dev speed =>
      ctx = m_ctx l /\ nth_error args 1 = Some dev /\ speed = m_speed_str l /\
      exists source,
        nth_error args 0 = Some source /\
        conf = set_mac_address (wrap_uint16 (strtol P source 16)) (m_hybrid l)
  | _ => True
  end.

(** The line that tells that the serial line is open. *)
Definition printf_is (e : event) : Prop :=
  match e with
  | EvPrintf s => s = "Serial initialized!"%string
  | _ => True
  end.

Record run_order (P : platform) (args : list string)
    (l : @result SendMode.statics control)
    (r : @result SendMode.statics unit) : Prop := {
  ro_order : order (status_of r) (trace_of r) = true;
  ro_summary : Forall (summary_is P args (machine_of l)) (trace_of r);
  ro_printf : Forall printf_is (trace_of r)
}.

(** A world in which the mask of the signals is answered with [mask] and the
    initialisation of the driver with [init]; the other calls succeed. *)
Definition answering (mask init : Z) : world :=
  {| w_pthread_sigmask := fun _ => mask;
     w_pthread_create := fun _ _ => 0;
     w_hybrid_init := fun _ => init;
     w_send := fun _ _ _ _ =>
       {| tx_status := 0; tx_attempts := 1; tx_ack_waits := 1 |};
     w_clock := fun tr => Z.of_nat (List.length tr) |}.

(** ** The lines of the summary *)

Module Summary.

(** The lines that [display_summary] prints, with the values that fill
    their formats. *)
Inductive line :=
| Version
| Using (mode dev speed : string)
| GpioHeader
| GpioReset (pin : Z)
| SourceMac (mac : Z)
| DestinationMac (mac : Z)
| CmdTimeout (t : Z)
| MaxRetrans (r : Z)
| Flags (f : Z)
| Flag (flag : Z).

(** The loop [for(flag = 0x1 ; flag <= G3PLC_NOACK ; flag <<= 1)] over an
    unsigned long of [w] bits, from the value [flag] on; the result is
    [None] when the loop has not ended after [fuel] turns. *)
Fixpoint flag_loop (P : platform) (w : Z) (fuel : nat) (conf_flags flag : Z)
  : option (list line) :=
  match fuel with
  | O => None
  | S fuel' =>
      if flag <=? G3PLC_NOACK P then
        match flag_loop P w fuel' conf_flags (Z.shiftl flag 1 mod 2 ^ w) with
        | Some rest =>
            Some ((if Z.land conf_flags flag =? 0 then [] else [Flag flag])
                  ++ rest)
        | None => None
        end
      else Some []
  end.

Definition display_summary (P : platform) (w : Z) (fuel : nat)
    (mode_name : string) (conf : hybrid_config) (ctx : context) (dst_mac : Z)
    (dev speed : string) : option (list line) :=
  match flag_loop P w fuel (flags conf) 0x1 with
  | Some listed =>
      Some ([Version; Using mode_name dev speed]
            ++ (if 0 <? gpio_reset ctx
                then [GpioHeader; GpioReset (gpio_reset ctx)]
                else [])
            ++ [SourceMac (mac_address conf); DestinationMac dst_mac;
                CmdTimeout (timeout conf); MaxRetrans (retrans conf);
                Flags (flags conf)]
            ++ listed)
  | None => None
  end.

End Summary.

(** * Proofs *)

Lemma thread_eqb_eq a b : thread_eqb a b = true <-> a = b.
Proof. destruct a, b; simpl; split; intro H; try reflexivity; discriminate H. Qed.

(** ** Traces *)

Lemma count_app p l1 l2 : count p (l1 ++ l2) = (count p l1 + count p l2)%nat.
Proof. induction l1 as [|e l1 IH]; simpl; [reflexivity | rewrite IH; lia]. Qed.

Lemma count_zero p l : count p l = O <-> existsb p l = false.
Proof.
  induction l as [|e l IH]; simpl; [tauto|].
  destruct (p e); simpl; [split; intro; [lia | discriminate] | exact IH].
Qed.

Lemma count_positive p l : existsb p l = true -> (0 < count p l)%nat.
Proof.
  intro H. destruct (count p l) eqn:E; [|lia].
  apply count_zero in E. congruence.
Qed.


Lemma later_class_absent q l :
  later_class q -> forallb option_event l = true -> existsb q l = false.
Proof.
  intros Hq. induction l as [|e l IH]; simpl; [reflexivity|].
  intro H. apply andb_true_iff in H as [He Hl].
  rewrite (Hq e He), (IH Hl). reflexivity.
Qed.

Lemma preceded_app p q : forall l1 seen l2,
  preceded p q seen (l1 ++ l2) =
  preceded p q seen l1 && preceded p q (seen || existsb p l1) l2.
Proof.
  induction l1 as [|e l1 IH]; intros seen l2; simpl.
  - rewrite orb_false_r. reflexivity.
  - rewrite IH, orb_assoc, andb_assoc. reflexivity.
Qed.

Lemma preceded_absent p q : forall l seen,
  existsb q l = false -> preceded p q seen l = true.
Proof.
  induction l as [|e l IH]; intros seen H; simpl in *; [reflexivity|].
  apply orb_false_iff in H as [He Hl].
  rewrite He, (IH _ Hl). reflexivity.
Qed.

Lemma preceded_sound p q : forall tr seen,
  preceded p q seen tr = true ->
  forall l1 e l2, tr = l1 ++ e :: l2 -> q e = true ->
  seen || existsb p l1 = true.
Proof.
  induction tr as [|x tr IH]; intros seen H l1 e l2 Heq Hq.
  - destruct l1; discriminate Heq.
  - simpl in H. apply andb_true_iff in H as [Hx Htl].
    destruct l1 as [|y l1]; simpl in Heq; injection Heq as <- Htr.
    + rewrite Hq in Hx. simpl in *. rewrite orb_false_r. exact Hx.
    + simpl. rewrite orb_assoc. eapply IH; eauto.
Qed.

(** ** The steps of the monad *)

Ltac break_if :=
  match goal with
  | |- context [if ?c then _ else _] => destruct c eqn:?
  | |- context [match ?c with Some _ => _ | None => _ end] => destruct c eqn:?
  | |- context [let (_, _) := ?c in _] =>
      lazymatch type of c with (_ * _)%type => destruct c eqn:? end
  end.

(** The steps of the monad and of the functions of main.c; [run_send] adds
    the functions of the send mode. *)
Ltac run_proc :=
  cbv beta iota zeta delta
    [bind ret read modify emit errx exit print_help label_EXIT IF_VERBOSE
     configure_gpio initialize_driver display_summary uart_read_loop
     thread_block_signals pthread_sigmask_block pthread_create
     start_io_threads pthread_join_output input_thread_func
     output_thread_func hybrid_init io_mode io_ctx io_config].

Ltac run_send :=
  cbv beta iota zeta delta
    [bind ret read modify emit errx exit print_help label_EXIT IF_VERBOSE
     configure_gpio initialize_driver display_summary uart_read_loop
     thread_block_signals pthread_sigmask_block pthread_create
     start_io_threads pthread_join_output input_thread_func
     output_thread_func hybrid_init io_mode io_ctx io_config
     start destroy init name extra_messages
     SendMode.iface_mode SendMode.start SendMode.destroy
     SendMode.g3plc_send SendMode.clock_gettime].

Ltac norm_trace :=
  unfold trace_of, machine_of, status_of;
  cbn [trace_of machine_of status_of m_trace record with_ctx with_hybrid
       with_mode with_speed with_exit_status with_engine with_threads
       m_blocked m_live m_engine m_ctx m_hybrid m_mode m_exit_status
       m_speed m_speed_str];
  rewrite <- ?app_assoc; cbn [app].

Ltac close_extends :=
  unfold extends; norm_trace;
  (eexists; split; [split; [reflexivity | auto] | reflexivity]).

(** ** The option loop *)

Section Loop.

Variable P : platform.
Context {M : Type}.
Variable mode : @iface_mode M.

Lemma common_option_extends c optarg m :
  exists tl, extends m (common_option P mode c optarg m) tl /\
             forallb option_event tl = true.
Proof.
  unfold common_option.
  repeat (run_proc; try break_if); close_extends.
Qed.

Lemma option_turn_extends c optarg m :
  exists tl, extends m (option_turn P mode c optarg m) tl /\
             forallb option_event tl = true.
Proof.
  unfold option_turn, mode_parse_option. run_proc.
  destruct (parse_option mode (m_ctx m) c optarg (m_mode m)) as [r s].
  destruct (negb (r =? 0)).
  - close_extends.
  - destruct (common_option_extends c optarg
                (record (EvModeParseOption c r) (with_mode s m)))
      as (tl & (Ht & Hb & Hl & He) & Hall).
    exists (EvModeParseOption c r :: tl). unfold extends.
    rewrite Ht, Hb, Hl, He. norm_trace. simpl. auto.
Qed.

Lemma extends_trans {A B} (m : @machine M) (a : A) m1 (r : @result M B) tl1 tl2 :
  extends m (Running a m1) tl1 -> extends m1 r tl2 -> extends m r (tl1 ++ tl2).
Proof.
  unfold extends, trace_of, machine_of.
  intros (H1 & H2 & H3 & H4) (G1 & G2 & G3 & G4).
  rewrite G1, H1, G2, G3, G4, app_assoc. auto.
Qed.

Lemma getopt_loop_extends opts : forall m,
  exists tl, extends m (getopt_loop P mode opts m) tl /\
             forallb option_event tl = true.
Proof.
  induction opts as [|[c optarg] rest IH]; intro m; cbn [getopt_loop].
  - exists []. unfold extends, ret; norm_trace. rewrite app_nil_r. auto.
  - destruct (c =? -1).
    + exists []. unfold extends, ret; norm_trace. rewrite app_nil_r. auto.
    + unfold bind at 1.
      destruct (option_turn_extends c optarg m) as (tl1 & Hext & Hall).
      destruct (option_turn P mode c optarg m) as [[|] m1 | s m1].
      * destruct (IH m1) as (tl2 & Hext2 & Hall2).
        exists (tl1 ++ tl2). split.
        -- eapply extends_trans; eauto.
        -- rewrite forallb_app, Hall, Hall2. reflexivity.
      * exists tl1. split; auto.
      * exists tl1. split; auto.
Qed.

Lemma common_option_status c optarg m :
  status_kept m (common_option P mode c optarg m).
Proof.
  unfold common_option, status_kept.
  repeat (run_proc; try break_if); norm_trace; auto.
Qed.

Lemma option_turn_status c optarg m :
  status_kept m (option_turn P mode c optarg m).
Proof.
  unfold option_turn, mode_parse_option. run_proc.
  destruct (parse_option mode (m_ctx m) c optarg (m_mode m)) as [r s].
  destruct (negb (r =? 0)).
  - unfold status_kept; norm_trace; auto.
  - apply (common_option_status c optarg
             (record (EvModeParseOption c r) (with_mode s m))).
Qed.

Lemma getopt_loop_status opts : forall m,
  status_kept m (getopt_loop P mode opts m).
Proof.
  induction opts as [|[c optarg] rest IH]; intro m; cbn [getopt_loop].
  - unfold status_kept, ret; norm_trace; auto.
  - destruct (c =? -1).
    + unfold status_kept, ret; norm_trace; auto.
    + unfold bind at 1.
      pose proof (option_turn_status c optarg m) as [H1 H2].
      destruct (option_turn P mode c optarg m) as [[|] m1 | s m1].
      * destruct (IH m1) as [G1 G2]. split; auto.
      * split; auto.
      * split; auto.
Qed.

End Loop.

(** ** Runs of the program *)

Lemma loop_facts P W opts :
  let r := getopt_loop P (SendMode.iface_mode W) opts (boot P) in
  forallb option_event (trace_of r) = true /\
  m_blocked (machine_of r) = (fun _ => false) /\
  m_live (machine_of r) = [MainThread] /\
  m_engine (machine_of r) = None /\
  (m_exit_status (machine_of r) = EXIT_SUCCESS \/
   m_exit_status (machine_of r) = EXIT_FAILURE) /\
  (status_of r = None \/ status_of r = Some EXIT_FAILURE).
Proof.
  destruct (getopt_loop_extends P (SendMode.iface_mode W) opts (boot P))
    as (tl & (Ht & Hb & Hl & He) & Hall).
  destruct (getopt_loop_status P (SendMode.iface_mode W) opts (boot P))
    as [Hs Hf].
  cbv zeta. rewrite Ht, Hb, Hl, He. repeat split; auto.
Qed.

(** The answers of the world are named, so that the trace does not grow
    with the history that each of them depends on. *)
Ltac name_answers W :=
  repeat match goal with
  | |- context [w_pthread_sigmask W ?t] =>
      lazymatch t with context [W] => fail | _ => idtac end;
      let r := fresh "r" in generalize (w_pthread_sigmask W t); intro r
  | |- context [w_pthread_create W ?c ?t] =>
      lazymatch t with context [W] => fail | _ => idtac end;
      let r := fresh "r" in generalize (w_pthread_create W c t); intro r
  | |- context [w_hybrid_init W ?h] =>
      lazymatch h with context [W] => fail | _ => idtac end;
      let r := fresh "r" in generalize (w_hybrid_init W h); intro r
  | |- context [w_clock W ?t] =>
      lazymatch t with context [W] => fail | _ => idtac end;
      let r := fresh "t" in generalize (w_clock W t); intro r
  end.

Lemma lor_zero_absurd a b :
  (Z.lor a b =? 0) = true -> (a =? 0) = false \/ (b =? 0) = false -> False.
Proof.
  intros H. apply Z.eqb_eq, Z.lor_eq_0_iff in H. destruct H as [-> ->].
  intros [H | H]; discriminate H.
Qed.

Ltac zero_answers :=
  repeat match goal with
  | H : (?r =? 0) = true |- _ => is_var r; apply Z.eqb_eq in H; subst r
  end;
  try match goal with
  | H : (Z.lor ?a ?b =? 0) = true, H1 : (?a =? 0) = false |- _ =>
      exfalso; exact (lor_zero_absurd a b H (or_introl H1))
  | H : (Z.lor ?a ?b =? 0) = true, H1 : (?b =? 0) = false |- _ =>
      exfalso; exact (lor_zero_absurd a b H (or_intror H1))
  end.

Ltac run_step W :=
  run_send; norm_trace; cbn [Z.lor]; name_answers W; try break_if; zero_answers.

(** The cases of a run: the outcome of the option loop, the number of
    arguments, and the answers of the world. *)
Ltac run_cases P W opts args :=
  unfold run, main; unfold bind at 1;
  let Hpre := fresh "Hpre" in
  let Hb := fresh "Hb" in
  let Hl := fresh "Hl" in
  let He := fresh "He" in
  let Hst := fresh "Hst" in
  let Hfail := fresh "Hfail" in
  pose proof (loop_facts P W opts) as (Hpre & Hb & Hl & He & Hst & Hfail);
  destruct (getopt_loop P (SendMode.iface_mode W) opts (boot P))
    as [[|] ?m | ?s ?m];
  unfold trace_of, machine_of, status_of in Hpre, Hb, Hl, He, Hst, Hfail;
  [ destruct args as [|?a [|?a [|?a ?args]]] | | ];
  repeat (run_step W); norm_trace.

Ltac later_class_tac :=
  let e := fresh "e" in intros e; destruct e; simpl; congruence.

Lemma later_mode_init : later_class is_mode_init.
Proof. later_class_tac. Qed.
Lemma later_hybrid_init : later_class is_hybrid_init.
Proof. later_class_tac. Qed.
Lemma later_mode_start : later_class is_mode_start.
Proof. later_class_tac. Qed.
Lemma later_mode_destroy : later_class is_mode_destroy.
Proof. later_class_tac. Qed.
Lemma later_send : later_class is_send.
Proof. later_class_tac. Qed.
Lemma later_create : later_class is_create.
Proof. later_class_tac. Qed.
Lemma later_join_of t : later_class (is_join_of t).
Proof. later_class_tac. Qed.
Lemma later_main_block : later_class is_main_block.
Proof. later_class_tac. Qed.

(** The checks of a trace [pre ++ tl] whose prefix [pre] comes from the
    option loop are those of [tl]. *)
Lemma count_after_options q pre tl :
  later_class q -> forallb option_event pre = true ->
  count q (pre ++ tl) = count q tl.
Proof.
  intros Hq Hpre. rewrite count_app.
  apply (later_class_absent q pre Hq), count_zero in Hpre. rewrite Hpre. reflexivity.
Qed.

Lemma existsb_after_options q pre tl :
  later_class q -> forallb option_event pre = true ->
  existsb q (pre ++ tl) = existsb q tl.
Proof.
  intros Hq Hpre. rewrite existsb_app, (later_class_absent q pre Hq Hpre). reflexivity.
Qed.

Lemma preceded_after_options p q pre tl :
  later_class p -> later_class q -> forallb option_event pre = true ->
  preceded p q false (pre ++ tl) = preceded p q false tl.
Proof.
  intros Hp Hq Hpre.
  rewrite preceded_app, (later_class_absent p pre Hp Hpre).
  rewrite (preceded_absent p q pre false (later_class_absent q pre Hq Hpre)).
  reflexivity.
Qed.

Lemma count_options q pre :
  later_class q -> forallb option_event pre = true -> count q pre = O.
Proof. intros Hq Hpre. apply count_zero, later_class_absent; assumption. Qed.

Lemma preceded_options p q pre :
  later_class q -> forallb option_event pre = true -> preceded p q false pre = true.
Proof. intros Hq Hpre. apply preceded_absent, later_class_absent; assumption. Qed.

Lemma forallb_options_weaken (q : event -> bool) pre :
  (forall e, option_event e = true -> q e = true) ->
  forallb option_event pre = true -> forallb q pre = true.
Proof.
  intros Hq Hpre. rewrite forallb_forall in *. auto.
Qed.


Lemma reports_status_after_options pre tl :
  forallb option_event pre = true ->
  reports_status (pre ++ tl) = reports_status tl.
Proof.
  induction pre as [|e pre IH]; simpl; [reflexivity|].
  intro H. apply andb_true_iff in H as [He Hpre].
  rewrite (IH Hpre). destruct e; try discriminate He; reflexivity.
Qed.

Lemma callback_installed_options e :
  option_event e = true -> callback_installed e = true.
Proof. destruct e; simpl; congruence. Qed.

Lemma inherits_block_options e :
  option_event e = true -> inherits_block e = true.
Proof. destruct e; simpl; congruence. Qed.

Lemma discipline_after_options st pre tl :
  forallb option_event pre = true ->
  discipline st (pre ++ tl) = discipline st tl.
Proof.
  intro Hpre. unfold discipline.
  rewrite !forallb_app,
    (forallb_options_weaken _ _ callback_installed_options Hpre),
    (forallb_options_weaken _ _ inherits_block_options Hpre),
    (reports_status_after_options _ _ Hpre).
  rewrite !(count_after_options _ _ _ later_hybrid_init Hpre),
    !(count_after_options _ _ _ later_send Hpre),
    !(count_after_options _ _ _ later_mode_destroy Hpre).
  rewrite !(existsb_after_options _ _ _ later_send Hpre),
    !(existsb_after_options _ _ _ later_mode_start Hpre),
    !(existsb_after_options _ _ _ later_mode_destroy Hpre),
    !(existsb_after_options _ _ _ (later_join_of _) Hpre).
  rewrite (preceded_after_options _ _ _ _ later_mode_init later_hybrid_init Hpre),
    (preceded_after_options _ _ _ _ later_main_block later_create Hpre),
    (preceded_after_options _ _ _ _ (later_join_of _) later_mode_destroy Hpre),
    (preceded_after_options _ _ _ _ later_mode_start (later_join_of _) Hpre).
  reflexivity.
Qed.

Lemma Forall_after_options (Q : event -> Prop) pre tl :
  (forall e, option_event e = true -> Q e) ->
  forallb option_event pre = true ->
  Forall Q tl -> Forall Q (pre ++ tl).
Proof.
  intros HQ Hpre Htl. apply Forall_app. split; [|exact Htl].
  rewrite forallb_forall in Hpre. apply Forall_forall. auto.
Qed.

Lemma send_is_options e0 e : option_event e = true -> send_is e0 e.
Proof. intros H He. destruct e; discriminate. Qed.

Lemma init_is_options h e : option_event e = true -> init_is h e.
Proof. intros H. destruct e; try discriminate; exact I. Qed.

Ltac check_discipline Hpre :=
  first [ rewrite (discipline_after_options _ _ _ Hpre)
        | match goal with
          | |- discipline _ ?tr = true =>
              rewrite <- (app_nil_r tr), (discipline_after_options _ _ _ Hpre)
          end ];
  unfold discipline; cbn; rewrite ?Z.eqb_refl; reflexivity.

Ltac check_forall Hpre :=
  first [ apply Forall_after_options;
          [ first [ apply send_is_options | apply init_is_options ]
          | exact Hpre | ]
        | match goal with
          | |- Forall _ ?tr =>
              rewrite <- (app_nil_r tr); apply Forall_after_options;
              [ first [ apply send_is_options | apply init_is_options ]
              | exact Hpre | ]
          end ];
  repeat (constructor;
          [ first [ exact I | reflexivity | intro; discriminate
                  | intro; reflexivity ] | ]);
  constructor.

Lemma run_facts_hold P W opts args :
  run_facts W (getopt_loop P (SendMode.iface_mode W) opts (boot P))
            (run P W opts args).
Proof.
  run_cases P W opts args.
  all: try (destruct Hfail as [Hfail | Hfail]; [discriminate Hfail |];
            injection Hfail as ->).
  all: constructor; norm_trace; rewrite ?Hb, ?Hl; try reflexivity.
  all: try solve [check_discipline Hpre].
  all: try solve [destruct Hst as [Hst | Hst]; rewrite Hst; check_discipline Hpre].
  all: try solve [check_forall Hpre].
  all: rewrite ?(existsb_after_options _ _ _ later_create Hpre),
               ?(later_class_absent _ _ later_create Hpre); reflexivity.
Qed.

(** ** From the checks to statements about the order of events *)

Lemma In_mode_init l : existsb is_mode_init l = true -> In EvModeInit l.
Proof.
  intro H. apply existsb_exists in H as (e & Hin & He).
  destruct e; try discriminate He. exact Hin.
Qed.

Lemma In_mode_start l : existsb is_mode_start l = true <-> In EvModeStart l.
Proof.
  split.
  - intro H. apply existsb_exists in H as (e & Hin & He).
    destruct e; try discriminate He. exact Hin.
  - intro H. apply existsb_exists. exists EvModeStart. auto.
Qed.

Lemma In_mode_destroy l : existsb is_mode_destroy l = true <-> In EvModeDestroy l.
Proof.
  split.
  - intro H. apply existsb_exists in H as (e & Hin & He).
    destruct e; try discriminate He. exact Hin.
  - intro H. apply existsb_exists. exists EvModeDestroy. auto.
Qed.

Lemma In_join_of t l : existsb (is_join_of t) l = true <-> In (EvPthreadJoin t) l.
Proof.
  split.
  - intro H. apply existsb_exists in H as (e & Hin & He).
    destruct e; try discriminate He. simpl in He.
    apply thread_eqb_eq in He. subst. exact Hin.
  - intro H. apply existsb_exists. exists (EvPthreadJoin t). split; [exact H|].
    simpl. apply thread_eqb_eq. reflexivity.
Qed.

Lemma In_main_block l : existsb is_main_block l = true -> In (EvSigmask MainThread 0) l.
Proof.
  intro H. apply existsb_exists in H as (e & Hin & He).
  destruct e as [| | | | | | | | | | | |self r| | | | | | | | | | | |];
    try discriminate He.
  destruct self; try discriminate He. simpl in He.
  apply Z.eqb_eq in He. subst. exact Hin.
Qed.



Lemma forallb_at (q : event -> bool) tr l1 e l2 :
  forallb q tr = true -> tr = l1 ++ e :: l2 -> q e = true.
Proof.
  intros H ->. rewrite forallb_app in H. apply andb_true_iff in H as [_ H].
  simpl in H. apply andb_true_iff in H as [H _]. exact H.
Qed.

(** The parts of the discipline of a run. *)
Lemma run_discipline P W opts args :
  let r := run P W opts args in
  let st := status_of r in
  let tr := trace_of r in
  (st = Some EXIT_SUCCESS \/ st = Some EXIT_FAILURE) /\
  (count is_hybrid_init tr <= 1)%nat /\
  preceded is_mode_init is_hybrid_init false tr = true /\
  forallb callback_installed tr = true /\
  preceded is_main_block is_create false tr = true /\
  forallb inherits_block tr = true /\
  (existsb is_send tr = true -> st = Some EXIT_SUCCESS) /\
  reports_status tr = true /\
  (count is_send tr <= 1)%nat /\
  existsb is_send tr = existsb is_mode_start tr /\
  existsb is_mode_destroy tr = existsb (is_join_of OutputThread) tr /\
  (count is_mode_destroy tr <= 1)%nat /\
  preceded (is_join_of OutputThread) is_mode_destroy false tr = true /\
  preceded is_mode_start (is_join_of OutputThread) false tr = true /\
  existsb (is_join_of InputThread) tr = false.
Proof.
  cbv zeta.
  pose proof (rf_discipline _ _ _ (run_facts_hold P W opts args)) as D.
  unfold discipline in D.
  repeat (let H := fresh "D" in apply andb_true_iff in D as [D H]).
  assert (Hst : forall s st, exited_with s st = true -> st = Some s).
  { intros s [x|] H; [|discriminate H]. simpl in H.
    apply Z.eqb_eq in H. subst. reflexivity. }
  repeat match goal with
         | H : (_ <=? _)%nat = true |- _ => apply Nat.leb_le in H
         | H : Bool.eqb _ _ = true |- _ => apply Bool.eqb_prop in H
         | H : negb _ = true |- _ => apply negb_true_iff in H
         end.
  repeat split; try assumption.
  - apply orb_true_iff in D as [D | D]; [left | right]; exact (Hst _ _ D).
  - intro Hs. rewrite Hs in *. simpl in *. apply Hst. assumption.
Qed.

(** ** The claims *)

(** C1.  Before either I/O task is spawned, SIGALRM is in the signal mask of
    the thread that spawns it: each call of [pthread_create] comes after a
    successful masking by the main thread, and the task starts with the
    signal masked.  So once a task exists, every thread of the process has
    the signal masked, a fortiori every thread other than the one that owns
    the retransmission timer, whichever that is. *)
Theorem sigalrm_masked_before_spawn P W opts args :
  let r := run P W opts args in
  (forall l1 child e b l2,
     trace_of r = l1 ++ EvPthreadCreate child e b :: l2 ->
     In (EvSigmask MainThread 0) l1 /\ b = true) /\
  (forall owner t,
     existsb is_create (trace_of r) = true ->
     In t (m_live (machine_of r)) -> t <> owner ->
     m_blocked (machine_of r) t = true).
Proof.
  cbv zeta.
  destruct (run_discipline P W opts args)
    as (_ & _ & _ & _ & Hblock & Hinh & _).
  split.
  - intros l1 child e b l2 Heq. split.
    + apply In_main_block.
      exact (preceded_sound _ _ _ _ Hblock l1 _ l2 Heq eq_refl).
    + exact (forallb_at inherits_block _ _ _ _ Hinh Heq).
  - intros owner t Hc Hin _.
    pose proof (rf_masked _ _ _ (run_facts_hold P W opts args)) as Hm.
    rewrite Hc in Hm. simpl in Hm.
    rewrite forallb_forall in Hm. auto.
Qed.

(** C2.  In every run that reaches the initialisation of the driver, the
    init of the mode was called before [hybrid_init], which is called
    exactly once, with a configuration in which the receive callback of the
    mode is installed. *)
Theorem mode_init_before_driver_init P W opts args :
  let tr := trace_of (run P W opts args) in
  existsb is_hybrid_init tr = true ->
  count is_hybrid_init tr = 1%nat /\
  forall l1 conf r l2, tr = l1 ++ EvHybridInit conf r :: l2 ->
    In EvModeInit l1 /\ cb_recv (callbacks conf) = Some fn_cb_recv.
Proof.
  cbv zeta. intro Hreach.
  destruct (run_discipline P W opts args)
    as (_ & Honce & Hbefore & Hcb & _).
  split.
  - apply count_positive in Hreach. lia.
  - intros l1 conf r l2 Heq. split.
    + apply In_mode_init.
      exact (preceded_sound _ _ _ _ Hbefore l1 _ l2 Heq eq_refl).
    + pose proof (forallb_at callback_installed _ _ _ _ Hcb Heq) as H.
      simpl in H. destruct (cb_recv (callbacks conf)) as [[]|];
        try discriminate H. reflexivity.
Qed.

Lemma mode_init_before_driver_init_witness :
  let tr := trace_of (run Sample.platform (Sample.world (fun _ => true))
                          Sample.opts_a_r3_d1234 Sample.args_ok) in
  existsb is_hybrid_init tr = true /\ count is_hybrid_init tr = 1%nat.
Proof.
  split; [reflexivity|].
  apply (mode_init_before_driver_init Sample.platform
           (Sample.world (fun _ => true)) Sample.opts_a_r3_d1234 Sample.args_ok).
  reflexivity.
Defined.



(** C4, as the code has it.  The destroy of the mode is called in the runs
    in which the writer was joined, and only in those: once, after the start
    of the mode and the join.  The reader is never joined, and a run in
    which the start of the mode did not run (help, version, wrong number of
    arguments, a fatal error, a failed spawn) does not call destroy. *)
Theorem destroy_only_after_writer_joined P W opts args :
  let tr := trace_of (run P W opts args) in
  (In EvModeDestroy tr <-> In (EvPthreadJoin OutputThread) tr) /\
  (count is_mode_destroy tr <= 1)%nat /\
  (forall l1 l2, tr = l1 ++ EvModeDestroy :: l2 ->
     In (EvPthreadJoin OutputThread) l1 /\ In EvModeStart l1) /\
  ~ In (EvPthreadJoin InputThread) tr /\
  (~ In EvModeStart tr -> ~ In EvModeDestroy tr).
Proof.
  cbv zeta.
  destruct (run_discipline P W opts args)
    as (_ & _ & _ & _ & _ & _ & _ & _ & _ & _ & Hiff & Honce & Hjoin & Hstart & Hreader).
  assert (Hbefore : forall l1 l2,
    trace_of (run P W opts args) = l1 ++ EvModeDestroy :: l2 ->
    In (EvPthreadJoin OutputThread) l1 /\ In EvModeStart l1).
  { intros l1 l2 Heq.
    pose proof (preceded_sound _ _ _ _ Hjoin l1 _ l2 Heq eq_refl) as Hj.
    apply In_join_of in Hj. split; [exact Hj|].
    apply in_split in Hj as (k1 & k2 & ->).
    rewrite <- app_assoc in Heq. simpl in Heq.
    assert (Hq : is_join_of OutputThread (EvPthreadJoin OutputThread) = true)
      by reflexivity.
    pose proof (preceded_sound _ _ _ _ Hstart k1 _ _ Heq Hq) as Hs.
    apply In_mode_start in Hs. apply in_or_app. left. exact Hs. }
  repeat split.
  - intro H. apply In_join_of. rewrite <- Hiff. apply In_mode_destroy. exact H.
  - intro H. apply In_mode_destroy. rewrite Hiff. apply In_join_of. exact H.
  - exact Honce.
  - apply (Hbefore l1 l2 H).
  - apply (Hbefore l1 l2 H).
  - intro H. apply In_join_of in H. congruence.
  - intros Hno Hd. apply in_split in Hd as (l1 & l2 & Heq).
    apply Hno. rewrite Heq. apply in_or_app. left. apply (Hbefore l1 l2 Heq).
Qed.

(** C4 as it is stated fails: the help option ends the run with success and
    without a call of destroy (and without any task). *)
Lemma destroy_skipped_on_help :
  let r := run Sample.platform (Sample.world (fun _ => true))
               [(chr "h", ""%string)] Sample.args_ok in
  status_of r = Some EXIT_SUCCESS /\ ~ In EvModeDestroy (trace_of r).
Proof.
  cbv zeta. split; [reflexivity|].
  vm_compute. intros H. repeat (destruct H as [H | H]; [discriminate H|]). exact H.
Qed.

(** C5.  With the options [-a -r 3 -d 1234] and the default message, against
    the send operation of the specification: the start of the mode makes
    one call of send, with the destination 0x1234, the payload
    [Hello World!] and the size 12; the engine makes one transmission, does
    not wait for an acknowledgment and reports success. *)
Theorem noack_scenario_sends_once P codes ack W args :
  G3PLC_NOACK P <> 0 ->
  xatou P "3" = (3, 0) ->
  strtol P "1234" 16 = 0x1234 ->
  let tr := trace_of (run P (Engine.with_send P codes ack W)
                          Sample.opts_a_r3_d1234 args) in
  let rep := {| tx_status := Engine.send_success codes;
                tx_attempts := 1; tx_ack_waits := 0 |} in
  (count is_send tr <= 1)%nat /\
  (In EvModeStart tr -> In (EvSend 0x1234 "Hello World!" 12 rep) tr) /\
  (forall e, In e tr -> is_send e = true ->
             e = EvSend 0x1234 "Hello World!" 12 rep).
Proof.
  intros Hnoack Hxatou Hstrtol. cbv zeta.
  set (W' := Engine.with_send P codes ack W).
  pose proof (run_facts_hold P W' Sample.opts_a_r3_d1234 args) as F.
  destruct (run_discipline P W' Sample.opts_a_r3_d1234 args)
    as (_ & _ & _ & _ & _ & _ & _ & _ & Honce & Hstart & _).
  assert (Hloop : exists m,
    getopt_loop P (SendMode.iface_mode W') Sample.opts_a_r3_d1234 (boot P)
      = Running Next m /\
    m_ctx m = set_dst_mac 0x1234 initial_ctx /\
    m_mode m = SendMode.initial_statics /\
    flags (m_hybrid m) = G3PLC_NOACK P /\
    retrans (m_hybrid m) = 3).
  { unfold Sample.opts_a_r3_d1234, getopt_loop, option_turn, mode_parse_option,
      common_option.
    cbn. rewrite Hxatou, Hstrtol. cbn. eexists. split; [reflexivity|].
    cbn. repeat split; reflexivity. }
  destruct Hloop as (m & Hm & Hctx & Hmode & Hflags & Hretrans).
  assert (Hthe : the_send W' (machine_of (run P W' Sample.opts_a_r3_d1234 args))
                 = EvSend 0x1234 "Hello World!" 12
                     {| tx_status := Engine.send_success codes;
                        tx_attempts := 1; tx_ack_waits := 0 |}).
  { unfold the_send.
    rewrite (rf_ctx _ _ _ F), (rf_mode _ _ _ F), Hm. cbn [machine_of].
    rewrite Hctx, Hmode. cbn. unfold Engine.send.
    rewrite (rf_flags _ _ _ F), Hm. cbn [machine_of]. rewrite Hflags.
    rewrite Z.land_diag.
    destruct (G3PLC_NOACK P =? 0) eqn:E;
      [apply Z.eqb_eq in E; contradiction | reflexivity]. }
  pose proof (rf_sends _ _ _ F) as Hs. rewrite Hthe in Hs.
  rewrite Forall_forall in Hs.
  split; [exact Honce|]. split.
  - intro Hin. apply In_mode_start in Hin. rewrite <- Hstart in Hin.
    apply existsb_exists in Hin as (e & Hin & He).
    rewrite <- (Hs e Hin He). exact Hin.
  - exact Hs.
Qed.

Lemma noack_scenario_sends_once_witness :
  let tr := trace_of (run Sample.platform (Sample.world (fun _ => false))
                          Sample.opts_a_r3_d1234 Sample.args_ok) in
  In EvModeStart tr /\
  In (EvSend 0x1234 "Hello World!" 12
        {| tx_status := 0; tx_attempts := 1; tx_ack_waits := 0 |}) tr.
Proof.
  cbv zeta.
  assert (H : In EvModeStart
                 (trace_of (run Sample.platform (Sample.world (fun _ => false))
                                Sample.opts_a_r3_d1234 Sample.args_ok))).
  { vm_compute. repeat (first [left; reflexivity | right]). }
  split; [exact H|].
  refine (proj1 (proj2 (noack_scenario_sends_once Sample.platform Sample.codes
            (fun _ => false) _ Sample.args_ok _ _ _)) H).
  - discriminate.
  - reflexivity.
  - reflexivity.
Defined.

(** C6.  In every turn of the option loop the mode is asked first.  When it
    reports the option as its own, the turn ends there: the switch on the
    common options is not entered, and the context, the configuration, the
    baud rate and the exit status are as they were, even when the letter is
    also a common option. *)
Theorem mode_option_shadows_common P {M} (mode : @iface_mode M) c optarg m :
  let answer := parse_option mode (m_ctx m) c optarg (m_mode m) in
  let asked := record (EvModeParseOption c (fst answer)) (with_mode (snd answer) m) in
  let r := option_turn P mode c optarg m in
  (exists tl, trace_of r = m_trace m ++ EvModeParseOption c (fst answer) :: tl) /\
  (fst answer = 0 -> r = common_option P mode c optarg asked) /\
  (fst answer <> 0 ->
     r = Running Next asked /\
     trace_of r = m_trace m ++ [EvModeParseOption c (fst answer)] /\
     m_ctx (machine_of r) = m_ctx m /\
     m_hybrid (machine_of r) = m_hybrid m /\
     m_speed (machine_of r) = m_speed m /\
     m_speed_str (machine_of r) = m_speed_str m /\
     m_exit_status (machine_of r) = m_exit_status m).
Proof.
  cbv zeta. unfold option_turn, mode_parse_option, bind, ret.
  destruct (parse_option mode (m_ctx m) c optarg (m_mode m)) as [r s].
  cbn [fst snd]. split; [|split].
  - destruct (negb (r =? 0)).
    + exists []. reflexivity.
    + destruct (common_option_extends P mode c optarg
                  (record (EvModeParseOption c r) (with_mode s m)))
        as (tl & (Ht & _) & _).
      exists tl. rewrite Ht. cbn. rewrite <- app_assoc. reflexivity.
  - intros ->. reflexivity.
  - intro Hr. apply Z.eqb_neq in Hr. rewrite Hr. cbn.
    repeat split; reflexivity.
Qed.

(** The letter [v] under a mode that claims it: the verbose flag of the
    context stays 0. *)
Lemma mode_option_shadows_common_witness :
  let m := initial_machine Sample.platform 0 in
  let r := option_turn Sample.platform shadow_mode (chr "v") "" m in
  fst (parse_option shadow_mode (m_ctx m) (chr "v") "" (m_mode m)) <> 0 /\
  verbose (m_ctx (machine_of r)) = 0 /\
  m_mode (machine_of r) = 1.
Proof.
  cbv zeta. split; [discriminate|].
  destruct (mode_option_shadows_common Sample.platform shadow_mode (chr "v") ""
              (initial_machine Sample.platform 0)) as (_ & _ & H).
  destruct H as (Hr & _ & Hctx & _); [discriminate|].
  split.
  - rewrite Hctx. reflexivity.
  - rewrite Hr. reflexivity.
Defined.

(** C7.  Once its own masking of the signal has succeeded,
    [start_io_threads] calls [pthread_create] for the writer and then for
    the reader, whatever the first call returns.  If either call fails the
    process exits with a failure and the diagnostic of the spawn; otherwise
    the main thread waits for the writer, whose start has run by then.  No
    other task is created and the reader is never joined. *)
Theorem start_io_threads_spawns_both W ctx hybrid (m : @machine SendMode.statics) :
  w_pthread_sigmask W (m_trace m) = 0 ->
  let r := start_io_threads W (SendMode.iface_mode W) ctx hybrid m in
  exists e1 b1 e2 b2 tl,
    trace_of r = m_trace m ++ EvSigmask MainThread 0
                   :: EvPthreadCreate OutputThread e1 b1
                   :: EvPthreadCreate InputThread e2 b2 :: tl /\
    existsb is_create tl = false /\
    ~ In (EvPthreadJoin InputThread) tl /\
    (e1 <> 0 \/ e2 <> 0 ->
       status_of r = Some EXIT_FAILURE /\
       tl = [EvErr "cannot create threads"; EvExit EXIT_FAILURE]) /\
    (e1 = 0 -> e2 = 0 ->
       (status_of r = None /\
        exists tl', tl = tl' ++ [EvPthreadJoin OutputThread] /\ In EvModeStart tl')
       \/ (status_of r = Some EXIT_FAILURE /\
           In (EvErr "cannot block signals") tl)).
Proof.
  intros Hmask r. pattern r.
  match goal with |- ?Q r => set (claim := Q) end.
  subst r.
  unfold start_io_threads, thread_block_signals at 1, pthread_sigmask_block at 1.
  unfold bind at 1. unfold bind at 1. rewrite Hmask. cbn [Z.eqb]. norm_trace.
  unfold ret at 1. unfold bind at 1. unfold pthread_create at 1. norm_trace.
  set (e1 := w_pthread_create W OutputThread _).
  unfold bind at 1. unfold pthread_create at 1.
  match goal with
  | |- context [EvPthreadCreate OutputThread e1 ?b] => set (b1 := b)
  end.
  match goal with
  | |- context [w_pthread_create W InputThread ?t] =>
      set (e2 := w_pthread_create W InputThread t)
  end.
  match goal with
  | |- context [EvPthreadCreate InputThread e2 ?b] => set (b2 := b)
  end.
  clearbody e1 e2 b1 b2.
  destruct (Z.lor e1 e2 =? 0) eqn:Hlor.
  - apply Z.eqb_eq, Z.lor_eq_0_iff in Hlor as [-> ->].
    repeat (run_send; norm_trace; name_answers W; try break_if; zero_answers);
      norm_trace.
    all: subst claim; cbv beta; exists 0, b1, 0, b2; norm_trace.
    all: eexists; split; [reflexivity|]; split; [reflexivity|]; split;
      [ cbn; intuition discriminate | ].
    all: split; [ intros [H | H]; contradiction | intros _ _ ].
    all: first
      [ left; split; [reflexivity|];
        match goal with
        | |- exists tl', ?tl = tl' ++ _ /\ _ => exists (removelast tl)
        end;
        split; [reflexivity|]; cbn;
        repeat (first [left; reflexivity | right])
      | right; split; [reflexivity|]; cbn;
        repeat (first [left; reflexivity | right]) ].
  - assert (Hnz : ~ (e1 = 0 /\ e2 = 0)).
    { intros [-> ->]. discriminate Hlor. }
    repeat (run_send; norm_trace; try break_if); norm_trace.
    all: subst claim; cbv beta; exists e1, b1, e2, b2; norm_trace.
    all: eexists; split; [reflexivity|]; split; [reflexivity|]; split;
      [ cbn; intuition discriminate | ].
    all: split; [ intros _; split; reflexivity | intros H1 H2; tauto ].
Qed.

Lemma start_io_threads_spawns_both_witness :
  let W := Sample.world (fun _ => true) in
  let m := boot Sample.platform in
  w_pthread_sigmask W (m_trace m) = 0 /\
  exists e1 b1 e2 b2 tl,
    trace_of (start_io_threads W (SendMode.iface_mode W) initial_ctx
                (initial_hybrid Sample.platform) m)
    = EvSigmask MainThread 0 :: EvPthreadCreate OutputThread e1 b1
        :: EvPthreadCreate InputThread e2 b2 :: tl.
Proof.
  cbv zeta. split; [reflexivity|].
  destruct (start_io_threads_spawns_both (Sample.world (fun _ => true))
              initial_ctx (initial_hybrid Sample.platform)
              (boot Sample.platform) eq_refl)
    as (e1 & b1 & e2 & b2 & tl & Htr & _).
  exists e1, b1, e2, b2, tl. exact Htr.
Defined.

(** ** The reset option *)

Lemma getopt_loop_app P {M} (mode : @iface_mode M) opts1 opts2 : forall m m1,
  Forall (fun o => fst o <> -1) opts1 ->
  getopt_loop P mode opts1 m = Running Next m1 ->
  getopt_loop P mode (opts1 ++ opts2) m = getopt_loop P mode opts2 m1.
Proof.
  induction opts1 as [|[c optarg] rest IH]; intros m m1 Hok Hloop.
  - cbn in Hloop. injection Hloop as <-. reflexivity.
  - inversion Hok as [|? ? Hc Hrest]; subst. cbn [fst] in Hc.
    apply Z.eqb_neq in Hc.
    cbn [getopt_loop app] in *. rewrite Hc in *.
    unfold bind in *.
    destruct (option_turn P mode c optarg m) as [[|] m' | s m'];
      try discriminate Hloop.
    apply IH; assumption.
Qed.

Lemma reset_turn_fatal P W optarg (m : @machine SendMode.statics) :
  invalid_reset P optarg = true ->
  exists msg m',
    (msg = "cannot parse RESET GPIO"%string \/
     msg = "invalid RESET GPIO number"%string) /\
    option_turn P (SendMode.iface_mode W) OPT_RESET optarg m
      = Exited EXIT_FAILURE m' /\
    m_trace m' = m_trace m ++ [EvModeParseOption OPT_RESET 0; EvSwitch OPT_RESET;
                               EvErr msg; EvExit EXIT_FAILURE].
Proof.
  unfold invalid_reset. intro Hinv.
  unfold option_turn, mode_parse_option, common_option. run_send.
  cbn [parse_option SendMode.iface_mode SendMode.parse_option].
  change (OPT_RESET =? chr "T") with false.
  change (OPT_RESET =? chr "m") with false.
  change (OPT_RESET =? OPT_RESET) with true.
  cbv beta iota. cbn [negb Z.eqb].
  destruct (xatou P optarg) as [v err]. run_send.
  destruct (negb (err =? 0)) eqn:Herr.
  - eexists _, _. split; [left; reflexivity|]. split; [reflexivity|].
    norm_trace. reflexivity.
  - simpl in Hinv. norm_trace. cbn [gpio_reset set_gpio_reset]. rewrite Hinv.
    eexists _, _. split; [right; reflexivity|]. split; [reflexivity|].
    norm_trace. reflexivity.
Qed.

Lemma getopt_loop_stops_at_invalid_reset P W optarg opts1 opts2 :
  invalid_reset P optarg = true ->
  Forall (fun o => fst o <> -1) opts1 ->
  forall m m',
    getopt_loop P (SendMode.iface_mode W)
      (opts1 ++ (OPT_RESET, optarg) :: opts2) m <> Running Next m'.
Proof.
  intros Hinv. induction opts1 as [|[c o] rest IH]; intros Hok m m'.
  - cbn [app getopt_loop]. change (OPT_RESET =? -1) with false. cbv iota.
    unfold bind.
    destruct (reset_turn_fatal P W optarg m Hinv) as (msg & m1 & _ & Heq & _).
    rewrite Heq. discriminate.
  - inversion Hok as [|? ? Hc Hrest]; subst. cbn [fst] in Hc.
    apply Z.eqb_neq in Hc. cbn [app getopt_loop]. rewrite Hc. unfold bind.
    destruct (option_turn P (SendMode.iface_mode W) c o m) as [[|] m1 | s m1];
      try discriminate.
    apply IH. exact Hrest.
Qed.

Lemma option_events_only tr :
  forallb option_event tr = true ->
  (forall conf e, ~ In (EvHybridInit conf e) tr) /\
  (forall device speed, ~ In (EvSerialInit device speed) tr) /\
  ~ In EvGpioInit tr /\ ~ In EvModeInit tr.
Proof.
  intro H. rewrite forallb_forall in H.
  repeat split; repeat intro;
    match goal with Hin : In _ _ |- _ => apply H in Hin; discriminate Hin end.
Qed.

(** C8, as the code has it.  A reset option whose argument is refused ends
    the run before anything is initialised: the trace has only the events of
    the option loop and of the exit, so neither the UART, nor the GPIO, nor
    the mode, nor the driver is initialised.  When the options before it
    let the loop go on, the process exits there with a failure and one of
    the two diagnostics of the reset option.  The options before it are
    values that getopt returned, so none of them is the end marker -1. *)
Theorem invalid_reset_gpio_is_fatal P W opts1 optarg opts2 args :
  invalid_reset P optarg = true ->
  Forall (fun o => fst o <> -1) opts1 ->
  let r := run P W (opts1 ++ (OPT_RESET, optarg) :: opts2) args in
  forallb option_event (trace_of r) = true /\
  (forall conf e, ~ In (EvHybridInit conf e) (trace_of r)) /\
  (forall device speed, ~ In (EvSerialInit device speed) (trace_of r)) /\
  (forall m1,
     getopt_loop P (SendMode.iface_mode W) opts1 (boot P) = Running Next m1 ->
     status_of r = Some EXIT_FAILURE /\
     exists msg,
       (msg = "cannot parse RESET GPIO"%string \/
        msg = "invalid RESET GPIO number"%string) /\
       trace_of r = m_trace m1 ++ [EvModeParseOption OPT_RESET 0;
                                   EvSwitch OPT_RESET;
                                   EvErr msg; EvExit EXIT_FAILURE]).
Proof.
  intros Hinv Hok. cbv zeta.
  assert (Hev : forallb option_event
                  (trace_of (run P W (opts1 ++ (OPT_RESET, optarg) :: opts2) args))
                = true).
  { unfold run, main. unfold bind at 1.
    pose proof (loop_facts P W (opts1 ++ (OPT_RESET, optarg) :: opts2))
      as (Hpre & _).
    pose proof (getopt_loop_stops_at_invalid_reset P W optarg opts1 opts2
                  Hinv Hok (boot P)) as Hstop.
    destruct (getopt_loop P (SendMode.iface_mode W)
                (opts1 ++ (OPT_RESET, optarg) :: opts2) (boot P))
      as [[|] m | s m].
    - exfalso. exact (Hstop m eq_refl).
    - run_send. norm_trace. unfold trace_of, machine_of in Hpre.
      rewrite forallb_app, Hpre. reflexivity.
    - exact Hpre. }
  split; [exact Hev|].
  destruct (option_events_only _ Hev) as (Hinit & Hserial & _).
  split; [exact Hinit|]. split; [exact Hserial|].
  intros m1 Hloop.
  destruct (reset_turn_fatal P W optarg m1 Hinv) as (msg & m' & Hmsg & Heq & Htr).
  assert (Hrun : run P W (opts1 ++ (OPT_RESET, optarg) :: opts2) args
                 = Exited EXIT_FAILURE m').
  { unfold run, main. unfold bind at 1.
    rewrite (getopt_loop_app P _ opts1 _ (boot P) m1 Hok Hloop).
    cbn [getopt_loop]. change (OPT_RESET =? -1) with false. cbv iota.
    unfold bind. rewrite Heq. reflexivity. }
  rewrite Hrun. split; [reflexivity|].
  exists msg. split; [exact Hmsg | exact Htr].
Qed.

Lemma invalid_reset_gpio_is_fatal_witness :
  let r := run Sample.platform (Sample.world (fun _ => true))
               [(chr "v", ""%string); (OPT_RESET, "99"%string)] Sample.args_ok in
  invalid_reset Sample.platform "99" = true /\
  status_of r = Some EXIT_FAILURE.
Proof.
  cbv zeta. split; [reflexivity|].
  refine (proj1 (proj2 (proj2 (proj2
    (invalid_reset_gpio_is_fatal Sample.platform (Sample.world (fun _ => true))
       [(chr "v", ""%string)] "99" [] Sample.args_ok eq_refl _))) _ eq_refl)).
  repeat constructor. discriminate.
Defined.

(** C8 as it is stated fails: after the version option the run ends with
    success and without a diagnostic, whatever the reset option that
    follows. *)
Lemma invalid_reset_after_version_exits_with_success :
  let r := run Sample.platform (Sample.world (fun _ => true))
               [(chr "V", ""%string); (OPT_RESET, "99"%string)] Sample.args_ok in
  invalid_reset Sample.platform "99" = true /\
  status_of r = Some EXIT_SUCCESS /\
  forall msg, ~ In (EvErr msg) (trace_of r).
Proof.
  cbv zeta. split; [reflexivity|]. split; [reflexivity|].
  intros msg H. vm_compute in H.
  repeat (destruct H as [H | H]; [discriminate H|]). exact H.
Qed.

(** ** The context and the defaults *)

Lemma getopt_loop_any_world P W1 W2 opts : forall m,
  getopt_loop P (SendMode.iface_mode W1) opts m
  = getopt_loop P (SendMode.iface_mode W2) opts m.
Proof.
  induction opts as [|[c optarg] rest IH]; intro m; cbn [getopt_loop];
    [reflexivity|].
  destruct (c =? -1); [reflexivity|].
  unfold bind.
  change (option_turn P (SendMode.iface_mode W1) c optarg m)
    with (option_turn P (SendMode.iface_mode W2) c optarg m).
  destruct (option_turn P (SendMode.iface_mode W2) c optarg m) as [[|] m1 | s m1];
    [apply IH | reflexivity | reflexivity].
Qed.

Ltac keep_ctx W :=
  unfold preserves_ctx; intro;
  repeat (run_send; norm_trace; name_answers W; try break_if; zero_answers);
  norm_trace; reflexivity.

Lemma initialize_driver_keeps_ctx M ctx device speed :
  preserves_ctx (@initialize_driver M ctx device speed).
Proof. unfold preserves_ctx; intro. repeat (run_proc; try break_if); reflexivity. Qed.

Lemma start_io_threads_keeps_ctx W ctx hybrid :
  preserves_ctx (start_io_threads W (SendMode.iface_mode W) ctx hybrid).
Proof. keep_ctx W. Qed.

(** C9.  The context that the option loop leaves is the context of the whole
    run: it depends on the options only, not on the answers of the world,
    and no operation after the loop changes it, neither the initialisation
    of the serial line and of the driver, nor the init, the start and the
    destroy of the mode, nor the two tasks. *)
Theorem context_immutable_after_setup P W opts args :
  let parsed := machine_of (getopt_loop P (SendMode.iface_mode W) opts (boot P)) in
  m_ctx (machine_of (run P W opts args)) = m_ctx parsed /\
  (forall W' args',
     m_ctx (machine_of (run P W' opts args')) = m_ctx parsed) /\
  (forall ctx device speed,
     preserves_ctx (@initialize_driver SendMode.statics ctx device speed)) /\
  (forall ctx,
     preserves_ctx (@modify SendMode.statics (with_hybrid (SendMode.init ctx)))) /\
  preserves_ctx (@hybrid_init W SendMode.statics) /\
  (forall self, preserves_ctx (@thread_block_signals W SendMode.statics self)) /\
  (forall ctx hybrid,
     preserves_ctx (start_io_threads W (SendMode.iface_mode W) ctx hybrid)) /\
  (forall p, preserves_ctx (@input_thread_func W SendMode.statics p)) /\
  (forall ctx hybrid,
     preserves_ctx (output_thread_func
                      {| io_mode := SendMode.iface_mode W; io_ctx := ctx;
                         io_config := hybrid |})) /\
  (forall ctx, preserves_ctx (SendMode.start W ctx)) /\
  (forall ctx, preserves_ctx (SendMode.destroy ctx)).
Proof.
  cbv zeta. split; [|split].
  - exact (rf_ctx _ _ _ (run_facts_hold P W opts args)).
  - intros W' args'.
    rewrite (rf_ctx _ _ _ (run_facts_hold P W' opts args')).
    rewrite (getopt_loop_any_world P W' W). reflexivity.
  - repeat split; intros;
      first [ apply initialize_driver_keeps_ctx
            | apply start_io_threads_keeps_ctx
            | keep_ctx W ].
Qed.

Section Defaults.

Variable P : platform.
Context {M : Type}.
Variable mode : @iface_mode M.

Lemma common_option_keeps c optarg m :
  keeps_settings c m (common_option P mode c optarg m).
Proof.
  unfold common_option, keeps_settings.
  repeat (run_proc; try break_if); norm_trace;
    repeat match goal with
           | H : (_ =? _) = true |- _ => apply Z.eqb_eq in H
           end;
    repeat split; intros; try reflexivity; congruence.
Qed.

Lemma option_turn_keeps c optarg m :
  keeps_settings c m (option_turn P mode c optarg m).
Proof.
  unfold option_turn, mode_parse_option. run_proc.
  destruct (parse_option mode (m_ctx m) c optarg (m_mode m)) as [r s].
  destruct (negb (r =? 0)).
  - unfold keeps_settings; norm_trace; auto.
  - apply (common_option_keeps c optarg
             (record (EvModeParseOption c r) (with_mode s m))).
Qed.

Lemma getopt_loop_keeps opts : forall m,
  let r := getopt_loop P mode opts m in
  (absent (chr "r") opts = true ->
   retrans (m_hybrid (machine_of r)) = retrans (m_hybrid m)) /\
  (absent (chr "t") opts = true ->
   timeout (m_hybrid (machine_of r)) = timeout (m_hybrid m)) /\
  (absent (chr "a") opts = true -> absent (chr "i") opts = true ->
   flags (m_hybrid (machine_of r)) = flags (m_hybrid m)) /\
  (absent (chr "d") opts = true ->
   dst_mac (m_ctx (machine_of r)) = dst_mac (m_ctx m)).
Proof.
  unfold absent.
  induction opts as [|[c optarg] rest IH]; intro m; cbn [getopt_loop].
  - cbv zeta. unfold ret. cbn. auto.
  - cbv zeta. destruct (c =? -1); [unfold ret; cbn; auto|].
    unfold bind.
    pose proof (option_turn_keeps c optarg m) as (Hr & Ht & Hf & Hd).
    assert (Hne : forall x, negb (c =? x) = true -> c <> x).
    { intros x H. apply negb_true_iff, Z.eqb_neq in H. exact H. }
    cbn [forallb fst].
    destruct (option_turn P mode c optarg m) as [[|] m1 | s m1].
    + specialize (IH m1). cbv zeta in IH. destruct IH as (Ir & It & If & Id).
      cbn [machine_of] in Hr, Ht, Hf, Hd.
      repeat split; intros;
        repeat match goal with
               | H : _ && _ = true |- _ => apply andb_true_iff in H as [? ?]
               end.
      * rewrite Ir, Hr; auto.
      * rewrite It, Ht; auto.
      * rewrite If, Hf; auto.
      * rewrite Id, Hd; auto.
    + repeat split; intros;
        repeat match goal with
               | H : _ && _ = true |- _ => apply andb_true_iff in H as [? ?]
               end; auto.
    + repeat split; intros;
        repeat match goal with
               | H : _ && _ = true |- _ => apply andb_true_iff in H as [? ?]
               end; auto.
Qed.

End Defaults.

(** C10.  The settings that the options do not give keep the values of the
    initializers of [main]: five retransmissions, an acknowledgment timeout
    of 1000000 microseconds, no flag, and the broadcast address 0xffff as
    destination; the driver is initialised with that configuration.  The
    help of the program announces other defaults: a timeout of 4 seconds
    and 3 retransmissions. *)
Theorem default_driver_configuration P W opts args :
  let r := run P W opts args in
  let h := m_hybrid (machine_of r) in
  (absent (chr "r") opts = true -> retrans h = 5) /\
  (absent (chr "t") opts = true -> timeout h = 1000000) /\
  (absent (chr "a") opts = true -> absent (chr "i") opts = true -> flags h = 0) /\
  (absent (chr "d") opts = true -> dst_mac (m_ctx (machine_of r)) = 0xffff) /\
  (forall conf e, In (EvHybridInit conf e) (trace_of r) -> conf = h) /\
  In {| name_short := chr "t"; name_long := "timeout";
        help := "ACK timeout in microseconds (default 4s)" |}
     (common_messages P) /\
  In {| name_short := chr "r"; name_long := "retransmissions";
        help := "Maximum number of retransmissions (default 3)" |}
     (common_messages P).
Proof.
  cbv zeta.
  pose proof (run_facts_hold P W opts args) as F.
  pose proof (getopt_loop_keeps P (SendMode.iface_mode W) opts (boot P))
    as (Hr & Ht & Hf & Hd).
  rewrite (rf_retrans _ _ _ F), (rf_timeout _ _ _ F), (rf_flags _ _ _ F),
    (rf_ctx _ _ _ F).
  split; [intro H; rewrite (Hr H); reflexivity|].
  split; [intro H; rewrite (Ht H); reflexivity|].
  split; [intros Ha Hi; rewrite (Hf Ha Hi); reflexivity|].
  split; [intro H; rewrite (Hd H); reflexivity|].
  split.
  { intros conf e Hin. pose proof (rf_inits _ _ _ F) as Hall.
    rewrite Forall_forall in Hall. exact (Hall _ Hin). }
  split; unfold common_messages; apply in_or_app; right; apply in_or_app;
    right; cbn; tauto.
Qed.

(** The command line without options, on the sample platform. *)
Lemma default_driver_configuration_witness :
  let r := run Sample.platform (Sample.world (fun _ => true)) [] Sample.args_ok in
  let h := m_hybrid (machine_of r) in
  retrans h = 5 /\ timeout h = 1000000 /\ flags h = 0 /\
  dst_mac (m_ctx (machine_of r)) = 0xffff.
Proof.
  cbv zeta.
  destruct (default_driver_configuration Sample.platform
              (Sample.world (fun _ => true)) [] Sample.args_ok)
    as (Hr & Ht & Hf & Hd & _).
  split; [apply Hr; reflexivity|].
  split; [apply Ht; reflexivity|].
  split; [apply Hf; reflexivity | apply Hd; reflexivity].
Defined.

(** * More of main.c and send-mode.c *)

(** ** The turns of the option loop *)

Section Turns.

Variable P : platform.
Context {M : Type}.
Variable mode : @iface_mode M.

Lemma option_turn_cases c optarg m :
  let answer := parse_option mode (m_ctx m) c optarg (m_mode m) in
  let asked := record (EvModeParseOption c (fst answer))
                      (with_mode (snd answer) m) in
  option_turn P mode c optarg m
  = if negb (fst answer =? 0) then Running Next asked
    else common_option P mode c optarg asked.
Proof.
  cbv zeta. unfold option_turn, mode_parse_option, bind, ret.
  destruct (parse_option mode (m_ctx m) c optarg (m_mode m)) as [r s].
  cbn [fst snd]. destruct (negb (r =? 0)); reflexivity.
Qed.

(** A property of the machine that every turn that goes on keeps is kept by
    the loop. *)
Lemma getopt_loop_running (Inv : @machine M -> Prop) :
  (forall c optarg m ctl m',
     Inv m -> option_turn P mode c optarg m = Running ctl m' -> Inv m') ->
  forall opts m ctl m',
    Inv m -> getopt_loop P mode opts m = Running ctl m' -> Inv m'.
Proof.
  intros Hturn. induction opts as [|[c optarg] rest IH]; intros m ctl m' Hm Hloop.
  - cbn in Hloop. injection Hloop as _ <-. exact Hm.
  - cbn [getopt_loop] in Hloop. destruct (c =? -1).
    + injection Hloop as _ <-. exact Hm.
    + unfold bind in Hloop.
      destruct (option_turn P mode c optarg m) as [[|] m1 | s m1] eqn:Ht;
        try discriminate Hloop.
      * exact (IH m1 ctl m' (Hturn _ _ _ _ _ Hm Ht) Hloop).
      * injection Hloop as _ <-. exact (Hturn _ _ _ _ _ Hm Ht).
Qed.

Lemma land_lor_same f x mask :
  Z.land f mask = f -> Z.land x mask = x ->
  Z.land (Z.lor f x) mask = Z.lor f x.
Proof.
  intros Hf Hx. rewrite Z.land_lor_distr_l, Hf, Hx. reflexivity.
Qed.

Lemma land_lor_l a b : Z.land a (Z.lor a b) = a.
Proof.
  apply Z.bits_inj'. intros n Hn.
  rewrite Z.land_spec, Z.lor_spec. destruct (Z.testbit a n); reflexivity.
Qed.

Lemma land_lor_r a b : Z.land b (Z.lor a b) = b.
Proof. rewrite Z.lor_comm. apply land_lor_l. Qed.

Lemma common_option_settled c optarg m ctl m' :
  settled P m ->
  common_option P mode c optarg m = Running ctl m' -> settled P m'.
Proof.
  unfold settled, common_option.
  intros (Hr & Hg & Hd & Hv & Hf & Ht & Hc & Hm).
  repeat (run_proc; try break_if); norm_trace; intro Heq;
    try discriminate Heq; injection Heq as _ <-; norm_trace;
    cbn [gpio_reset set_gpio_reset verbose set_verbose dst_mac set_dst_mac
         retrans set_retrans timeout set_timeout flags set_flags
         platform_table callbacks mac_address uart_send uart_read
         set_uart_speed start_timer stop_timer wait_timer htons ntohs htonl
         ntohl usleep recv_frame bandplan pan_id ext_address data] in *;
    repeat split; try assumption; try tauto; try lia.
  - right. apply Z.eqb_neq. assumption.
  - apply land_lor_same; [assumption | apply land_lor_l].
  - apply land_lor_same; [assumption | apply land_lor_r].
  - apply Z.mod_pos_bound. reflexivity.
  - apply Z.mod_pos_bound. reflexivity.
Qed.

Lemma option_turn_settled c optarg m ctl m' :
  settled P m ->
  option_turn P mode c optarg m = Running ctl m' -> settled P m'.
Proof.
  intro Hm. rewrite option_turn_cases.
  destruct (negb (fst (parse_option mode (m_ctx m) c optarg (m_mode m)) =? 0)).
  - intro Heq. injection Heq as _ <-. exact Hm.
  - apply common_option_settled. exact Hm.
Qed.

Lemma getopt_loop_settled opts m ctl m' :
  settled P m -> getopt_loop P mode opts m = Running ctl m' -> settled P m'.
Proof. apply (getopt_loop_running (settled P)), option_turn_settled. Qed.

Lemma initial_machine_settled (statics : M) : settled P (initial_machine P statics).
Proof.
  unfold settled. cbn. repeat split; try lia; reflexivity.
Qed.

Lemma common_option_shape c optarg m :
  loop_shape m (common_option P mode c optarg m).
Proof.
  unfold common_option, loop_shape.
  repeat (run_proc; try break_if); norm_trace;
    first [ eexists; split; reflexivity
          | split; [reflexivity|]; eexists [_], _; split; reflexivity ].
Qed.

Lemma option_turn_shape c optarg m :
  loop_shape m (option_turn P mode c optarg m).
Proof.
  rewrite option_turn_cases. cbv zeta.
  set (a := parse_option mode (m_ctx m) c optarg (m_mode m)).
  destruct (negb (fst a =? 0)).
  - exists [EvModeParseOption c (fst a)]. split; reflexivity.
  - pose proof (common_option_shape c optarg
                  (record (EvModeParseOption c (fst a)) (with_mode (snd a) m)))
      as H.
    unfold loop_shape in *.
    destruct (common_option P mode c optarg _) as [ctl m1 | s m1].
    + destruct H as (tl & Ht & Hall).
      exists (EvModeParseOption c (fst a) :: tl). split; [|exact Hall].
      rewrite Ht. cbn. rewrite <- app_assoc. reflexivity.
    + destruct H as (Hs & tl & msg & Ht & Hall). split; [exact Hs|].
      exists (EvModeParseOption c (fst a) :: tl), msg. split; [|exact Hall].
      rewrite Ht. cbn. rewrite <- app_assoc. reflexivity.
Qed.

Lemma getopt_loop_shape opts : forall m,
  loop_shape m (getopt_loop P mode opts m).
Proof.
  induction opts as [|[c optarg] rest IH]; intro m; cbn [getopt_loop].
  - exists []. split; [symmetry; apply app_nil_r | reflexivity].
  - destruct (c =? -1).
    + exists []. split; [symmetry; apply app_nil_r | reflexivity].
    + unfold bind. pose proof (option_turn_shape c optarg m) as H.
      destruct (option_turn P mode c optarg m) as [[|] m1 | s m1].
      * destruct H as (tl1 & Ht1 & Hall1). specialize (IH m1).
        unfold loop_shape in *.
        destruct (getopt_loop P mode rest m1) as [ctl m2 | s m2].
        -- destruct IH as (tl2 & Ht2 & Hall2). exists (tl1 ++ tl2).
           rewrite Ht2, Ht1, app_assoc, forallb_app, Hall1, Hall2. auto.
        -- destruct IH as (Hs & tl2 & msg & Ht2 & Hall2). split; [exact Hs|].
           exists (tl1 ++ tl2), msg.
           rewrite Ht2, Ht1, <- !app_assoc, forallb_app, Hall1, Hall2. auto.
      * exact H.
      * exact H.
Qed.

(** A turn that goes on to the next one leaves the exit status as it was,
    and so does the loop when it ends without a jump. *)
Lemma common_option_next_status c optarg m m' :
  common_option P mode c optarg m = Running Next m' ->
  m_exit_status m' = m_exit_status m.
Proof.
  unfold common_option.
  repeat (run_proc; try break_if); norm_trace; intro Heq;
    try discriminate Heq; injection Heq as <-; reflexivity.
Qed.

Lemma getopt_loop_next_status opts : forall m m',
  getopt_loop P mode opts m = Running Next m' ->
  m_exit_status m' = m_exit_status m.
Proof.
  induction opts as [|[c optarg] rest IH]; intros m m' Hloop.
  - cbn in Hloop. injection Hloop as <-. reflexivity.
  - cbn [getopt_loop] in Hloop. destruct (c =? -1).
    + injection Hloop as <-. reflexivity.
    + unfold bind in Hloop. rewrite option_turn_cases in Hloop. cbv zeta in Hloop.
      destruct (negb (fst (parse_option mode (m_ctx m) c optarg (m_mode m)) =? 0)).
      * rewrite (IH _ _ Hloop). reflexivity.
      * destruct (common_option P mode c optarg _) as [[|] m1 | s m1] eqn:Hc;
          try discriminate Hloop.
        rewrite (IH _ _ Hloop), (common_option_next_status _ _ _ _ Hc).
        reflexivity.
Qed.

End Turns.

(** ** Runs that end in the option loop *)

Lemma run_exits_at P W opts1 c optarg opts2 args m1 s m2 :
  Forall (fun o => fst o <> -1) opts1 -> c <> -1 ->
  getopt_loop P (SendMode.iface_mode W) opts1 (boot P) = Running Next m1 ->
  option_turn P (SendMode.iface_mode W) c optarg m1 = Exited s m2 ->
  run P W (opts1 ++ (c, optarg) :: opts2) args = Exited s m2.
Proof.
  intros Hok Hc Hloop Hturn. unfold run, main. unfold bind at 1.
  rewrite (getopt_loop_app P _ opts1 _ (boot P) m1 Hok Hloop).
  cbn [getopt_loop]. apply Z.eqb_neq in Hc. rewrite Hc.
  unfold bind. rewrite Hturn. reflexivity.
Qed.

Lemma run_jumps_at P W opts1 c optarg opts2 args m1 m2 :
  Forall (fun o => fst o <> -1) opts1 -> c <> -1 ->
  getopt_loop P (SendMode.iface_mode W) opts1 (boot P) = Running Next m1 ->
  option_turn P (SendMode.iface_mode W) c optarg m1 = Running GotoEXIT m2 ->
  run P W (opts1 ++ (c, optarg) :: opts2) args
  = Exited (m_exit_status m2) (record (EvExit (m_exit_status m2)) m2).
Proof.
  intros Hok Hc Hloop Hturn. unfold run, main. unfold bind at 1.
  rewrite (getopt_loop_app P _ opts1 _ (boot P) m1 Hok Hloop).
  cbn [getopt_loop]. apply Z.eqb_neq in Hc. rewrite Hc.
  unfold bind. rewrite Hturn. reflexivity.
Qed.

Lemma boot_next_status P W opts m :
  getopt_loop P (SendMode.iface_mode W) opts (boot P) = Running Next m ->
  m_exit_status m = EXIT_FAILURE.
Proof. intro H. rewrite (getopt_loop_next_status P _ _ _ _ H). reflexivity. Qed.

(** The comparisons of two known option values. *)
Ltac eval_eqb :=
  repeat match goal with
         | |- context [?a =? ?b] =>
             let v := eval vm_compute in (a =? b) in
             lazymatch v with
             | true => change (a =? b) with true
             | false => change (a =? b) with false
             end
         end;
  cbv iota.

(** The turn of the send mode for a value that is not one of its letters. *)
Lemma send_mode_passes P W c optarg (m : @machine SendMode.statics) :
  c <> chr "T" -> c <> chr "m" ->
  option_turn P (SendMode.iface_mode W) c optarg m
  = common_option P (SendMode.iface_mode W) c optarg
      (record (EvModeParseOption c 0) m).
Proof.
  intros HT Hm. rewrite option_turn_cases. cbv zeta.
  cbn [parse_option SendMode.iface_mode]. unfold SendMode.parse_option.
  apply Z.eqb_neq in HT, Hm. rewrite HT, Hm. cbn [fst snd negb Z.eqb].
  destruct m; reflexivity.
Qed.

(** X1.  The help and the version options end the run with success as soon
    as the loop reaches them: the help or the version is printed, nothing is
    initialised and the options after them are not looked at. *)
Theorem help_and_version_exit_with_success P W opts1 optarg opts2 args m1 :
  Forall (fun o => fst o <> -1) opts1 ->
  getopt_loop P (SendMode.iface_mode W) opts1 (boot P) = Running Next m1 ->
  (let r := run P W (opts1 ++ (chr "h", optarg) :: opts2) args in
   status_of r = Some EXIT_SUCCESS /\
   trace_of r = m_trace m1 ++
     [EvModeParseOption (chr "h") 0; EvSwitch (chr "h");
      EvHelp (common_messages P); EvHelpExtra "send" SendMode.send_messages;
      EvExit EXIT_SUCCESS]) /\
  (let r := run P W (opts1 ++ (chr "V", optarg) :: opts2) args in
   status_of r = Some EXIT_SUCCESS /\
   trace_of r = m_trace m1 ++
     [EvModeParseOption (chr "V") 0; EvSwitch (chr "V"); EvVersion;
      EvExit EXIT_SUCCESS]).
Proof.
  intros Hok Hloop.
  split; cbv zeta;
    (erewrite run_jumps_at;
     [ | exact Hok | discriminate | exact Hloop
       | rewrite send_mode_passes by discriminate;
         unfold common_option; run_send; eval_eqb;
         rewrite ?andb_false_r; cbv iota; reflexivity ]);
    norm_trace; split; reflexivity.
Qed.

Lemma help_and_version_exit_with_success_witness :
  let r := run Sample.platform (Sample.world (fun _ => true))
               ([(chr "a", ""%string)] ++ (chr "h", ""%string) :: [(chr "r", "0"%string)])
               Sample.args_ok in
  status_of r = Some EXIT_SUCCESS.
Proof.
  cbv zeta.
  refine (proj1 (proj1 (help_and_version_exit_with_success Sample.platform
            (Sample.world (fun _ => true)) [(chr "a", ""%string)] ""
            [(chr "r", "0"%string)] Sample.args_ok _ _ _))).
  - repeat constructor. discriminate.
  - reflexivity.
Defined.

(** X2.  The long options irq and cts are in the table of the common
    options, but the switch has no case for their values: when the loop
    reaches one of them the help is printed and the process exits with a
    failure, without anything being initialised. *)
Theorem irq_and_cts_options_are_refused P W opts1 c optarg opts2 args m1 :
  c = OPT_IRQ \/ c = OPT_CTS ->
  Forall (fun o => fst o <> -1) opts1 ->
  getopt_loop P (SendMode.iface_mode W) opts1 (boot P) = Running Next m1 ->
  let r := run P W (opts1 ++ (c, optarg) :: opts2) args in
  (exists o, In o (common_opts P) /\ lo_val o = c) /\
  status_of r = Some EXIT_FAILURE /\
  trace_of r = m_trace m1 ++
    [EvModeParseOption c 0; EvSwitch c;
     EvHelp (common_messages P); EvHelpExtra "send" SendMode.send_messages;
     EvExit EXIT_FAILURE].
Proof.
  intros Hc Hok Hloop. cbv zeta. split.
  { unfold common_opts.
    destruct Hc as [-> | ->];
      [ exists {| lo_name := "irq"; lo_has_arg := required_argument;
                  lo_val := OPT_IRQ |}
      | exists {| lo_name := "cts"; lo_has_arg := required_argument;
                  lo_val := OPT_CTS |} ];
      (split; [ apply in_or_app; right; apply in_or_app; right; cbn; tauto
              | reflexivity ]). }
  pose proof (boot_next_status P W opts1 m1 Hloop) as Hst.
  destruct Hc as [-> | ->];
    (erewrite run_jumps_at;
     [ | exact Hok | discriminate | exact Hloop
       | rewrite send_mode_passes by discriminate;
         unfold common_option; run_send; eval_eqb;
         rewrite ?andb_false_r; cbv iota; reflexivity ]);
    norm_trace; rewrite Hst; split; reflexivity.
Qed.

Lemma irq_and_cts_options_are_refused_witness :
  let r := run Sample.platform (Sample.world (fun _ => true))
               ([] ++ (OPT_IRQ, "17"%string) :: []) Sample.args_ok in
  status_of r = Some EXIT_FAILURE.
Proof.
  cbv zeta.
  refine (proj1 (proj2 (irq_and_cts_options_are_refused Sample.platform
            (Sample.world (fun _ => true)) [] OPT_IRQ "17" [] Sample.args_ok _
            (or_introl eq_refl) _ _))).
  - constructor.
  - reflexivity.
Defined.

(** X3.  A retransmission count that does not parse, or that is less than
    one, is fatal where the loop reaches it: the process exits with a
    failure and the diagnostic of the case, without anything being
    initialised. *)
Theorem bad_retransmissions_are_fatal P W opts1 optarg opts2 args m1 :
  snd (xatou P optarg) <> 0 \/ fst (xatou P optarg) < 1 ->
  Forall (fun o => fst o <> -1) opts1 ->
  getopt_loop P (SendMode.iface_mode W) opts1 (boot P) = Running Next m1 ->
  let r := run P W (opts1 ++ (chr "r", optarg) :: opts2) args in
  status_of r = Some EXIT_FAILURE /\
  trace_of r = m_trace m1 ++
    [EvModeParseOption (chr "r") 0; EvSwitch (chr "r");
     EvErr (if snd (xatou P optarg) =? 0
            then "invalid number of retransmissions"
            else "cannot parse retransmissions value");
     EvExit EXIT_FAILURE].
Proof.
  intros Hbad Hok Hloop. cbv zeta.
  destruct (xatou P optarg) as [v err] eqn:Hx. cbn [fst snd] in *.
  assert (Hcase : (err =? 0) = false \/ ((err =? 0) = true /\ (v <? 1) = true)).
  { destruct (err =? 0) eqn:Herr; [right | left; reflexivity].
    apply Z.eqb_eq in Herr. destruct Hbad as [Hbad | Hbad]; [contradiction|].
    apply Z.ltb_lt in Hbad. auto. }
  destruct Hcase as [He | [He Hv]];
    (erewrite run_exits_at;
     [ | exact Hok | discriminate | exact Hloop
       | rewrite send_mode_passes by discriminate;
         unfold common_option; run_send; eval_eqb; rewrite Hx; run_send;
         rewrite He; cbn [negb]; cbv iota; rewrite ?Hv; reflexivity ]);
    norm_trace; rewrite He; split; reflexivity.
Qed.

Lemma bad_retransmissions_are_fatal_witness :
  let r := run Sample.platform (Sample.world (fun _ => true))
               ([(chr "a", ""%string)] ++ (chr "r", "0"%string) :: [])
               Sample.args_ok in
  fst (xatou Sample.platform "0") < 1 /\ status_of r = Some EXIT_FAILURE.
Proof.
  cbv zeta. split; [reflexivity|].
  refine (proj1 (bad_retransmissions_are_fatal Sample.platform
            (Sample.world (fun _ => true)) [(chr "a", ""%string)] "0" []
            Sample.args_ok _ (or_intror eq_refl) _ _)).
  - repeat constructor. discriminate.
  - reflexivity.
Defined.

(** X4.  A timeout that does not parse is fatal where the loop reaches it.
    A timeout that parses is taken as it is, zero included: the turn goes on
    with the value in the configuration and nothing else changed. *)
Theorem timeout_option_checks_only_parsing P W optarg (m : @machine SendMode.statics) :
  let r := option_turn P (SendMode.iface_mode W) (chr "t") optarg m in
  (snd (xatou P optarg) <> 0 ->
   status_of r = Some EXIT_FAILURE /\
   trace_of r = m_trace m ++
     [EvModeParseOption (chr "t") 0; EvSwitch (chr "t");
      EvErr "cannot parse timeout value"; EvExit EXIT_FAILURE]) /\
  (snd (xatou P optarg) = 0 ->
   r = Running Next
         (with_hybrid (set_timeout (fst (xatou P optarg)))
            (record (EvSwitch (chr "t"))
               (record (EvModeParseOption (chr "t") 0) m)))).
Proof.
  cbv zeta. rewrite send_mode_passes by discriminate.
  unfold common_option. run_send. eval_eqb.
  destruct (xatou P optarg) as [v err]. cbn [fst snd]. run_send. split.
  - intro Herr. apply Z.eqb_neq in Herr. rewrite Herr. cbn [negb]. cbv iota.
    norm_trace. split; reflexivity.
  - intros ->. reflexivity.
Qed.

Lemma timeout_option_checks_only_parsing_witness :
  let r := option_turn Sample.platform
             (SendMode.iface_mode (Sample.world (fun _ => true)))
             (chr "t") "0" (boot Sample.platform) in
  snd (xatou Sample.platform "0") = 0 /\
  status_of r = None /\ timeout (m_hybrid (machine_of r)) = 0.
Proof.
  cbv zeta. split; [reflexivity|].
  rewrite (proj2 (timeout_option_checks_only_parsing Sample.platform
             (Sample.world (fun _ => true)) "0" (boot Sample.platform)) eq_refl).
  split; reflexivity.
Defined.

(** X5.  When the option loop ends without a jump and the command line does
    not have exactly two arguments left, the help is printed and the
    process exits with a failure, whatever the options were; nothing is
    initialised. *)
Theorem wrong_argument_count_is_refused P W opts args m1 :
  List.length args <> 2%nat ->
  getopt_loop P (SendMode.iface_mode W) opts (boot P) = Running Next m1 ->
  let r := run P W opts args in
  status_of r = Some EXIT_FAILURE /\
  trace_of r = m_trace m1 ++
    [EvHelp (common_messages P); EvHelpExtra "send" SendMode.send_messages;
     EvExit EXIT_FAILURE].
Proof.
  intros Hlen Hloop. cbv zeta.
  pose proof (boot_next_status P W opts m1 Hloop) as Hst.
  assert (Hrun : exists m',
    run P W opts args = Exited EXIT_FAILURE m' /\
    m_trace m' = m_trace m1 ++
      [EvHelp (common_messages P); EvHelpExtra "send" SendMode.send_messages;
       EvExit EXIT_FAILURE]).
  { unfold run, main. unfold bind at 1. rewrite Hloop.
    destruct args as [|a0 [|a1 [|a2 args]]];
      try (exfalso; apply Hlen; reflexivity);
      run_send; norm_trace; rewrite Hst; eexists;
      (split; [reflexivity | norm_trace; reflexivity]). }
  destruct Hrun as (m' & -> & Htr). split; [reflexivity | exact Htr].
Qed.

Lemma wrong_argument_count_is_refused_witness :
  let r := run Sample.platform (Sample.world (fun _ => true))
               Sample.opts_a_r3_d1234 ["0001"%string] in
  status_of r = Some EXIT_FAILURE.
Proof.
  cbv zeta.
  refine (proj1 (wrong_argument_count_is_refused Sample.platform
            (Sample.world (fun _ => true)) Sample.opts_a_r3_d1234
            ["0001"%string] _ _ _)).
  - discriminate.
  - reflexivity.
Defined.

(** ** The order of the initialisations *)

Lemma turn_event_option e : turn_event e = true -> option_event e = true.
Proof. destruct e; simpl; congruence. Qed.

Lemma turn_events_options pre :
  forallb turn_event pre = true -> forallb option_event pre = true.
Proof.
  intro H. rewrite forallb_forall in *. intros e He.
  apply turn_event_option. auto.
Qed.

Lemma turn_events_absent (q : event -> bool) pre :
  (forall e, turn_event e = true -> q e = false) ->
  forallb turn_event pre = true -> existsb q pre = false.
Proof.
  intros Hq. induction pre as [|e pre IH]; simpl; [reflexivity|].
  intro H. apply andb_true_iff in H as [He Hl].
  rewrite (Hq e He), (IH Hl). reflexivity.
Qed.

Lemma later_serial_init : later_class is_serial_init.
Proof. later_class_tac. Qed.
Lemma later_gpio_init : later_class is_gpio_init.
Proof. later_class_tac. Qed.
Lemma later_gpio_set_mode : later_class is_gpio_set_mode.
Proof. later_class_tac. Qed.
Lemma later_read_loop : later_class is_read_loop.
Proof. later_class_tac. Qed.
Lemma later_reader_block : later_class is_reader_block.
Proof. later_class_tac. Qed.
Lemma later_created t : later_class (is_created t).
Proof. later_class_tac. Qed.
Lemma later_failed_init : later_class is_failed_init.
Proof. later_class_tac. Qed.
Lemma later_summary : later_class is_summary.
Proof. later_class_tac. Qed.
Lemma later_printf : later_class is_printf.
Proof. later_class_tac. Qed.
Lemma later_print_time : later_class is_print_time.
Proof. later_class_tac. Qed.

Lemma exit_last_after_turns st pre tl :
  forallb turn_event pre = true -> tl <> [] ->
  exit_last st (pre ++ tl) = exit_last st tl.
Proof.
  intros Hpre Htl. induction pre as [|e pre IH]; [reflexivity|].
  simpl in Hpre. apply andb_true_iff in Hpre as [He Hpre].
  cbn [app exit_last]. rewrite (IH Hpre).
  destruct (pre ++ tl) eqn:E.
  - apply app_eq_nil in E. destruct E as [_ E]. contradiction.
  - destruct e; try discriminate He; reflexivity.
Qed.

Lemma fatal_ends_after_turns pre tl :
  forallb turn_event pre = true ->
  fatal_ends (pre ++ tl) = fatal_ends tl.
Proof.
  intros Hpre. induction pre as [|e pre IH]; [reflexivity|].
  simpl in Hpre. apply andb_true_iff in Hpre as [He Hpre].
  cbn [app fatal_ends]. rewrite (IH Hpre).
  destruct e; try discriminate He; reflexivity.
Qed.

Lemma sequence_after_turns st pre tl :
  forallb turn_event pre = true -> tl <> [] ->
  sequence st (pre ++ tl) = sequence st tl.
Proof.
  intros Hpre Htl. pose proof (turn_events_options _ Hpre) as Hopt.
  unfold sequence.
  rewrite (exit_last_after_turns _ _ _ Hpre Htl),
    (fatal_ends_after_turns _ _ Hpre).
  rewrite !(count_after_options _ _ _ later_serial_init Hopt).
  rewrite !(existsb_after_options _ _ _ later_gpio_init Hopt),
    !(existsb_after_options _ _ _ later_gpio_set_mode Hopt),
    !(existsb_after_options _ _ _ later_failed_init Hopt),
    !(existsb_after_options _ _ _ later_create Hopt),
    !(existsb_after_options _ _ _ later_summary Hopt),
    !(existsb_after_options _ _ _ later_printf Hopt).
  rewrite (preceded_after_options _ _ _ _ later_serial_init later_mode_init Hopt),
    (preceded_after_options _ _ _ _ later_serial_init later_gpio_init Hopt),
    (preceded_after_options _ _ _ _ later_gpio_init later_gpio_set_mode Hopt),
    (preceded_after_options _ _ _ _ later_reader_block later_read_loop Hopt),
    (preceded_after_options _ _ _ _ (later_created _) later_reader_block Hopt),
    (preceded_after_options _ _ _ _ (later_created _) later_mode_start Hopt).
  rewrite (existsb_app (is_diagnostic _)),
    (turn_events_absent (is_diagnostic _) pre); [reflexivity | | exact Hpre].
  intros e He. destruct e; try discriminate He; reflexivity.
Qed.

Lemma serial_is_options args sp e : option_event e = true -> serial_is args sp e.
Proof. intros H. destruct e; try discriminate; exact I. Qed.
Lemma gpio_is_options pin e : option_event e = true -> gpio_is pin e.
Proof. intros H. destruct e; try discriminate; exact I. Qed.
Lemma init_mac_is_options P args e : option_event e = true -> init_mac_is P args e.
Proof. intros H. destruct e; try discriminate; exact I. Qed.

Lemma loop_facts_more P W opts :
  let l := getopt_loop P (SendMode.iface_mode W) opts (boot P) in
  loop_shape (boot P) l /\
  (forall m, l = Running Next m -> m_exit_status m = EXIT_FAILURE) /\
  (m_exit_status (machine_of l) = EXIT_SUCCESS \/
   m_exit_status (machine_of l) = EXIT_FAILURE).
Proof.
  cbv zeta. split; [apply getopt_loop_shape|]. split.
  - intros m H. exact (boot_next_status P W opts m H).
  - destruct (getopt_loop_status P (SendMode.iface_mode W) opts (boot P))
      as [Hs _]. apply Hs. right. reflexivity.
Qed.

(** The cases of a run, with the trace of the option loop made explicit. *)
Ltac run_cases_more P W opts args :=
  unfold run, main; unfold bind at 1;
  let Hshape := fresh "Hshape" in
  let Hnext := fresh "Hnext" in
  let Hst := fresh "Hst" in
  pose proof (loop_facts_more P W opts) as (Hshape & Hnext & Hst);
  destruct (getopt_loop P (SendMode.iface_mode W) opts (boot P))
    as [[|] ?m | ?s ?m];
  unfold loop_shape in Hshape; cbn [machine_of] in Hst;
  [ destruct args as [|?a [|?a [|?a ?args]]] | | ];
  repeat (run_step W); norm_trace.

Ltac use_tests :=
  repeat match goal with
         | H : _ = true |- _ => rewrite H; clear H
         | H : _ = false |- _ => rewrite H; clear H
         | H : _ = true |- _ => clear H
         | H : _ = false |- _ => clear H
         end.

Ltac check_sequence Hpre :=
  rewrite (sequence_after_turns _ _ _ Hpre) by discriminate;
  unfold sequence; cbn; use_tests; reflexivity.

Ltac check_more Hpre :=
  apply Forall_after_options;
  [ first [ apply serial_is_options | apply gpio_is_options
          | apply init_mac_is_options ]
  | exact (turn_events_options _ Hpre) | ];
  repeat (constructor;
          [ first [ exact I
                  | split; [reflexivity | reflexivity]
                  | split; [reflexivity | apply Z.ltb_ge; assumption]
                  | eexists; split; reflexivity ] | ]);
  constructor.

Lemma run_more_hold P W opts args :
  run_more P args (getopt_loop P (SendMode.iface_mode W) opts (boot P))
           (run P W opts args).
Proof.
  run_cases_more P W opts args.
  all: try (assert (Hfail := Hnext _ eq_refl)); clear Hnext.
  all: lazymatch type of Hshape with
       | _ = _ /\ _ => destruct Hshape as (-> & pre & msg & Htr & Hpre)
       | _ => destruct Hshape as (pre & Htr & Hpre)
       end;
       cbn [boot initial_machine m_trace app] in Htr.
  all: constructor; norm_trace;
       cbn [m_ctx m_mode m_hybrid m_speed with_threads record with_hybrid
            with_exit_status with_engine] in *;
       rewrite ?Htr, <- ?app_assoc; cbn [app]; try reflexivity.
  all: try solve [check_more Hpre].
  all: rewrite ?(existsb_after_options _ _ _ later_serial_init (turn_events_options _ Hpre)),
         ?(existsb_after_options _ _ _ later_summary (turn_events_options _ Hpre)),
         ?(existsb_after_options _ _ _ later_send (turn_events_options _ Hpre)),
         ?(existsb_after_options _ _ _ later_print_time (turn_events_options _ Hpre)).
  all: try solve [cbn; use_tests; reflexivity].
  all: try rewrite Hfail.
  all: try solve [check_sequence Hpre].
  all: try solve [destruct Hst as [Hst | Hst]; rewrite Hst; check_sequence Hpre].
Qed.

(** A run that has an event of the later phases went through the option
    loop without a jump and had exactly two arguments. *)
Lemma later_event_reached P W opts args e :
  option_event e = false ->
  In e (trace_of (run P W opts args)) ->
  exists m source device,
    getopt_loop P (SendMode.iface_mode W) opts (boot P) = Running Next m /\
    args = [source; device] /\ settled P m.
Proof.
  intros He Hin.
  assert (Hno : forall tr, forallb option_event tr = true -> In e tr -> False).
  { intros tr Htr Hin'. rewrite forallb_forall in Htr.
    rewrite (Htr e Hin') in He. discriminate He. }
  unfold run, main in Hin. unfold bind at 1 in Hin.
  pose proof (loop_facts P W opts) as (Hpre & _).
  destruct (getopt_loop P (SendMode.iface_mode W) opts (boot P))
    as [[|] m | s m] eqn:Hloop; unfold trace_of, machine_of in Hpre.
  - destruct args as [|a0 [|a1 [|a2 args]]].
    + exfalso. revert Hin. run_send. norm_trace. apply Hno.
      rewrite forallb_app, Hpre. reflexivity.
    + exfalso. revert Hin. run_send. norm_trace. apply Hno.
      rewrite forallb_app, Hpre. reflexivity.
    + exists m, a0, a1. split; [reflexivity|]. split; [reflexivity|].
      exact (getopt_loop_settled P _ _ _ _ _
               (initial_machine_settled P SendMode.initial_statics) Hloop).
    + exfalso. revert Hin. run_send. norm_trace. apply Hno.
      rewrite forallb_app, Hpre. reflexivity.
  - exfalso. revert Hin. run_send. norm_trace. apply Hno.
    rewrite forallb_app, Hpre. reflexivity.
  - exfalso. exact (Hno _ Hpre Hin).
Qed.

Lemma Forall_at (Q : event -> Prop) tr e : Forall Q tr -> In e tr -> Q e.
Proof. intros H Hin. rewrite Forall_forall in H. auto. Qed.

(** X6.  The driver is never initialised with fewer than one
    retransmission, nor with flags other than the two of the options, and
    the address it gets is the first argument, read in base 16 and cut to 16
    bits. *)
Theorem driver_gets_a_checked_configuration P W opts args conf e :
  In (EvHybridInit conf e) (trace_of (run P W opts args)) ->
  1 <= retrans conf /\
  Z.land (flags conf) (Z.lor (G3PLC_INVALID P) (G3PLC_NOACK P)) = flags conf /\
  (exists source device,
     args = [source; device] /\
     mac_address conf = wrap_uint16 (strtol P source 16)) /\
  0 <= mac_address conf < 2 ^ 16.
Proof.
  intro Hin.
  destruct (later_event_reached P W opts args (EvHybridInit conf e) eq_refl Hin)
    as (m & source & device & Hloop & Hargs & Hset).
  pose proof (run_facts_hold P W opts args) as F.
  pose proof (run_more_hold P W opts args) as G.
  rewrite Hloop in F, G. cbn [machine_of] in F, G.
  pose proof (Forall_at _ _ _ (rf_inits _ _ _ F) Hin) as Hconf.
  pose proof (Forall_at _ _ _ (rm_mac _ _ _ _ G) Hin) as Hmac.
  cbn in Hconf, Hmac. subst conf.
  destruct Hset as (Hr & _ & _ & _ & Hf & _).
  rewrite (rf_retrans _ _ _ F), (rf_flags _ _ _ F).
  destruct Hmac as (src & Hsrc & Hmac). subst args. cbn in Hsrc.
  injection Hsrc as <-.
  repeat split; try assumption.
  - exists source, device. auto.
  - rewrite Hmac. apply Z.mod_pos_bound. reflexivity.
  - rewrite Hmac. apply Z.mod_pos_bound. reflexivity.
Qed.

Lemma driver_gets_a_checked_configuration_witness :
  exists conf e,
    In (EvHybridInit conf e)
       (trace_of (run Sample.platform (Sample.world (fun _ => true))
                      Sample.opts_a_r3_d1234 Sample.args_ok)) /\
    1 <= retrans conf.
Proof.
  assert (H : existsb is_hybrid_init
                (trace_of (run Sample.platform (Sample.world (fun _ => true))
                               Sample.opts_a_r3_d1234 Sample.args_ok)) = true)
    by reflexivity.
  apply existsb_exists in H as (ev & Hin & Hev).
  destruct ev; try discriminate Hev.
  exists conf, r. split; [exact Hin|].
  exact (proj1 (driver_gets_a_checked_configuration _ _ _ _ _ _ Hin)).
Defined.

(** X7.  No option changes the part of the configuration that the
    initializer of [main] fills: the driver is initialised with the
    functions of the platform, the band plan, the PAN id 0xAAAA, the
    extended address 0 and the address of the context as user data. *)
Theorem driver_gets_the_platform_table P W opts args conf e :
  In (EvHybridInit conf e) (trace_of (run P W opts args)) ->
  platform_table conf = platform_table (initial_hybrid P) /\
  pan_id conf = 0xAAAA /\ data conf = Some addr_of_ctx /\
  uart_send conf = Some fn_uart_send /\ uart_read conf = Some fn_uart_read /\
  recv_frame conf = Some fn_hybrid_recv_frame.
Proof.
  intro Hin.
  destruct (later_event_reached P W opts args (EvHybridInit conf e) eq_refl Hin)
    as (m & source & device & Hloop & Hargs & Hset).
  pose proof (run_facts_hold P W opts args) as F.
  pose proof (run_more_hold P W opts args) as G.
  rewrite Hloop in F, G. cbn [machine_of] in F, G.
  pose proof (Forall_at _ _ _ (rf_inits _ _ _ F) Hin) as Hconf.
  cbn in Hconf. subst conf.
  destruct Hset as (_ & _ & _ & _ & _ & Ht & _).
  pose proof (rm_table _ _ _ _ G) as Htab. cbn [machine_of] in Htab.
  rewrite Ht in Htab.
  split; [exact Htab|].
  unfold platform_table in Htab. cbn in Htab.
  injection Htab as H1 H2 H3 H4 H5 H6 H7 H8 H9 H10 H11 H12 H13 H14 H15 H16.
  auto.
Qed.

Lemma driver_gets_the_platform_table_witness :
  exists conf e,
    In (EvHybridInit conf e)
       (trace_of (run Sample.platform (Sample.world (fun _ => true))
                      Sample.opts_a_r3_d1234 Sample.args_ok)) /\
    pan_id conf = 0xAAAA.
Proof.
  assert (H : existsb is_hybrid_init
                (trace_of (run Sample.platform (Sample.world (fun _ => true))
                               Sample.opts_a_r3_d1234 Sample.args_ok)) = true)
    by reflexivity.
  apply existsb_exists in H as (ev & Hin & Hev).
  destruct ev; try discriminate Hev.
  exists conf, r. split; [exact Hin|].
  exact (proj1 (proj2 (driver_gets_the_platform_table _ _ _ _ _ _ Hin))).
Defined.

(** The parts of the sequence of a run. *)
Lemma run_sequence P W opts args :
  let r := run P W opts args in
  let st := status_of r in
  let tr := trace_of r in
  exit_last st tr = true /\
  fatal_ends tr = true /\
  (count is_serial_init tr <= 1)%nat /\
  preceded is_serial_init is_mode_init false tr = true /\
  preceded is_serial_init is_gpio_init false tr = true /\
  preceded is_gpio_init is_gpio_set_mode false tr = true /\
  existsb is_gpio_init tr = existsb is_gpio_set_mode tr /\
  preceded is_reader_block is_read_loop false tr = true /\
  preceded (is_created InputThread) is_reader_block false tr = true /\
  preceded (is_created OutputThread) is_mode_start false tr = true /\
  (existsb is_failed_init tr = true ->
   existsb is_create tr = false /\ st = Some EXIT_FAILURE /\
   existsb (is_diagnostic "cannot initialize G3-PLC") tr = true) /\
  existsb is_summary tr = existsb is_printf tr.
Proof.
  cbv zeta.
  pose proof (rm_sequence _ _ _ _ (run_more_hold P W opts args)) as D.
  unfold sequence in D.
  repeat (let H := fresh "D" in apply andb_true_iff in D as [D H]).
  repeat match goal with
         | H : (_ <=? _)%nat = true |- _ => apply Nat.leb_le in H
         | H : Bool.eqb _ _ = true |- _ => apply Bool.eqb_prop in H
         end.
  repeat split; try assumption.
  - destruct (existsb is_failed_init _); [|discriminate].
    simpl in *. apply andb_true_iff in D1 as [D1 _].
    apply andb_true_iff in D1 as [D1 _]. apply negb_true_iff. exact D1.
  - destruct (existsb is_failed_init _); [|discriminate].
    simpl in *. apply andb_true_iff in D1 as [D1 _].
    apply andb_true_iff in D1 as [_ D1].
    destruct (status_of _) as [x|]; [|discriminate D1]. simpl in D1.
    apply Z.eqb_eq in D1. subst. reflexivity.
  - destruct (existsb is_failed_init _); [|discriminate].
    simpl in *. apply andb_true_iff in D1 as [_ D1]. exact D1.
Qed.


Lemma fatal_ends_sound tr :
  fatal_ends tr = true ->
  forall l1 msg l2, tr = l1 ++ EvErr msg :: l2 -> l2 = [EvExit EXIT_FAILURE].
Proof.
  induction tr as [|x tr IH]; intros H l1 msg l2 Heq.
  - destruct l1; discriminate Heq.
  - cbn [fatal_ends] in H. apply andb_true_iff in H as [Hx Htl].
    destruct l1 as [|y l1]; simpl in Heq; injection Heq as Hy Htr.
    + subst x tr. destruct l2 as [|[] [|]]; try discriminate Hx.
      apply Z.eqb_eq in Hx. subst. reflexivity.
    + eapply IH; eauto.
Qed.


(** ** What the options leave *)

Section SendOptions.

Variable P : platform.
Variable W : world.

Let mode := SendMode.iface_mode W.

Lemma present_absent c opts : present c opts = negb (absent c opts).
Proof.
  unfold present, absent. induction opts as [|o opts IH]; [reflexivity|].
  simpl. rewrite IH. destruct (fst o =? c); reflexivity.
Qed.

Lemma option_turn_keeps_more c optarg m :
  keeps_more c m (option_turn P mode c optarg m).
Proof.
  unfold keeps_more. rewrite option_turn_cases. cbv zeta.
  cbn [parse_option mode SendMode.iface_mode]. unfold SendMode.parse_option.
  destruct (c =? chr "T") eqn:HT; [|destruct (c =? chr "m") eqn:Hm];
    cbn [fst snd negb Z.eqb].
  - apply Z.eqb_eq in HT. subst c. cbn.
    repeat split; try reflexivity. intro H. contradiction.
  - apply Z.eqb_eq in Hm. subst c. cbn.
    repeat split; try reflexivity. intro H. contradiction.
  - unfold common_option.
    repeat (run_proc; try break_if); norm_trace;
      repeat match goal with
             | H : (_ =? _) = true |- _ => apply Z.eqb_eq in H
             end;
      repeat split; intros; try reflexivity; congruence.
Qed.

Lemma getopt_loop_keeps_more opts : forall m,
  let r := getopt_loop P mode opts m in
  (absent OPT_RESET opts = true ->
   gpio_reset (m_ctx (machine_of r)) = gpio_reset (m_ctx m)) /\
  (absent (chr "v") opts = true ->
   verbose (m_ctx (machine_of r)) = verbose (m_ctx m)) /\
  (absent (chr "B") opts = true ->
   m_speed (machine_of r) = m_speed m /\
   m_speed_str (machine_of r) = m_speed_str m) /\
  (absent (chr "T") opts = true ->
   SendMode.display_time (m_mode (machine_of r))
   = SendMode.display_time (m_mode m)) /\
  (absent (chr "m") opts = true ->
   SendMode.message (m_mode (machine_of r)) = SendMode.message (m_mode m)).
Proof.
  unfold absent.
  induction opts as [|[c optarg] rest IH]; intro m; cbn [getopt_loop].
  - cbv zeta. unfold ret. cbn. auto.
  - cbv zeta. destruct (c =? -1); [unfold ret; cbn; auto|].
    unfold bind.
    pose proof (option_turn_keeps_more c optarg m) as (Hg & Hv & Hb & Ht & Hm).
    assert (Hne : forall x, negb (c =? x) = true -> c <> x).
    { intros x H. apply negb_true_iff, Z.eqb_neq in H. exact H. }
    cbn [forallb fst].
    destruct (option_turn P mode c optarg m) as [[|] m1 | s m1].
    + specialize (IH m1). cbv zeta in IH.
      destruct IH as (Ig & Iv & Ib & It & Im).
      cbn [machine_of] in Hg, Hv, Hb, Ht, Hm.
      repeat split; intros;
        repeat match goal with
               | H : _ && _ = true |- _ => apply andb_true_iff in H as [? ?]
               end.
      * rewrite Ig, Hg; auto.
      * rewrite Iv, Hv; auto.
      * rewrite (proj1 (Ib ltac:(assumption))). apply Hb; auto.
      * rewrite (proj2 (Ib ltac:(assumption))). apply Hb; auto.
      * rewrite It, Ht; auto.
      * rewrite Im, Hm; auto.
    + repeat split; intros;
        repeat match goal with
               | H : _ && _ = true |- _ => apply andb_true_iff in H as [? ?]
               end; first [apply Hg | apply Hv | apply Hb | apply Ht | apply Hm];
        auto.
    + repeat split; intros;
        repeat match goal with
               | H : _ && _ = true |- _ => apply andb_true_iff in H as [? ?]
               end; first [apply Hg | apply Hv | apply Hb | apply Ht | apply Hm];
        auto.
Qed.

(** A loop that goes through a list without a jump went through each of its
    options. *)
Lemma getopt_loop_split l1 c optarg l2 : forall m m',
  Forall (fun o => fst o <> -1) l1 -> c <> -1 ->
  getopt_loop P mode (l1 ++ (c, optarg) :: l2) m = Running Next m' ->
  exists m1 m2,
    getopt_loop P mode l1 m = Running Next m1 /\
    option_turn P mode c optarg m1 = Running Next m2 /\
    getopt_loop P mode l2 m2 = Running Next m'.
Proof.
  induction l1 as [|[c1 o1] l1 IH]; intros m m' Hok Hc Hloop.
  - cbn [app getopt_loop] in Hloop. apply Z.eqb_neq in Hc. rewrite Hc in Hloop.
    unfold bind in Hloop.
    destruct (option_turn P mode c optarg m) as [[|] m2 | s m2] eqn:Ht;
      try discriminate Hloop.
    exists m, m2. auto.
  - inversion Hok as [|? ? Hc1 Hrest]; subst. cbn [fst] in Hc1.
    cbn [app getopt_loop] in *. apply Z.eqb_neq in Hc1. rewrite Hc1 in *.
    unfold bind in *.
    destruct (option_turn P mode c1 o1 m) as [[|] mx | s mx];
      try discriminate Hloop.
    exact (IH mx m' Hrest Hc Hloop).
Qed.

Lemma present_split c opts :
  present c opts = true ->
  exists l1 optarg l2, opts = l1 ++ (c, optarg) :: l2.
Proof.
  unfold present. intro H. apply existsb_exists in H as ([c' a] & Hin & Hc).
  cbn [fst] in Hc. apply Z.eqb_eq in Hc. subst c'.
  apply in_split in Hin as (l1 & l2 & ->). eauto.
Qed.

Lemma Forall_app_l {A} (Q : A -> Prop) l1 l2 : Forall Q (l1 ++ l2) -> Forall Q l1.
Proof. intro H. apply Forall_app in H. tauto. Qed.

(** A setting that one option switches on stays on: when the loop has gone
    through the option, whatever came after it. *)
Lemma option_switches_on (c : Z) (on : @machine SendMode.statics -> Prop) opts m m' :
  c <> -1 ->
  (forall optarg m1 m2,
     option_turn P mode c optarg m1 = Running Next m2 -> on m2) ->
  (forall c' optarg m1 ctl m2,
     on m1 -> option_turn P mode c' optarg m1 = Running ctl m2 -> on m2) ->
  Forall (fun o => fst o <> -1) opts ->
  present c opts = true ->
  getopt_loop P mode opts m = Running Next m' -> on m'.
Proof.
  intros Hc Hset Hkeep Hok Hp Hloop.
  destruct (present_split _ _ Hp) as (l1 & optarg & l2 & ->).
  destruct (getopt_loop_split l1 c optarg l2 m m' (Forall_app_l _ _ _ Hok) Hc Hloop)
    as (m1 & m2 & _ & Ht & Hl2).
  exact (getopt_loop_running P mode on Hkeep l2 m2 Next m' (Hset _ _ _ Ht) Hl2).
Qed.

End SendOptions.

(** ** The signal mask, the driver and the output of the writer *)

Lemma later_ok_init : later_class is_ok_init.
Proof. later_class_tac. Qed.
Lemma later_failed_mask t : later_class (is_failed_mask t).
Proof. later_class_tac. Qed.
Lemma later_putchar : later_class is_putchar.
Proof. later_class_tac. Qed.
Lemma later_print_tx_status : later_class is_print_tx_status.
Proof. later_class_tac. Qed.

Lemma order_after_turns st pre tl :
  forallb turn_event pre = true ->
  order st (pre ++ tl) = order st tl.
Proof.
  intros Hpre. pose proof (turn_events_options _ Hpre) as Hopt.
  unfold order.
  rewrite !(count_after_options _ _ _ later_print_time Hopt),
    !(count_after_options _ _ _ later_summary Hopt).
  rewrite !(existsb_after_options _ _ _ (later_failed_mask _) Hopt),
    !(existsb_after_options _ _ _ later_create Hopt),
    !(existsb_after_options _ _ _ later_read_loop Hopt).
  rewrite (preceded_after_options _ _ _ _ later_ok_init later_create Hopt),
    (preceded_after_options _ _ _ _ later_main_block later_hybrid_init Hopt),
    (preceded_after_options _ _ _ _ later_summary later_printf Hopt),
    (preceded_after_options _ _ _ _ later_serial_init later_printf Hopt),
    (preceded_after_options _ _ _ _ later_mode_start later_send Hopt),
    (preceded_after_options _ _ _ _ later_send later_putchar Hopt),
    (preceded_after_options _ _ _ _ later_putchar later_print_time Hopt),
    (preceded_after_options _ _ _ _ later_putchar later_print_tx_status Hopt).
  rewrite (existsb_app (is_diagnostic _)),
    (turn_events_absent (is_diagnostic _) pre); [reflexivity | | exact Hpre].
  intros e He. destruct e; try discriminate He; reflexivity.
Qed.

Lemma summary_is_options P args l e :
  option_event e = true -> summary_is P args l e.
Proof. intros H. destruct e; try discriminate; exact I. Qed.
Lemma printf_is_options e : option_event e = true -> printf_is e.
Proof. intros H. destruct e; try discriminate; exact I. Qed.

Ltac check_order Hpre :=
  rewrite (order_after_turns _ _ _ Hpre);
  unfold order; cbn; use_tests; reflexivity.

Ltac check_shown Hpre :=
  apply Forall_after_options;
  [ first [ apply summary_is_options | apply printf_is_options ]
  | exact (turn_events_options _ Hpre) | ];
  repeat (constructor;
          [ first [ exact I
                  | reflexivity
                  | split; [reflexivity|]; split; [reflexivity|];
                    split; [reflexivity|]; eexists; split; reflexivity ] | ]);
  constructor.

Lemma run_order_hold P W opts args :
  run_order P args (getopt_loop P (SendMode.iface_mode W) opts (boot P))
            (run P W opts args).
Proof.
  run_cases_more P W opts args.
  all: try (assert (Hfail := Hnext _ eq_refl)); clear Hnext.
  all: lazymatch type of Hshape with
       | _ = _ /\ _ => destruct Hshape as (-> & pre & msg & Htr & Hpre)
       | _ => destruct Hshape as (pre & Htr & Hpre)
       end;
       cbn [boot initial_machine m_trace app] in Htr.
  all: constructor; norm_trace;
       cbn [m_ctx m_mode m_hybrid m_speed m_speed_str with_threads record
            with_hybrid with_exit_status with_engine machine_of] in *;
       rewrite ?Htr, <- ?app_assoc; cbn [app].
  all: try solve [check_shown Hpre].
  all: try rewrite Hfail.
  all: try solve [check_order Hpre].
  all: try solve [destruct Hst as [Hst | Hst]; rewrite Hst; check_order Hpre].
Qed.

(** The parts of the order of a run. *)
Lemma run_order_parts P W opts args :
  let r := run P W opts args in
  let st := status_of r in
  let tr := trace_of r in
  preceded is_ok_init is_create false tr = true /\
  preceded is_main_block is_hybrid_init false tr = true /\
  (existsb (is_failed_mask MainThread) tr = true -> existsb is_create tr = false) /\
  (existsb (is_failed_mask InputThread) tr = true ->
   existsb is_read_loop tr = false) /\
  (forall t, existsb (is_failed_mask t) tr = true ->
   t <> OutputThread /\ st = Some EXIT_FAILURE /\
   existsb (is_diagnostic "cannot block signals") tr = true) /\
  preceded is_summary is_printf false tr = true /\
  preceded is_serial_init is_printf false tr = true /\
  preceded is_mode_start is_send false tr = true /\
  preceded is_send is_putchar false tr = true /\
  preceded is_putchar is_print_time false tr = true /\
  preceded is_putchar is_print_tx_status false tr = true /\
  (count is_print_time tr <= 1)%nat /\
  (count is_summary tr <= 1)%nat.
Proof.
  cbv zeta.
  pose proof (ro_order _ _ _ _ (run_order_hold P W opts args)) as D.
  unfold order in D.
  repeat (let H := fresh "D" in apply andb_true_iff in D as [D H]).
  repeat match goal with
         | H : (_ <=? _)%nat = true |- _ => apply Nat.leb_le in H
         end.
  repeat split; try assumption.
  - intro H. rewrite H in *. simpl in *. apply negb_true_iff. assumption.
  - intro H. rewrite H in *. simpl in *. apply negb_true_iff. assumption.
  - intros ->. rewrite H in *. discriminate.
  - destruct t; rewrite H in *; simpl in *; rewrite ?orb_true_r in *;
      simpl in *;
      repeat match goal with
             | X : _ && _ = true |- _ => apply andb_true_iff in X as [? ?]
             end;
      try discriminate;
      match goal with
      | X : exited_with _ ?s = true |- ?s = _ =>
          destruct s; [|discriminate X]; simpl in X; apply Z.eqb_eq in X;
          subst; reflexivity
      end.
  - destruct t; rewrite H in *; simpl in *; rewrite ?orb_true_r in *;
      simpl in *;
      repeat match goal with
             | X : _ && _ = true |- _ => apply andb_true_iff in X as [? ?]
             end;
      try discriminate; assumption.
Qed.

(** ** What runs before what *)

Lemma preceded_split p q tr l1 e l2 :
  preceded p q false tr = true -> tr = l1 ++ e :: l2 -> q e = true ->
  exists a x b, l1 = a ++ x :: b /\ p x = true.
Proof.
  intros H Heq Hq.
  pose proof (preceded_sound _ _ _ _ H l1 e l2 Heq Hq) as E. simpl in E.
  apply existsb_exists in E as (x & Hin & Hx).
  apply in_split in Hin as (a & b & ->). eauto.
Qed.

Lemma preceded_complete p q : forall tr seen,
  (forall l1 e l2, tr = l1 ++ e :: l2 -> q e = true ->
     seen || existsb p l1 = true) ->
  preceded p q seen tr = true.
Proof.
  induction tr as [|x tr IH]; intros seen H; [reflexivity|].
  cbn [preceded]. apply andb_true_iff. split.
  - destruct (q x) eqn:Hq; [|reflexivity]. simpl.
    specialize (H [] x tr eq_refl Hq). simpl in H.
    rewrite orb_false_r in H. exact H.
  - apply IH. intros l1 e l2 -> Hq.
    specialize (H (x :: l1) e l2 eq_refl Hq). simpl in H.
    rewrite orb_assoc in H. exact H.
Qed.

Lemma preceded_trans p q r tr :
  preceded p q false tr = true -> preceded q r false tr = true ->
  preceded p r false tr = true.
Proof.
  intros Hpq Hqr. apply preceded_complete. intros l1 e l2 Heq Hr. simpl.
  destruct (preceded_split _ _ _ _ _ _ Hqr Heq Hr) as (a & x & b & -> & Hx).
  rewrite <- app_assoc in Heq. cbn [app] in Heq.
  pose proof (preceded_sound _ _ _ _ Hpq a x _ Heq Hx) as E. simpl in E.
  rewrite existsb_app, E. reflexivity.
Qed.

Lemma preceded_weaken (p p' q : event -> bool) tr :
  (forall e, p e = true -> p' e = true) ->
  preceded p q false tr = true -> preceded p' q false tr = true.
Proof.
  intros Hp H. apply preceded_complete. intros l1 e l2 Heq Hq. simpl.
  pose proof (preceded_sound _ _ _ _ H l1 e l2 Heq Hq) as E. simpl in E.
  apply existsb_exists in E as (x & Hin & Hx).
  apply existsb_exists. exists x. auto.
Qed.

Lemma preceded_narrow (p q q' : event -> bool) tr :
  (forall e, q' e = true -> q e = true) ->
  preceded p q false tr = true -> preceded p q' false tr = true.
Proof.
  intros Hq H. apply preceded_complete. intros l1 e l2 Heq Hq'.
  exact (preceded_sound _ _ _ _ H l1 e l2 Heq (Hq e Hq')).
Qed.

Lemma existsb_in (q : event -> bool) e tr :
  In e tr -> q e = true -> existsb q tr = true.
Proof. intros Hin Hq. apply existsb_exists. eauto. Qed.

Lemma existsb_none (q : event -> bool) e tr :
  existsb q tr = false -> q e = true -> ~ In e tr.
Proof.
  intros H Hq Hin. rewrite (existsb_in q e tr Hin Hq) in H. discriminate H.
Qed.

Lemma In_diagnostic msg tr :
  existsb (is_diagnostic msg) tr = true -> In (EvErr msg) tr.
Proof.
  intro H. apply existsb_exists in H as (e & Hin & He).
  destruct e; try discriminate He. simpl in He.
  apply String.eqb_eq in He. subst. exact Hin.
Qed.

(** A run whose trace has a diagnostic ends with it and the exit. *)
Lemma run_ends_with_diagnostic P W opts args msg :
  In (EvErr msg) (trace_of (run P W opts args)) ->
  exists l, trace_of (run P W opts args)
            = l ++ [EvErr msg; EvExit EXIT_FAILURE].
Proof.
  intro Hin. destruct (run_sequence P W opts args) as (_ & Hfatal & _).
  apply in_split in Hin as (l1 & l2 & Heq).
  rewrite (fatal_ends_sound _ Hfatal l1 msg l2 Heq) in Heq.
  exists l1. exact Heq.
Qed.

(** The settings of [main] before the option loop. *)
Lemma boot_gpio_reset P : gpio_reset (m_ctx (boot P)) = -1.
Proof. reflexivity. Qed.

(** X9.  The GPIO library is used only for the pin of the reset option: the
    pin that is set up is not negative and was accepted by the check of the
    option, and it is set up after the library is initialised, which happens
    after the serial line is opened. *)
Theorem gpio_is_set_up_only_for_a_checked_pin P W opts args pin :
  let tr := trace_of (run P W opts args) in
  In (EvGpioSetMode pin) tr ->
  0 <= pin /\ rpi_gpio_check P pin <> 0 /\ present OPT_RESET opts = true /\
  exists l1 l2 l3 device speed,
    tr = l1 ++ EvSerialInit device speed :: l2 ++ EvGpioInit :: l3 /\
    In (EvGpioSetMode pin) l3.
Proof.
  cbv zeta. intro Hin.
  destruct (later_event_reached P W opts args (EvGpioSetMode pin) eq_refl Hin)
    as (m & source & device & Hloop & Hargs & Hset).
  pose proof (run_more_hold P W opts args) as G.
  rewrite Hloop in G. cbn [machine_of] in G.
  pose proof (Forall_at _ _ _ (rm_gpio _ _ _ _ G) Hin) as (Hpin & Hpos).
  cbn [machine_of] in Hpin, Hpos.
  destruct Hset as (_ & Hcheck & _).
  split; [lia|]. split; [|split].
  - rewrite Hpin. destruct Hcheck as [Hc | Hc]; [lia | exact Hc].
  - rewrite present_absent. destruct (absent OPT_RESET opts) eqn:Ha; [|reflexivity].
    pose proof (getopt_loop_keeps_more P W opts (boot P)) as (Hg & _).
    cbv zeta in Hg. rewrite Hloop in Hg. specialize (Hg Ha).
    cbn [machine_of] in Hg. rewrite boot_gpio_reset in Hg. lia.
  - destruct (run_sequence P W opts args)
      as (_ & _ & _ & _ & Hserial & Hgpio & _).
    apply in_split in Hin as (k1 & k2 & Heq).
    destruct (preceded_split _ _ _ _ _ _ Hgpio Heq eq_refl)
      as (a & x & b & -> & Hx).
    destruct x; try discriminate Hx.
    rewrite <- app_assoc in Heq. cbn [app] in Heq.
    destruct (preceded_split _ _ _ _ _ _ Hserial Heq eq_refl)
      as (a' & y & b' & -> & Hy).
    destruct y; try discriminate Hy.
    rewrite <- app_assoc in Heq. cbn [app] in Heq.
    exists a', b', (b ++ EvGpioSetMode pin :: k2), device0, speed.
    split; [exact Heq|]. apply in_or_app. right. left. reflexivity.
Qed.

Lemma gpio_is_set_up_only_for_a_checked_pin_witness :
  0 <= 17 /\ rpi_gpio_check Sample.platform 17 <> 0.
Proof.
  assert (Hin : In (EvGpioSetMode 17)
                   (trace_of (run Sample.platform (Sample.world (fun _ => true))
                                  [(OPT_RESET, "17"%string)] Sample.args_ok))).
  { vm_compute. tauto. }
  pose proof (gpio_is_set_up_only_for_a_checked_pin _ _ _ _ _ Hin) as H.
  split; [exact (proj1 H) | exact (proj1 (proj2 H))].
Defined.

(** X10.  When the initialisation of the driver answers with a negative
    value the run ends at once with the diagnostic and a failure: no task is
    created, nothing is sent and the mode is not destroyed. *)
Theorem failed_driver_initialisation_is_fatal P W opts args conf e :
  let r := run P W opts args in
  In (EvHybridInit conf e) (trace_of r) -> e < 0 ->
  status_of r = Some EXIT_FAILURE /\
  (exists l, trace_of r
             = l ++ [EvErr "cannot initialize G3-PLC"; EvExit EXIT_FAILURE]) /\
  (forall t x b, ~ In (EvPthreadCreate t x b) (trace_of r)) /\
  (forall dst payload size rep,
     ~ In (EvSend dst payload size rep) (trace_of r)) /\
  ~ In EvModeStart (trace_of r) /\
  ~ In EvModeDestroy (trace_of r).
Proof.
  cbv zeta. intros Hin He.
  destruct (run_sequence P W opts args)
    as (_ & _ & _ & _ & _ & _ & _ & _ & _ & Hstart & Hfail & _).
  assert (Hf : existsb is_failed_init (trace_of (run P W opts args)) = true).
  { apply (existsb_in _ _ _ Hin). simpl. apply Z.ltb_lt. exact He. }
  destruct (Hfail Hf) as (Hnone & Hst & Hdiag).
  destruct (run_discipline P W opts args)
    as (_ & _ & _ & _ & _ & _ & _ & _ & _ & Hsend & Hdestroy & _ & _ & Hjoin & _).
  assert (Hnostart : existsb is_mode_start (trace_of (run P W opts args)) = false).
  { destruct (existsb is_mode_start _) eqn:E; [|reflexivity].
    apply existsb_exists in E as (x & Hx & Hq).
    apply in_split in Hx as (l1 & l2 & Heq).
    destruct (preceded_split _ _ _ _ _ _ Hstart Heq Hq) as (a & y & b & -> & Hy).
    assert (Hc : existsb is_create (trace_of (run P W opts args)) = true).
    { rewrite Heq. apply existsb_exists. exists y. split.
      - apply in_or_app. left. apply in_or_app. right. left. reflexivity.
      - destruct y; try discriminate Hy. reflexivity. }
    rewrite Hc in Hnone. discriminate Hnone. }
  split; [exact Hst|]. split; [|split; [|split; [|split]]].
  - apply run_ends_with_diagnostic, In_diagnostic. exact Hdiag.
  - intros t x b. apply (existsb_none _ _ _ Hnone). reflexivity.
  - intros dst payload size rep. rewrite <- Hsend in Hnostart.
    apply (existsb_none _ _ _ Hnostart). reflexivity.
  - apply (existsb_none _ _ _ Hnostart). reflexivity.
  - destruct (existsb is_mode_destroy _) eqn:E.
    + symmetry in Hdestroy. apply existsb_exists in Hdestroy as (x & Hx & Hq).
      apply in_split in Hx as (l1 & l2 & Heq).
      destruct (preceded_split _ _ _ _ _ _ Hjoin Heq Hq) as (a & y & b & -> & Hy).
      assert (Hc : existsb is_mode_start (trace_of (run P W opts args)) = true).
      { rewrite Heq. apply existsb_exists. exists y. split; [|exact Hy].
        apply in_or_app. left. apply in_or_app. right. left. reflexivity. }
      rewrite Hc in Hnostart. discriminate Hnostart.
    + apply (existsb_none _ _ _ E). reflexivity.
Qed.

Lemma failed_driver_initialisation_is_fatal_witness :
  status_of (run Sample.platform (answering 0 (-1)) [] Sample.args_ok)
  = Some EXIT_FAILURE.
Proof.
  assert (Hin : In (EvHybridInit
                      (SendMode.init initial_ctx
                         (set_mac_address 1 (initial_hybrid Sample.platform)))
                      (-1))
                   (trace_of (run Sample.platform (answering 0 (-1)) []
                                  Sample.args_ok))).
  { vm_compute. tauto. }
  exact (proj1 (failed_driver_initialisation_is_fatal _ _ _ _ _ _ Hin eq_refl)).
Defined.

Lemma boot_speed P : m_speed (boot P) = B9600 P.
Proof. reflexivity. Qed.

Lemma is_created_create t e : is_created t e = true -> is_create e = true.
Proof. destruct e; try discriminate. reflexivity. Qed.

Lemma is_ok_init_init e : is_ok_init e = true -> is_hybrid_init e = true.
Proof. destruct e; try discriminate. reflexivity. Qed.

(** X11.  The serial line is opened once, on the device of the second
    argument and with the speed B9600 when no option gives another, and it
    is opened before the GPIO is set up, before the mode and the driver are
    initialised and before a task is created. *)
Theorem serial_line_is_opened_once_and_first P W opts args device speed :
  let tr := trace_of (run P W opts args) in
  In (EvSerialInit device speed) tr ->
  (exists source, args = [source; device]) /\
  (absent (chr "B") opts = true -> speed = B9600 P) /\
  count is_serial_init tr = 1%nat /\
  forall l1 e l2,
    tr = l1 ++ e :: l2 ->
    is_gpio_init e || is_mode_init e || is_hybrid_init e || is_create e = true ->
    In (EvSerialInit device speed) l1.
Proof.
  cbv zeta. intro Hin.
  destruct (later_event_reached P W opts args (EvSerialInit device speed) eq_refl Hin)
    as (m & source & dev & Hloop & Hargs & _).
  pose proof (run_more_hold P W opts args) as G.
  rewrite Hloop in G. cbn [machine_of] in G.
  pose proof (rm_serial _ _ _ _ G) as Hall. cbn [machine_of] in Hall.
  pose proof (Forall_at _ _ _ Hall Hin) as (Hdev & Hsp).
  destruct (run_sequence P W opts args)
    as (_ & _ & Honce & Hmode & Hgpio & _).
  destruct (run_discipline P W opts args) as (_ & _ & Hinit & _).
  destruct (run_order_parts P W opts args) as (Hcreate & _).
  split; [|split; [|split]].
  - exists source. subst args. cbn in Hdev. injection Hdev as <-. reflexivity.
  - intro Ha.
    pose proof (getopt_loop_keeps_more P W opts (boot P)) as (_ & _ & Hb & _).
    cbv zeta in Hb. rewrite Hloop in Hb. destruct (Hb Ha) as (Hs & _).
    cbn [machine_of] in Hs. rewrite Hsp, Hs. apply boot_speed.
  - pose proof (count_positive _ _ (existsb_in is_serial_init _ _ Hin eq_refl)).
    lia.
  - intros l1 e l2 Heq He.
    assert (Hbefore : preceded is_serial_init
                        (fun e => is_gpio_init e || is_mode_init e
                                  || is_hybrid_init e || is_create e)
                        false (trace_of (run P W opts args)) = true).
    { pose proof (preceded_trans _ _ _ _ Hmode Hinit) as Hi.
      pose proof (preceded_trans _ _ _ _ Hi
                    (preceded_weaken _ _ _ _ is_ok_init_init Hcreate)) as Hc.
      apply preceded_complete. intros k1 x k2 Hk Hx. simpl.
      repeat (apply orb_true_iff in Hx as [Hx | Hx]).
      - exact (preceded_sound _ _ _ _ Hgpio k1 x k2 Hk Hx).
      - exact (preceded_sound _ _ _ _ Hmode k1 x k2 Hk Hx).
      - exact (preceded_sound _ _ _ _ Hi k1 x k2 Hk Hx).
      - exact (preceded_sound _ _ _ _ Hc k1 x k2 Hk Hx). }
    destruct (preceded_split _ _ _ _ _ _ Hbefore Heq He) as (a & x & b & -> & Hx).
    destruct x; try discriminate Hx.
    assert (Hx' : In (EvSerialInit device0 speed0) (trace_of (run P W opts args))).
    { rewrite Heq. apply in_or_app. left. apply in_or_app. right. left.
      reflexivity. }
    pose proof (Forall_at _ _ _ Hall Hx') as (Hdev' & Hsp').
    rewrite Hdev in Hdev'. injection Hdev' as <-. rewrite Hsp, Hsp'.
    apply in_or_app. right. left. reflexivity.
Qed.

Lemma serial_line_is_opened_once_and_first_witness :
  count is_serial_init
    (trace_of (run Sample.platform (Sample.world (fun _ => true))
                   Sample.opts_a_r3_d1234 Sample.args_ok)) = 1%nat.
Proof.
  assert (Hin : In (EvSerialInit "/dev/ttyAMA0" 13)
                   (trace_of (run Sample.platform (Sample.world (fun _ => true))
                                  Sample.opts_a_r3_d1234 Sample.args_ok))).
  { vm_compute. tauto. }
  exact (proj1 (proj2 (proj2
           (serial_line_is_opened_once_and_first _ _ _ _ _ _ Hin)))).
Defined.

(** X12.  The reader enters its read loop only after it has blocked SIGALRM
    itself with success, and it does that only after its creation
    succeeded. *)
Theorem reader_blocks_the_signal_before_reading P W opts args :
  let tr := trace_of (run P W opts args) in
  In EvUartReadLoop tr ->
  exists l1 b l2 l3 l4,
    tr = l1 ++ EvPthreadCreate InputThread 0 b
            :: l2 ++ EvSigmask InputThread 0 :: l3 ++ EvUartReadLoop :: l4.
Proof.
  cbv zeta. intro Hin.
  destruct (run_sequence P W opts args)
    as (_ & _ & _ & _ & _ & _ & _ & Hloop & Hblock & _).
  apply in_split in Hin as (k1 & k2 & Heq).
  destruct (preceded_split _ _ _ _ _ _ Hloop Heq eq_refl)
    as (a & x & b & -> & Hx).
  rewrite <- app_assoc in Heq. cbn [app] in Heq.
  destruct (preceded_split _ _ _ _ _ _ Hblock Heq Hx)
    as (a' & y & b' & -> & Hy).
  rewrite <- app_assoc in Heq. cbn [app] in Heq.
  destruct x as [| | | | | | | | | | | |self r| | | | | | | | | | | |];
    try discriminate Hx.
  destruct self; try discriminate Hx. simpl in Hx. apply Z.eqb_eq in Hx. subst r.
  destruct y as [| | | | | | | | | | | | | |child r flag| | | | | | | | | |];
    try discriminate Hy.
  simpl in Hy. apply andb_true_iff in Hy as [Hc Hr].
  apply thread_eqb_eq in Hc. apply Z.eqb_eq in Hr. subst child r.
  exists a', flag, b', b, k2. exact Heq.
Qed.

Lemma reader_blocks_the_signal_before_reading_witness :
  exists l1 b l2 l3 l4,
    trace_of (run Sample.platform (Sample.world (fun _ => true))
                  Sample.opts_a_r3_d1234 Sample.args_ok)
    = l1 ++ EvPthreadCreate InputThread 0 b
         :: l2 ++ EvSigmask InputThread 0 :: l3 ++ EvUartReadLoop :: l4.
Proof.
  apply reader_blocks_the_signal_before_reading.
  vm_compute. tauto.
Defined.



(** X14.  The driver is initialised after the main thread has blocked
    SIGALRM, and a task is created only after an initialisation of the
    driver that did not answer with a negative value. *)
Theorem driver_is_initialised_between_mask_and_tasks P W opts args :
  let tr := trace_of (run P W opts args) in
  (forall l1 conf e l2,
     tr = l1 ++ EvHybridInit conf e :: l2 -> In (EvSigmask MainThread 0) l1) /\
  (forall l1 t x b l2,
     tr = l1 ++ EvPthreadCreate t x b :: l2 ->
     exists conf e, In (EvHybridInit conf e) l1 /\ 0 <= e).
Proof.
  cbv zeta.
  destruct (run_order_parts P W opts args) as (Hcreate & Hinit & _).
  split.
  - intros l1 conf e l2 Heq. apply In_main_block.
    exact (preceded_sound _ _ _ _ Hinit l1 _ l2 Heq eq_refl).
  - intros l1 t x b l2 Heq.
    destruct (preceded_split _ _ _ _ _ _ Hcreate Heq eq_refl)
      as (a & y & c & -> & Hy).
    destruct y; try discriminate Hy. simpl in Hy.
    apply negb_true_iff, Z.ltb_ge in Hy.
    exists conf, r. split; [|exact Hy].
    apply in_or_app. right. left. reflexivity.
Qed.

(** ** What an option sets *)

Lemma land_lor_keeps f y x : Z.land f x = x -> Z.land (Z.lor f y) x = x.
Proof.
  intro H. apply Z.bits_inj'. intros n Hn.
  assert (E : Z.testbit (Z.land f x) n = Z.testbit x n) by (rewrite H; reflexivity).
  rewrite Z.land_spec in *. rewrite Z.lor_spec.
  destruct (Z.testbit f n), (Z.testbit y n), (Z.testbit x n);
    simpl in *; congruence.
Qed.

Lemma land_lor_sets f x : Z.land (Z.lor f x) x = x.
Proof. rewrite Z.land_comm. apply land_lor_r. Qed.

Section Settings.

Variable P : platform.
Variable W : world.

Let mode := SendMode.iface_mode W.

Lemma option_turn_sets c optarg m :
  let m2 := machine_of (option_turn P mode c optarg m) in
  (c = chr "v" -> verbose (m_ctx m2) = 1) /\
  (c = chr "T" -> SendMode.display_time (m_mode m2) = 1) /\
  (c = chr "m" -> SendMode.message (m_mode m2) = optarg) /\
  (c = chr "a" ->
   flags (m_hybrid m2) = Z.lor (flags (m_hybrid m)) (G3PLC_NOACK P)) /\
  (c = chr "i" ->
   flags (m_hybrid m2) = Z.lor (flags (m_hybrid m)) (G3PLC_INVALID P)) /\
  (c = chr "d" -> dst_mac (m_ctx m2) = wrap_uint16 (strtol P optarg 16)) /\
  (c = chr "r" -> retrans (m_hybrid m2) = fst (xatou P optarg)) /\
  (c = chr "t" -> timeout (m_hybrid m2) = fst (xatou P optarg)) /\
  (c = chr "B" -> m_speed m2 = baud P optarg /\ m_speed_str m2 = optarg) /\
  (c = OPT_RESET -> gpio_reset (m_ctx m2) = wrap_int32 (fst (xatou P optarg))).
Proof.
  cbv zeta.
  repeat match goal with |- _ /\ _ => split end; intros ->;
    rewrite option_turn_cases; cbv zeta;
    cbn [parse_option mode SendMode.iface_mode]; unfold SendMode.parse_option;
    match goal with
    | |- context [if ?a =? ?b then _ else _] =>
        let v := eval vm_compute in (a =? b) in
        change (a =? b) with v; cbv iota
    end;
    try match goal with
    | |- context [if ?a =? ?b then _ else _] =>
        let v := eval vm_compute in (a =? b) in
        change (a =? b) with v; cbv iota
    end;
    cbn [fst snd negb Z.eqb]; try reflexivity;
    unfold common_option;
    repeat match goal with
    | |- context [if ?a =? ?b then _ else _] =>
        lazymatch a with
        | context [rpi_gpio_check] => fail
        | _ =>
          lazymatch b with
          | 0 => fail
          | _ => let v := eval vm_compute in (a =? b) in
                 change (a =? b) with v; cbv iota
          end
        end
    end;
    destruct (xatou P optarg) as [v err]; cbn [fst];
    repeat (run_proc; try break_if); norm_trace; try split; reflexivity.
Qed.

Lemma getopt_loop_running_without (c0 : Z)
    (Inv : @machine SendMode.statics -> Prop) :
  (forall c optarg m ctl m',
     c <> c0 -> Inv m ->
     option_turn P mode c optarg m = Running ctl m' -> Inv m') ->
  forall opts m ctl m',
    absent c0 opts = true -> Inv m ->
    getopt_loop P mode opts m = Running ctl m' -> Inv m'.
Proof.
  intros Hturn. unfold absent.
  induction opts as [|[c optarg] rest IH]; intros m ctl m' Ha Hm Hloop.
  - cbn in Hloop. injection Hloop as _ <-. exact Hm.
  - cbn [getopt_loop] in Hloop. destruct (c =? -1).
    + injection Hloop as _ <-. exact Hm.
    + cbn [forallb fst] in Ha. apply andb_true_iff in Ha as [Hc Ha].
      apply negb_true_iff, Z.eqb_neq in Hc.
      unfold bind in Hloop.
      destruct (option_turn P mode c optarg m) as [[|] m1 | s m1] eqn:Ht;
        try discriminate Hloop.
      * exact (IH m1 ctl m' Ha (Hturn _ _ _ _ _ Hc Hm Ht) Hloop).
      * injection Hloop as _ <-. exact (Hturn _ _ _ _ _ Hc Hm Ht).
Qed.

(** The option [-v] anywhere switches the verbose mode on. *)
Lemma verbose_option opts m :
  Forall (fun o => fst o <> -1) opts ->
  getopt_loop P mode opts (boot P) = Running Next m ->
  (present (chr "v") opts = true <-> verbose (m_ctx m) <> 0).
Proof.
  intros Hok Hloop. split.
  - intro Hp.
    enough (verbose (m_ctx m) = 1) by lia.
    apply (option_switches_on P W (chr "v")
             (fun m => verbose (m_ctx m) = 1) opts (boot P) m);
      try assumption; [discriminate | |].
    + intros optarg m1 m2 Ht.
      pose proof (option_turn_sets (chr "v") optarg m1) as (Hv & _).
      cbv zeta in Hv. unfold mode in *. rewrite Ht in Hv. exact (Hv eq_refl).
    + intros c optarg m1 ctl m2 Hon Ht.
      destruct (Z.eq_dec c (chr "v")) as [-> | Hc].
      * pose proof (option_turn_sets (chr "v") optarg m1) as (Hv & _).
        cbv zeta in Hv. unfold mode in *. rewrite Ht in Hv. exact (Hv eq_refl).
      * pose proof (option_turn_keeps_more P W c optarg m1) as (_ & Hv & _).
        unfold mode in *. rewrite Ht in Hv. cbn [machine_of] in Hv.
        rewrite (Hv Hc). exact Hon.
  - intro Hv. rewrite present_absent.
    destruct (absent (chr "v") opts) eqn:Ha; [|reflexivity].
    pose proof (getopt_loop_keeps_more P W opts (boot P)) as (_ & Hk & _).
    cbv zeta in Hk. unfold mode in *. rewrite Hloop in Hk.
    specialize (Hk Ha). cbn [machine_of] in Hk.
    exfalso. apply Hv. rewrite Hk. reflexivity.
Qed.

(** The option [-T] anywhere switches the display of the time on. *)
Lemma time_option opts m :
  Forall (fun o => fst o <> -1) opts ->
  getopt_loop P mode opts (boot P) = Running Next m ->
  (present (chr "T") opts = true <-> SendMode.display_time (m_mode m) <> 0).
Proof.
  intros Hok Hloop. split.
  - intro Hp.
    enough (SendMode.display_time (m_mode m) = 1) by lia.
    apply (option_switches_on P W (chr "T")
             (fun m => SendMode.display_time (m_mode m) = 1) opts (boot P) m);
      try assumption; [discriminate | |].
    + intros optarg m1 m2 Ht.
      pose proof (option_turn_sets (chr "T") optarg m1) as (_ & Hv & _).
      cbv zeta in Hv. unfold mode in *. rewrite Ht in Hv. exact (Hv eq_refl).
    + intros c optarg m1 ctl m2 Hon Ht.
      destruct (Z.eq_dec c (chr "T")) as [-> | Hc].
      * pose proof (option_turn_sets (chr "T") optarg m1) as (_ & Hv & _).
        cbv zeta in Hv. unfold mode in *. rewrite Ht in Hv. exact (Hv eq_refl).
      * pose proof (option_turn_keeps_more P W c optarg m1)
          as (_ & _ & _ & Hv & _).
        unfold mode in *. rewrite Ht in Hv. cbn [machine_of] in Hv.
        rewrite (Hv Hc). exact Hon.
  - intro Hv. rewrite present_absent.
    destruct (absent (chr "T") opts) eqn:Ha; [|reflexivity].
    pose proof (getopt_loop_keeps_more P W opts (boot P))
      as (_ & _ & _ & Hk & _).
    cbv zeta in Hk. unfold mode in *. rewrite Hloop in Hk.
    specialize (Hk Ha). cbn [machine_of] in Hk.
    exfalso. apply Hv. rewrite Hk. reflexivity.
Qed.

End Settings.

Lemma In_summary tr :
  existsb is_summary tr = true ->
  exists conf ctx dev sp, In (EvDisplaySummary conf ctx dev sp) tr.
Proof.
  intro H. apply existsb_exists in H as (e & Hin & He).
  destruct e; try discriminate He. eauto.
Qed.

Lemma boot_speed_str P : m_speed_str (boot P) = "9600"%string.
Proof. reflexivity. Qed.

(** X15.  The summary and the line about the serial line are shown exactly
    when the option [-v] was given.  The summary shows the device that is
    opened and the settings that the driver gets later, taken before the
    mode installs its callback. *)
Theorem summary_is_shown_only_when_verbose P W opts args device speed :
  let tr := trace_of (run P W opts args) in
  Forall (fun o => fst o <> -1) opts ->
  In (EvSerialInit device speed) tr ->
  (present (chr "v") opts = true <->
   exists conf ctx sp, In (EvDisplaySummary conf ctx device sp) tr) /\
  (present (chr "v") opts = true <-> In (EvPrintf "Serial initialized!") tr) /\
  (forall conf ctx dev sp,
     In (EvDisplaySummary conf ctx dev sp) tr ->
     dev = device /\ verbose ctx = 1 /\
     (absent (chr "B") opts = true -> sp = "9600"%string) /\
     callbacks conf = callbacks (initial_hybrid P) /\
     forall c e,
       In (EvHybridInit c e) tr ->
       mac_address conf = mac_address c /\ retrans conf = retrans c /\
       timeout conf = timeout c /\ flags conf = flags c /\
       platform_table conf = platform_table c).
Proof.
  cbv zeta. intros Hok Hin.
  destruct (later_event_reached P W opts args (EvSerialInit device speed)
              eq_refl Hin)
    as (m & source & dev0 & Hloop & Hargs & Hset).
  pose proof (run_facts_hold P W opts args) as F.
  pose proof (run_more_hold P W opts args) as G.
  pose proof (run_order_hold P W opts args) as O.
  rewrite Hloop in F, G, O. cbn [machine_of] in F, G, O.
  pose proof (Forall_at _ _ _ (rm_serial _ _ _ _ G) Hin) as (Hdev & _).
  subst args. cbn in Hdev. injection Hdev as ->.
  pose proof (rm_verbose _ _ _ _ G) as Hverb. cbn [machine_of] in Hverb.
  rewrite (existsb_in is_serial_init _ _ Hin eq_refl) in Hverb.
  cbn [negb orb] in Hverb. apply Bool.eqb_prop in Hverb.
  destruct (run_sequence P W opts [source; device])
    as (_ & _ & _ & _ & _ & _ & _ & _ & _ & _ & _ & Hprintf).
  pose proof (verbose_option P W opts m Hok Hloop) as Hv.
  assert (Hshown : existsb is_summary (trace_of (run P W opts [source; device]))
                   = true <-> verbose (m_ctx m) <> 0).
  { rewrite Hverb. rewrite negb_true_iff, Z.eqb_neq. tauto. }
  assert (Hcontent : forall conf ctx dev sp,
             In (EvDisplaySummary conf ctx dev sp)
                (trace_of (run P W opts [source; device])) ->
             ctx = m_ctx m /\ dev = device /\ sp = m_speed_str m /\
             conf = set_mac_address (wrap_uint16 (strtol P source 16))
                      (m_hybrid m)).
  { intros conf ctx dev sp Hs.
    pose proof (Forall_at _ _ _ (ro_summary _ _ _ _ O) Hs)
      as (Hctx & Hd & Hsp & src & Hsrc & Hconf).
    cbn in Hd, Hsrc. injection Hd as <-. injection Hsrc as <-. auto. }
  split; [|split].
  - rewrite Hv, <- Hshown. split.
    + intro H. apply In_summary in H as (conf & ctx & dev & sp & Hs).
      destruct (Hcontent _ _ _ _ Hs) as (_ & -> & _). eauto.
    + intros (conf & ctx & sp & Hs). apply (existsb_in _ _ _ Hs). reflexivity.
  - rewrite Hv, <- Hshown, Hprintf. split.
    + intro H. apply existsb_exists in H as (e & He & Hq).
      destruct e; try discriminate Hq.
      pose proof (Forall_at _ _ _ (ro_printf _ _ _ _ O) He) as Hs.
      cbn in Hs. subst. exact He.
    + intro H. apply (existsb_in _ _ _ H). reflexivity.
  - intros conf ctx dev sp Hs.
    destruct (Hcontent _ _ _ _ Hs) as (-> & -> & -> & ->).
    destruct Hset as (_ & _ & _ & Hvb & _ & _ & Hcb & _).
    split; [reflexivity|]. split; [|split; [|split]].
    + assert (Hne : verbose (m_ctx m) <> 0).
      { apply Hshown. apply (existsb_in _ _ _ Hs). reflexivity. }
      destruct Hvb as [Hvb | Hvb]; [contradiction | exact Hvb].
    + intro Ha.
      pose proof (getopt_loop_keeps_more P W opts (boot P)) as (_ & _ & Hb & _).
      cbv zeta in Hb. rewrite Hloop in Hb. destruct (Hb Ha) as (_ & Hstr).
      cbn [machine_of] in Hstr. rewrite Hstr. apply boot_speed_str.
    + exact Hcb.
    + intros c e Hi.
      pose proof (Forall_at _ _ _ (rf_inits _ _ _ F) Hi) as Hc. cbn in Hc.
      pose proof (Forall_at _ _ _ (rm_mac _ _ _ _ G) Hi) as (src & Hsrc & Hmac).
      cbn in Hsrc. injection Hsrc as <-.
      pose proof (rm_table _ _ _ _ G) as Htab. cbn [machine_of] in Htab.
      subst c. rewrite Hmac, (rf_retrans _ _ _ F), (rf_timeout _ _ _ F),
        (rf_flags _ _ _ F), Htab.
      cbn [machine_of]. repeat split; reflexivity.
Qed.

Lemma summary_is_shown_only_when_verbose_witness :
  In (EvPrintf "Serial initialized!")
     (trace_of (run Sample.platform (Sample.world (fun _ => true))
                    [(chr "v", ""%string)] Sample.args_ok)).
Proof.
  assert (Hin : In (EvSerialInit "/dev/ttyAMA0" 13)
                   (trace_of (run Sample.platform (Sample.world (fun _ => true))
                                  [(chr "v", ""%string)] Sample.args_ok))).
  { vm_compute. tauto. }
  assert (Hok : Forall (fun o : Z * string => fst o <> -1) [(chr "v", ""%string)]).
  { constructor; [discriminate | constructor]. }
  exact (proj1 (proj1 (proj2
           (summary_is_shown_only_when_verbose _ _ _ _ _ _ Hok Hin))) eq_refl).
Defined.

Lemma boot_message P :
  SendMode.message (m_mode (boot P)) = "Hello World!"%string.
Proof. reflexivity. Qed.

Lemma boot_dst_mac P : dst_mac (m_ctx (boot P)) = 0xffff.
Proof. reflexivity. Qed.

Lemma boot_flags P : flags (m_hybrid (boot P)) = 0.
Proof. reflexivity. Qed.

(** The writer starts, and so sends, only after the driver was initialised
    with an answer that is not negative. *)
Lemma send_after_ok_init P W opts args :
  let tr := trace_of (run P W opts args) in
  preceded is_ok_init is_send false tr = true.
Proof.
  cbv zeta.
  destruct (run_order_parts P W opts args)
    as (Hcreate & _ & _ & _ & _ & _ & _ & Hsend & _).
  destruct (run_sequence P W opts args)
    as (_ & _ & _ & _ & _ & _ & _ & _ & _ & Hstart & _).
  pose proof (preceded_narrow _ _ _ _ (is_created_create OutputThread) Hcreate)
    as Hout.
  exact (preceded_trans _ _ _ _ (preceded_trans _ _ _ _ Hout Hstart) Hsend).
Qed.

(** X16.  The writer sends the message of the mode, by default
    "Hello World!", with its length to the destination of the context, by
    default 0xffff, through the driver as it was initialised, after the mode
    was started. *)
Theorem writer_sends_the_message_to_the_destination
    P W opts args dst payload size rep :
  let tr := trace_of (run P W opts args) in
  In (EvSend dst payload size rep) tr ->
  size = strlen payload /\ 0 <= dst < 2 ^ 16 /\
  (absent (chr "m") opts = true -> payload = "Hello World!"%string) /\
  (absent (chr "d") opts = true -> dst = 0xffff) /\
  count is_send tr = 1%nat /\
  exists l1 l2 l3 conf e,
    tr = l1 ++ EvHybridInit conf e :: l2 ++ EvSend dst payload size rep :: l3 /\
    0 <= e /\ In EvModeStart l2 /\
    rep = w_send W (Some conf) dst payload size.
Proof.
  cbv zeta. intro Hin.
  destruct (later_event_reached P W opts args (EvSend dst payload size rep)
              eq_refl Hin)
    as (m & source & device & Hloop & Hargs & Hset).
  pose proof (run_facts_hold P W opts args) as F.
  rewrite Hloop in F. cbn [machine_of] in F.
  pose proof (Forall_at _ _ _ (rf_sends _ _ _ F) Hin eq_refl) as Hsend.
  unfold the_send in Hsend. cbv zeta in Hsend.
  rewrite (rf_ctx _ _ _ F), (rf_mode _ _ _ F) in Hsend. cbn [machine_of] in Hsend.
  injection Hsend as Hdst Hmsg Hsize Hrep.
  destruct Hset as (_ & _ & Hrange & _).
  destruct (run_discipline P W opts args)
    as (_ & _ & _ & _ & _ & _ & _ & _ & Honce & _).
  destruct (run_order_parts P W opts args)
    as (_ & _ & _ & _ & _ & _ & _ & Hstart & _).
  split; [|split; [|split; [|split; [|split]]]].
  - rewrite Hsize, <- Hmsg. reflexivity.
  - rewrite Hdst. exact Hrange.
  - intro Ha.
    pose proof (getopt_loop_keeps_more P W opts (boot P))
      as (_ & _ & _ & _ & Hk).
    cbv zeta in Hk. rewrite Hloop in Hk. specialize (Hk Ha).
    cbn [machine_of] in Hk. rewrite Hmsg, Hk. apply boot_message.
  - intro Ha.
    pose proof (getopt_loop_keeps P (SendMode.iface_mode W) opts (boot P))
      as (_ & _ & _ & Hk).
    cbv zeta in Hk. rewrite Hloop in Hk. specialize (Hk Ha).
    cbn [machine_of] in Hk. rewrite Hdst, Hk. apply boot_dst_mac.
  - pose proof (count_positive _ _ (existsb_in is_send _ _ Hin eq_refl)). lia.
  - apply in_split in Hin as (k1 & k2 & Heq).
    destruct (preceded_split _ _ _ _ _ _ Hstart Heq eq_refl)
      as (a & x & b & -> & Hx).
    destruct x; try discriminate Hx.
    rewrite <- app_assoc in Heq. cbn [app] in Heq.
    assert (Hs : is_mode_start EvModeStart = true) by reflexivity.
    pose proof (preceded_trans _ _ _ _
                  (preceded_narrow _ _ _ _ (is_created_create OutputThread)
                     (proj1 (run_order_parts P W opts args)))
                  (proj1 (proj2 (proj2 (proj2 (proj2 (proj2 (proj2 (proj2
                     (proj2 (proj2 (run_sequence P W opts args)))))))))))) as Hinit.
    cbv zeta in Hinit.
    destruct (preceded_split _ _ _ _ _ _ Hinit Heq Hs) as (a' & y & b' & -> & Hy).
    destruct y; try discriminate Hy. simpl in Hy.
    apply negb_true_iff, Z.ltb_ge in Hy.
    rewrite <- app_assoc in Heq. cbn [app] in Heq.
    assert (Hi : In (EvHybridInit conf r) (trace_of (run P W opts args))).
    { rewrite Heq. apply in_or_app. right. left. reflexivity. }
    pose proof (Forall_at _ _ _ (rf_inits _ _ _ F) Hi) as Hc. cbn in Hc.
    exists a', (b' ++ EvModeStart :: b), k2, conf, r.
    split; [|split; [exact Hy|split]].
    + rewrite Heq, <- app_assoc. reflexivity.
    + apply in_or_app. right. left. reflexivity.
    + rewrite Hc, Hrep, Hdst, Hmsg, Hsize. reflexivity.
Qed.

Lemma writer_sends_the_message_to_the_destination_witness :
  count is_send
    (trace_of (run Sample.platform (Sample.world (fun _ => true))
                   Sample.opts_a_r3_d1234 Sample.args_ok)) = 1%nat.
Proof.
  assert (H : existsb is_send
                (trace_of (run Sample.platform (Sample.world (fun _ => true))
                               Sample.opts_a_r3_d1234 Sample.args_ok)) = true)
    by reflexivity.
  apply existsb_exists in H as (ev & Hin & Hev).
  destruct ev; try discriminate Hev.
  exact (proj1 (proj2 (proj2 (proj2 (proj2
           (writer_sends_the_message_to_the_destination _ _ _ _ _ _ _ _ Hin)))))).
Defined.

(** X17.  The time of the send is printed exactly when the option [-T] was
    given: once, after the send and the new line. *)
Theorem time_is_printed_only_on_request P W opts args dst payload size rep :
  let tr := trace_of (run P W opts args) in
  Forall (fun o => fst o <> -1) opts ->
  In (EvSend dst payload size rep) tr ->
  (present (chr "T") opts = true <-> exists b e, In (EvPrintTime b e) tr) /\
  (count is_print_time tr <= 1)%nat /\
  forall l1 b e l2,
    tr = l1 ++ EvPrintTime b e :: l2 ->
    exists k1 k2 k3 c,
      l1 = k1 ++ EvSend dst payload size rep :: k2 ++ EvPutchar c :: k3.
Proof.
  cbv zeta. intros Hok Hin.
  destruct (later_event_reached P W opts args (EvSend dst payload size rep)
              eq_refl Hin)
    as (m & source & device & Hloop & Hargs & Hset).
  pose proof (run_facts_hold P W opts args) as F.
  pose proof (run_more_hold P W opts args) as G.
  rewrite Hloop in G. cbn [machine_of] in G.
  pose proof (rm_time _ _ _ _ G) as Htime. cbn [machine_of] in Htime.
  rewrite (existsb_in is_send _ _ Hin eq_refl) in Htime.
  cbn [negb orb] in Htime. apply Bool.eqb_prop in Htime.
  destruct (run_order_parts P W opts args)
    as (_ & _ & _ & _ & _ & _ & _ & _ & Hput & Hprint & _ & Honce & _).
  split; [|split; [exact Honce|]].
  - rewrite (time_option P W opts m Hok Hloop).
    rewrite <- Z.eqb_neq, <- negb_true_iff, <- Htime. split.
    + intro H. apply existsb_exists in H as (x & Hx & Hq).
      destruct x; try discriminate Hq. eauto.
    + intros (b & e & H). apply (existsb_in _ _ _ H). reflexivity.
  - intros l1 b e l2 Heq.
    destruct (preceded_split _ _ _ _ _ _ Hprint Heq eq_refl)
      as (a & x & k3 & -> & Hx).
    destruct x; try discriminate Hx.
    rewrite <- app_assoc in Heq. cbn [app] in Heq.
    destruct (preceded_split _ _ _ _ _ _ Hput Heq eq_refl)
      as (k1 & y & k2 & -> & Hy).
    assert (Hy' : In y (trace_of (run P W opts args))).
    { rewrite Heq. apply in_or_app. left. apply in_or_app. right. left.
      reflexivity. }
    pose proof (Forall_at _ _ _ (rf_sends _ _ _ F) Hy' Hy) as E1.
    pose proof (Forall_at _ _ _ (rf_sends _ _ _ F) Hin eq_refl) as E2.
    rewrite <- E2 in E1. subst y.
    exists k1, k2, k3, c. rewrite <- app_assoc. reflexivity.
Qed.

Lemma time_is_printed_only_on_request_witness :
  exists b e,
    In (EvPrintTime b e)
       (trace_of (run Sample.platform (Sample.world (fun _ => true))
                      [(chr "T", ""%string)] Sample.args_ok)).
Proof.
  assert (H : existsb is_send
                (trace_of (run Sample.platform (Sample.world (fun _ => true))
                               [(chr "T", ""%string)] Sample.args_ok)) = true)
    by reflexivity.
  apply existsb_exists in H as (ev & Hin & Hev).
  destruct ev; try discriminate Hev.
  assert (Hok : Forall (fun o : Z * string => fst o <> -1) [(chr "T", ""%string)]).
  { constructor; [discriminate | constructor]. }
  exact (proj1 (proj1
           (time_is_printed_only_on_request _ _ _ _ _ _ _ _ Hok Hin)) eq_refl).
Defined.

Section Flags.

Variable P : platform.
Variable W : world.

Let mode := SendMode.iface_mode W.

(** What a turn does to the flags. *)
Lemma option_turn_flags c optarg m ctl m2 :
  option_turn P mode c optarg m = Running ctl m2 ->
  (c = chr "a" /\
   flags (m_hybrid m2) = Z.lor (flags (m_hybrid m)) (G3PLC_NOACK P)) \/
  (c = chr "i" /\
   flags (m_hybrid m2) = Z.lor (flags (m_hybrid m)) (G3PLC_INVALID P)) \/
  (c <> chr "a" /\ c <> chr "i" /\ flags (m_hybrid m2) = flags (m_hybrid m)).
Proof.
  intro Ht.
  pose proof (option_turn_sets P W c optarg m) as (_ & _ & _ & Ha & Hi & _).
  pose proof (option_turn_keeps P mode c optarg m) as (_ & _ & Hk & _).
  cbv zeta in Ha, Hi. unfold mode in *. rewrite Ht in Ha, Hi, Hk.
  cbn [machine_of] in Ha, Hi, Hk.
  destruct (Z.eq_dec c (chr "a")) as [E | Na]; [left; auto|].
  destruct (Z.eq_dec c (chr "i")) as [E | Ni]; [right; left; auto|].
  right. right. auto.
Qed.

Lemma flag_options opts m :
  Forall (fun o => fst o <> -1) opts ->
  getopt_loop P mode opts (boot P) = Running Next m ->
  let f := flags (m_hybrid m) in
  (present (chr "a") opts = true -> Z.land f (G3PLC_NOACK P) = G3PLC_NOACK P) /\
  (present (chr "i") opts = true ->
   Z.land f (G3PLC_INVALID P) = G3PLC_INVALID P) /\
  (absent (chr "a") opts = true -> Z.land f (G3PLC_INVALID P) = f) /\
  (absent (chr "i") opts = true -> Z.land f (G3PLC_NOACK P) = f).
Proof.
  intros Hok Hloop. cbv zeta. repeat split.
  - intro Hp.
    apply (option_switches_on P W (chr "a")
             (fun m => Z.land (flags (m_hybrid m)) (G3PLC_NOACK P)
                       = G3PLC_NOACK P) opts (boot P) m);
      try assumption; [discriminate | |].
    + intros optarg m1 m2 Ht.
      destruct (option_turn_flags _ _ _ _ _ Ht)
        as [(_ & ->) | [(E & _) | (E & _)]];
        [apply land_lor_sets | discriminate E | contradiction].
    + intros c optarg m1 ctl m2 Hon Ht.
      destruct (option_turn_flags _ _ _ _ _ Ht)
        as [(_ & ->) | [(_ & ->) | (_ & _ & ->)]];
        [apply land_lor_sets | apply land_lor_keeps; exact Hon | exact Hon].
  - intro Hp.
    apply (option_switches_on P W (chr "i")
             (fun m => Z.land (flags (m_hybrid m)) (G3PLC_INVALID P)
                       = G3PLC_INVALID P) opts (boot P) m);
      try assumption; [discriminate | |].
    + intros optarg m1 m2 Ht.
      destruct (option_turn_flags _ _ _ _ _ Ht)
        as [(E & _) | [(_ & ->) | (_ & E & _)]];
        [discriminate E | apply land_lor_sets | contradiction].
    + intros c optarg m1 ctl m2 Hon Ht.
      destruct (option_turn_flags _ _ _ _ _ Ht)
        as [(_ & ->) | [(_ & ->) | (_ & _ & ->)]];
        [apply land_lor_keeps; exact Hon | apply land_lor_sets | exact Hon].
  - intro Ha.
    refine (getopt_loop_running_without P W (chr "a")
              (fun m => Z.land (flags (m_hybrid m)) (G3PLC_INVALID P)
                        = flags (m_hybrid m))
              _ opts (boot P) Next m Ha eq_refl Hloop).
    intros c optarg m1 ctl m2 Hc Hinv Ht.
    destruct (option_turn_flags _ _ _ _ _ Ht)
      as [(E & _) | [(_ & ->) | (_ & _ & ->)]];
      [contradiction | | exact Hinv].
    apply land_lor_same; [exact Hinv | apply Z.land_diag].
  - intro Ha.
    refine (getopt_loop_running_without P W (chr "i")
              (fun m => Z.land (flags (m_hybrid m)) (G3PLC_NOACK P)
                        = flags (m_hybrid m))
              _ opts (boot P) Next m Ha eq_refl Hloop).
    intros c optarg m1 ctl m2 Hc Hinv Ht.
    destruct (option_turn_flags _ _ _ _ _ Ht)
      as [(_ & ->) | [(E & _) | (_ & _ & ->)]];
      [ | contradiction | exact Hinv].
    apply land_lor_same; [exact Hinv | apply Z.land_diag].
Qed.

End Flags.

(** X18.  The options [-a] and [-i] set their flag in the configuration of
    the driver wherever they stand, and a flag whose option is missing is
    not set. *)
Theorem flag_options_reach_the_driver P W opts args conf e :
  Forall (fun o => fst o <> -1) opts ->
  In (EvHybridInit conf e) (trace_of (run P W opts args)) ->
  (present (chr "a") opts = true ->
   Z.land (flags conf) (G3PLC_NOACK P) = G3PLC_NOACK P) /\
  (present (chr "i") opts = true ->
   Z.land (flags conf) (G3PLC_INVALID P) = G3PLC_INVALID P) /\
  (absent (chr "a") opts = true ->
   Z.land (flags conf) (G3PLC_INVALID P) = flags conf) /\
  (absent (chr "i") opts = true ->
   Z.land (flags conf) (G3PLC_NOACK P) = flags conf).
Proof.
  intros Hok Hin.
  destruct (later_event_reached P W opts args (EvHybridInit conf e) eq_refl Hin)
    as (m & source & device & Hloop & Hargs & Hset).
  pose proof (run_facts_hold P W opts args) as F.
  rewrite Hloop in F. cbn [machine_of] in F.
  pose proof (Forall_at _ _ _ (rf_inits _ _ _ F) Hin) as Hconf.
  cbn in Hconf. subst conf. rewrite (rf_flags _ _ _ F). cbn [machine_of].
  exact (flag_options P W opts m Hok Hloop).
Qed.

Lemma flag_options_reach_the_driver_witness :
  exists conf e,
    In (EvHybridInit conf e)
       (trace_of (run Sample.platform (Sample.world (fun _ => true))
                      Sample.opts_a_r3_d1234 Sample.args_ok)) /\
    Z.land (flags conf) (G3PLC_NOACK Sample.platform)
    = G3PLC_NOACK Sample.platform.
Proof.
  assert (H : existsb is_hybrid_init
                (trace_of (run Sample.platform (Sample.world (fun _ => true))
                               Sample.opts_a_r3_d1234 Sample.args_ok)) = true)
    by reflexivity.
  apply existsb_exists in H as (ev & Hin & Hev).
  destruct ev; try discriminate Hev.
  assert (Hok : Forall (fun o : Z * string => fst o <> -1) Sample.opts_a_r3_d1234).
  { repeat constructor; discriminate. }
  exists conf, r. split; [exact Hin|].
  exact (proj1 (flag_options_reach_the_driver _ _ _ _ _ _ Hok Hin) eq_refl).
Defined.

Lemma loop_through P W l1 c optarg l2 m :
  Forall (fun o => fst o <> -1) l1 -> c <> -1 ->
  getopt_loop P (SendMode.iface_mode W) (l1 ++ (c, optarg) :: l2) (boot P)
  = Running Next m ->
  exists m1 m2,
    machine_of (option_turn P (SendMode.iface_mode W) c optarg m1) = m2 /\
    getopt_loop P (SendMode.iface_mode W) l2 m2 = Running Next m.
Proof.
  intros Hok Hc Hloop.
  destruct (getopt_loop_split P W l1 c optarg l2 (boot P) m Hok Hc Hloop)
    as (m1 & m2 & _ & Ht & Hl2).
  exists m1, m2. rewrite Ht. auto.
Qed.

(** X19.  When an option is given more than once its last occurrence
    decides: the destination and the message of the send, the number of
    retransmissions and the timeout of the driver, the speed of the serial
    line and the pin of the reset are those of the last occurrence. *)
Theorem last_occurrence_of_an_option_decides P W l1 c optarg l2 args :
  let tr := trace_of (run P W (l1 ++ (c, optarg) :: l2) args) in
  Forall (fun o => fst o <> -1) l1 -> absent c l2 = true ->
  (c = chr "d" ->
   forall dst payload size rep,
     In (EvSend dst payload size rep) tr ->
     dst = wrap_uint16 (strtol P optarg 16)) /\
  (c = chr "m" ->
   forall dst payload size rep,
     In (EvSend dst payload size rep) tr -> payload = optarg) /\
  (c = chr "r" ->
   forall conf e,
     In (EvHybridInit conf e) tr -> retrans conf = fst (xatou P optarg)) /\
  (c = chr "t" ->
   forall conf e,
     In (EvHybridInit conf e) tr -> timeout conf = fst (xatou P optarg)) /\
  (c = chr "B" ->
   forall device speed,
     In (EvSerialInit device speed) tr -> speed = baud P optarg) /\
  (c = OPT_RESET ->
   forall pin,
     In (EvGpioSetMode pin) tr -> pin = wrap_int32 (fst (xatou P optarg))).
Proof.
  cbv zeta. intros Hok Hlast.
  set (opts := l1 ++ (c, optarg) :: l2) in *.
  pose proof (run_facts_hold P W opts args) as F.
  pose proof (run_more_hold P W opts args) as G.
  assert (Hreach : forall ev,
             In ev (trace_of (run P W opts args)) ->
             option_event ev = false -> c <> -1 ->
             exists m m1,
               getopt_loop P (SendMode.iface_mode W) opts (boot P)
               = Running Next m /\
               getopt_loop P (SendMode.iface_mode W) l2
                 (machine_of (option_turn P (SendMode.iface_mode W) c optarg m1))
               = Running Next m).
  { intros ev Hin Hev Hc.
    destruct (later_event_reached P W opts args ev Hev Hin)
      as (m & _ & _ & Hloop & _).
    destruct (loop_through P W l1 c optarg l2 m Hok Hc Hloop)
      as (m1 & m2 & <- & Hl2).
    exists m, m1. auto. }
  repeat match goal with |- _ /\ _ => split end; intros ->.
  - intros dst payload size rep Hin.
    destruct (Hreach _ Hin eq_refl ltac:(discriminate)) as (m & m1 & Hloop & Hl2).
    rewrite Hloop in F. cbn [machine_of] in F.
    pose proof (Forall_at _ _ _ (rf_sends _ _ _ F) Hin eq_refl) as Hsend.
    unfold the_send in Hsend. cbv zeta in Hsend.
    rewrite (rf_ctx _ _ _ F) in Hsend. cbn [machine_of] in Hsend.
    injection Hsend as -> _ _ _.
    pose proof (getopt_loop_keeps P (SendMode.iface_mode W) l2
                  (machine_of (option_turn P (SendMode.iface_mode W)
                                 (chr "d") optarg m1)))
      as (_ & _ & _ & Hk).
    cbv zeta in Hk. rewrite Hl2 in Hk. cbn [machine_of] in Hk.
    rewrite (Hk Hlast).
    apply (option_turn_sets P W (chr "d") optarg m1). reflexivity.
  - intros dst payload size rep Hin.
    destruct (Hreach _ Hin eq_refl ltac:(discriminate)) as (m & m1 & Hloop & Hl2).
    rewrite Hloop in F. cbn [machine_of] in F.
    pose proof (Forall_at _ _ _ (rf_sends _ _ _ F) Hin eq_refl) as Hsend.
    unfold the_send in Hsend. cbv zeta in Hsend.
    rewrite (rf_mode _ _ _ F) in Hsend. cbn [machine_of] in Hsend.
    injection Hsend as _ -> _ _.
    pose proof (getopt_loop_keeps_more P W l2
                  (machine_of (option_turn P (SendMode.iface_mode W)
                                 (chr "m") optarg m1)))
      as (_ & _ & _ & _ & Hk).
    cbv zeta in Hk. rewrite Hl2 in Hk. cbn [machine_of] in Hk.
    rewrite (Hk Hlast).
    apply (option_turn_sets P W (chr "m") optarg m1). reflexivity.
  - intros conf e Hin.
    destruct (Hreach _ Hin eq_refl ltac:(discriminate)) as (m & m1 & Hloop & Hl2).
    rewrite Hloop in F. cbn [machine_of] in F.
    pose proof (Forall_at _ _ _ (rf_inits _ _ _ F) Hin) as Hconf.
    cbn in Hconf. subst conf. rewrite (rf_retrans _ _ _ F). cbn [machine_of].
    pose proof (getopt_loop_keeps P (SendMode.iface_mode W) l2
                  (machine_of (option_turn P (SendMode.iface_mode W)
                                 (chr "r") optarg m1)))
      as (Hk & _).
    cbv zeta in Hk. rewrite Hl2 in Hk. cbn [machine_of] in Hk.
    rewrite (Hk Hlast).
    apply (option_turn_sets P W (chr "r") optarg m1). reflexivity.
  - intros conf e Hin.
    destruct (Hreach _ Hin eq_refl ltac:(discriminate)) as (m & m1 & Hloop & Hl2).
    rewrite Hloop in F. cbn [machine_of] in F.
    pose proof (Forall_at _ _ _ (rf_inits _ _ _ F) Hin) as Hconf.
    cbn in Hconf. subst conf. rewrite (rf_timeout _ _ _ F). cbn [machine_of].
    pose proof (getopt_loop_keeps P (SendMode.iface_mode W) l2
                  (machine_of (option_turn P (SendMode.iface_mode W)
                                 (chr "t") optarg m1)))
      as (_ & Hk & _).
    cbv zeta in Hk. rewrite Hl2 in Hk. cbn [machine_of] in Hk.
    rewrite (Hk Hlast).
    apply (option_turn_sets P W (chr "t") optarg m1). reflexivity.
  - intros device speed Hin.
    destruct (Hreach _ Hin eq_refl ltac:(discriminate)) as (m & m1 & Hloop & Hl2).
    rewrite Hloop in G. cbn [machine_of] in G.
    pose proof (Forall_at _ _ _ (rm_serial _ _ _ _ G) Hin) as (_ & ->).
    cbn [machine_of].
    pose proof (getopt_loop_keeps_more P W l2
                  (machine_of (option_turn P (SendMode.iface_mode W)
                                 (chr "B") optarg m1)))
      as (_ & _ & Hk & _).
    cbv zeta in Hk. rewrite Hl2 in Hk. cbn [machine_of] in Hk.
    rewrite (proj1 (Hk Hlast)).
    apply (option_turn_sets P W (chr "B") optarg m1). reflexivity.
  - intros pin Hin.
    destruct (Hreach _ Hin eq_refl ltac:(discriminate)) as (m & m1 & Hloop & Hl2).
    rewrite Hloop in G. cbn [machine_of] in G.
    pose proof (Forall_at _ _ _ (rm_gpio _ _ _ _ G) Hin) as (-> & _).
    cbn [machine_of].
    pose proof (getopt_loop_keeps_more P W l2
                  (machine_of (option_turn P (SendMode.iface_mode W)
                                 OPT_RESET optarg m1)))
      as (Hk & _).
    cbv zeta in Hk. rewrite Hl2 in Hk. cbn [machine_of] in Hk.
    rewrite (Hk Hlast).
    apply (option_turn_sets P W OPT_RESET optarg m1). reflexivity.
Qed.

Lemma last_occurrence_of_an_option_decides_witness :
  exists dst payload size rep,
    In (EvSend dst payload size rep)
       (trace_of (run Sample.platform (Sample.world (fun _ => true))
                      ([(chr "d", "1234"%string)]
                       ++ (chr "d", "00ff"%string) :: [(chr "a", ""%string)])
                      Sample.args_ok)) /\
    dst = wrap_uint16 (strtol Sample.platform "00ff" 16).
Proof.
  assert (H : existsb is_send
                (trace_of (run Sample.platform (Sample.world (fun _ => true))
                               ([(chr "d", "1234"%string)]
                                ++ (chr "d", "00ff"%string)
                                   :: [(chr "a", ""%string)])
                               Sample.args_ok)) = true)
    by reflexivity.
  apply existsb_exists in H as (ev & Hin & Hev).
  destruct ev; try discriminate Hev.
  assert (Hok : Forall (fun o : Z * string => fst o <> -1)
                  [(chr "d", "1234"%string)]).
  { constructor; [discriminate | constructor]. }
  exists dst, payload, size, rep. split; [exact Hin|].
  exact (proj1 (last_occurrence_of_an_option_decides
                  Sample.platform (Sample.world (fun _ => true))
                  [(chr "d", "1234"%string)] (chr "d") "00ff"
                  [(chr "a", ""%string)] Sample.args_ok Hok eq_refl)
           eq_refl dst payload size rep Hin).
Defined.

(** ** The lines of the summary *)




(** X21.  The summary of a run names the pin of the reset that the run sets
    up, except when the pin is 0: the pin 0 is set up but not shown. *)
Theorem summary_leaves_out_reset_pin_zero
    P W opts args w fuel conf ctx dev speed pin lines :
  let tr := trace_of (run P W opts args) in
  In (EvDisplaySummary conf ctx dev speed) tr ->
  In (EvGpioSetMode pin) tr ->
  Summary.display_summary P w fuel "send" conf ctx (dst_mac ctx) dev speed
  = Some lines ->
  gpio_reset ctx = pin /\
  (In (Summary.GpioReset pin) lines <-> pin <> 0).
Proof.
  cbv zeta. intros Hs Hg Hlines.
  destruct (later_event_reached P W opts args (EvGpioSetMode pin) eq_refl Hg)
    as (m & source & device & Hloop & Hargs & Hset).
  pose proof (run_more_hold P W opts args) as G.
  pose proof (run_order_hold P W opts args) as O.
  rewrite Hloop in G, O. cbn [machine_of] in G, O.
  pose proof (Forall_at _ _ _ (rm_gpio _ _ _ _ G) Hg) as (Hpin & Hpos).
  pose proof (Forall_at _ _ _ (ro_summary _ _ _ _ O) Hs) as (Hctx & _).
  cbn [machine_of] in Hpin, Hpos. subst ctx. split; [symmetry; exact Hpin|].
  unfold Summary.display_summary in Hlines.
  destruct (Summary.flag_loop P w fuel (flags conf) 1) as [listed|] eqn:Hl;
    [|discriminate Hlines].
  injection Hlines as <-.
  assert (Hnot : ~ In (Summary.GpioReset pin) listed).
  { clear - Hl. revert Hl. generalize 1 at 1. revert listed.
    induction fuel as [|fuel IH]; intros listed flag Hl; [discriminate Hl|].
    cbn [Summary.flag_loop] in Hl.
    destruct (flag <=? G3PLC_NOACK P).
    - destruct (Summary.flag_loop P w fuel (flags conf) _) as [rest|] eqn:E;
        [|discriminate Hl].
      injection Hl as <-. intro H. apply in_app_or in H as [H | H].
      + destruct (Z.land (flags conf) flag =? 0); [contradiction|].
        destruct H as [H | []]. discriminate H.
      + exact (IH _ _ E H).
    - injection Hl as <-. intros []. }
  rewrite <- Hpin in *.
  destruct (0 <? pin) eqn:E.
  - apply Z.ltb_lt in E. split; [lia|]. intros _. simpl. auto.
  - apply Z.ltb_ge in E. split; [|lia]. simpl.
    intros [H | [H | [H | [H | [H | [H | [H | H]]]]]]];
      try discriminate H. contradiction.
Qed.

Lemma summary_leaves_out_reset_pin_zero_witness :
  exists lines,
    Summary.display_summary Sample.platform 32 32 "send"
      (set_mac_address 1 (initial_hybrid Sample.platform))
      (set_verbose 1 (set_gpio_reset 0 initial_ctx))
      (dst_mac (set_verbose 1 (set_gpio_reset 0 initial_ctx)))
      "/dev/ttyAMA0" "9600" = Some lines /\
    (In (Summary.GpioReset 0) lines <-> 0 <> 0).
Proof.
  assert (Hs : In (EvDisplaySummary
                     (set_mac_address 1 (initial_hybrid Sample.platform))
                     (set_verbose 1 (set_gpio_reset 0 initial_ctx))
                     "/dev/ttyAMA0" "9600")
                  (trace_of (run Sample.platform (Sample.world (fun _ => true))
                                 [(chr "v", ""%string); (OPT_RESET, "0"%string)]
                                 Sample.args_ok))).
  { vm_compute. tauto. }
  assert (Hg : In (EvGpioSetMode 0)
                  (trace_of (run Sample.platform (Sample.world (fun _ => true))
                                 [(chr "v", ""%string); (OPT_RESET, "0"%string)]
                                 Sample.args_ok))).
  { vm_compute. tauto. }
  destruct (Summary.display_summary Sample.platform 32 32 "send"
              (set_mac_address 1 (initial_hybrid Sample.platform))
              (set_verbose 1 (set_gpio_reset 0 initial_ctx))
              (dst_mac (set_verbose 1 (set_gpio_reset 0 initial_ctx)))
              "/dev/ttyAMA0" "9600") as [lines|] eqn:Hlines.
  - exists lines. split; [reflexivity|].
    exact (proj2 (summary_leaves_out_reset_pin_zero _ _ _ _ _ _ _ _ _ _ _ _
                    Hs Hg Hlines)).
  - vm_compute in Hlines. discriminate Hlines.
Defined.
